(** * Wailing Newt Web Walker: robots policy, issue filter, content guard
      and crash-recovery sweep

    A shallow embedding of

    - [src/core/robots_parser.py]   (RobotsDirective, UserAgentRules,
                                     RobotsParser, CustomRobotsManager),
    - [src/utils/issue_filters.py]  (filter_issues_by_exclusion_patterns),
    - [src/core/content_analyzer.py] (ContentAnalyzer.analyze_content),
    - [main.py]                     (recover_crashed_crawls),

    followed by the properties of these functions.

    Conventions.  A Python [str] is a [string]; a character is an
    [ascii], read as the code point 0..255.  A Python [dict] keyed by
    strings is a [gmap string _]; a Python list is a [list]; [None] is
    the [None] of an [option].  Functions of the Python standard library
    that the code calls ([str.strip], [re.escape], [re.compile],
    [fnmatch], [int], [float], ...) are modelled next to their first use,
    as CPython 3.11 on a POSIX platform behaves. *)

From Stdlib Require Import ZArith NArith Bool Ascii String List Lia Permutation Sorted.
From stdpp Require Import base option list strings gmap fin_maps pretty.

Local Open Scope bool_scope.

(* ===================================================================== *)
(** * Part I.  Definitions                                                *)
(* ===================================================================== *)

(* --------------------------------------------------------------------- *)
(** ** Python string methods                                              *)
(* --------------------------------------------------------------------- *)

Module Str.

Definition code (c : ascii) : N := N_of_ascii c.

Definition between (lo hi : N) (c : ascii) : bool :=
  (lo <=? code c)%N && (code c <=? hi)%N.

(** [str.isspace] on one character: TAB..CR, FS..US, space, NEL, NBSP. *)
Definition isspace (c : ascii) : bool :=
  between 9 13 c || between 28 32 c
  || (code c =? 133)%N || (code c =? 160)%N.

Definition isdigit (c : ascii) : bool := between 48 57 c.

Definition isalpha_ascii (c : ascii) : bool :=
  between 65 90 c || between 97 122 c.

(** [str.lower] on one character: A..Z and the Latin-1 capitals. *)
Definition lower_char (c : ascii) : ascii :=
  if between 65 90 c
     || (between 192 222 c && negb (code c =? 215)%N)
  then ascii_of_N (code c + 32) else c.

Fixpoint lower (s : string) : string :=
  match s with
  | EmptyString => EmptyString
  | String c t => String (lower_char c) (lower t)
  end.

(** [c in s] for a one-character [c]. *)
Fixpoint contains (c : ascii) (s : string) : bool :=
  match s with
  | EmptyString => false
  | String d t => Ascii.eqb d c || contains c t
  end.

Definition is_empty (s : string) : bool :=
  match s with EmptyString => true | String _ _ => false end.

(** [s.lstrip(...)], [s.rstrip(...)]: the characters to drop are given
    by a predicate. *)
Fixpoint lstrip_by (drop : ascii -> bool) (s : string) : string :=
  match s with
  | EmptyString => EmptyString
  | String c t => if drop c then lstrip_by drop t else s
  end.

Fixpoint rstrip_by (drop : ascii -> bool) (s : string) : string :=
  match s with
  | EmptyString => EmptyString
  | String c t =>
      let t' := rstrip_by drop t in
      if is_empty t' && drop c then EmptyString else String c t'
  end.

(** [s.strip()] *)
Definition strip (s : string) : string :=
  rstrip_by isspace (lstrip_by isspace s).

(** [s.rstrip(chars)] *)
Definition rstrip (chars : string) (s : string) : string :=
  rstrip_by (fun c => contains c chars) s.

(** [s.startswith(p)] *)
Fixpoint startswith (s p : string) {struct p} : bool :=
  match p with
  | EmptyString => true
  | String b p' =>
      match s with
      | String a s' => Ascii.eqb a b && startswith s' p'
      | EmptyString => false
      end
  end.

(** [s.endswith(p)]: [p] is [s] or a suffix of the tail of [s]. *)
Fixpoint endswith (s p : string) : bool :=
  String.eqb s p
  || match s with
     | EmptyString => false
     | String _ t => endswith t p
     end.

(** [s.split(sep)] for a one-character separator. *)
Fixpoint split (sep : ascii) (s : string) : list string :=
  match s with
  | EmptyString => [EmptyString]
  | String c t =>
      let r := split sep t in
      if Ascii.eqb c sep then EmptyString :: r
      else match r with
           | h :: tl => String c h :: tl
           | [] => [String c EmptyString]
           end
  end.

(** [s.split(sep, 1)] when [sep in s]: the text before the first
    separator and the text after it. *)
Fixpoint split1 (sep : ascii) (s : string) : option (string * string) :=
  match s with
  | EmptyString => None
  | String c t =>
      if Ascii.eqb c sep then Some (EmptyString, t)
      else match split1 sep t with
           | Some (a, b) => Some (String c a, b)
           | None => None
           end
  end.

(** [s.replace(old, new)]: occurrences are replaced from the left and
    do not overlap.  [skip] counts the characters of an occurrence that
    are still to be dropped. *)
Fixpoint replace_from (old new : string) (skip : nat) (s : string) : string :=
  match s with
  | EmptyString => EmptyString
  | String c t =>
      match skip with
      | S k => replace_from old new k t
      | O =>
          if startswith s old
          then new +:+ replace_from old new (String.length old - 1) t
          else String c (replace_from old new 0 t)
      end
  end.

(** [old] is not empty at the call sites. *)
Definition replace (old new : string) (s : string) : string :=
  replace_from old new 0 s.

End Str.

(* --------------------------------------------------------------------- *)
(** ** The fragment of Python's [re] that robots patterns use            *)
(* --------------------------------------------------------------------- *)

Module Re.

Definition LF : ascii := ascii_of_N 10.
Definition NL : string := String LF EmptyString.

(** [re.escape] puts a backslash before each of
    [()[]{}?*+-|^$\.&~#], space, TAB, LF, CR, VT and FF. *)
Definition is_special (c : ascii) : bool :=
  Str.contains c "()[]{}?*+-|^$\.&~# " || Str.between 9 13 c.

Fixpoint escape (s : string) : string :=
  match s with
  | EmptyString => EmptyString
  | String c t =>
      if is_special c then String "\" (String c (escape t))
      else String c (escape t)
  end.

(** Compiled patterns: a sequence of items, each a one-character atom,
    a starred atom, or one of the anchors [^] and [$]. *)
Inductive atom := Lit (c : ascii) | Dot.
Inductive item := One (a : atom) | Star (a : atom) | Bol | Eol.

Definition is_meta (c : ascii) : bool := Str.contains c ".^$*+?{}[]\|()".
Definition is_quantifier (c : ascii) : bool := Str.contains c "*+?{".
Definition is_word (c : ascii) : bool :=
  Str.isdigit c || Str.isalpha_ascii c || Ascii.eqb c "_".

Definition starts_quantifier (s : string) : bool :=
  match s with
  | String c _ => is_quantifier c
  | EmptyString => false
  end.

(** [re.compile], restricted to the fragment above.  [None] stands for
    a pattern outside the fragment (groups, sets, alternation, counted
    or lazy repetition, class escapes) or one that CPython rejects. *)
Fixpoint compile (s : string) : option (list item) :=
  match s with
  | EmptyString => Some []
  | String c t =>
      if Ascii.eqb c "^" then
        if starts_quantifier t then None else cons Bol <$> compile t
      else if Ascii.eqb c "$" then
        if starts_quantifier t then None else cons Eol <$> compile t
      else if Ascii.eqb c "\" then
        match t with
        | EmptyString => None
        | String e u =>
            if is_word e then None
            else match u with
                 | EmptyString => Some [One (Lit e)]
                 | String q v =>
                     if Ascii.eqb q "*" then
                       if starts_quantifier v then None
                       else cons (Star (Lit e)) <$> compile v
                     else if is_quantifier q then None
                     else cons (One (Lit e)) <$> compile u
                 end
        end
      else
        match (if Ascii.eqb c "." then Some Dot
               else if is_meta c then None else Some (Lit c)) with
        | None => None
        | Some a =>
            match t with
            | EmptyString => Some [One a]
            | String q v =>
                if Ascii.eqb q "*" then
                  if starts_quantifier v then None
                  else cons (Star a) <$> compile v
                else if is_quantifier q then None
                else cons (One a) <$> compile t
            end
        end
  end.

(** [.] matches every character but a newline. *)
Definition atom_ok (a : atom) (c : ascii) : bool :=
  match a with
  | Lit d => Ascii.eqb c d
  | Dot => negb (Ascii.eqb c LF)
  end.

(** [$] matches at the end of the text and before a final newline. *)
Definition at_end (text : string) : bool :=
  match text with
  | EmptyString => true
  | String c EmptyString => Ascii.eqb c LF
  | _ => false
  end.

(** Does the item sequence match a prefix of [text]?  [start] tells
    whether [text] is the whole subject (for [^]). *)
Fixpoint match_here (r : list item) : bool -> string -> bool :=
  match r with
  | [] => fun _ _ => true
  | Bol :: r' => fun start text => start && match_here r' start text
  | Eol :: r' => fun start text => at_end text && match_here r' start text
  | One a :: r' => fun _ text =>
      match text with
      | String c t => atom_ok a c && match_here r' false t
      | EmptyString => false
      end
  | Star a :: r' =>
      fix star (start : bool) (text : string) {struct text} : bool :=
        match_here r' start text
        || match text with
           | String c t => atom_ok a c && star false t
           | EmptyString => false
           end
  end.

(** [bool(pattern.match(text))] *)
Definition match_ (r : list item) (text : string) : bool :=
  match_here r true text.

End Re.

(* --------------------------------------------------------------------- *)
(** ** robots_parser.py: RobotsDirective                                  *)
(* --------------------------------------------------------------------- *)

Module RobotsDirective.

(** [pattern] is the compiled matcher; [None] would be a pattern that
    [re.compile] does not accept ([_compile_pattern_total] below shows
    that [_compile_pattern] never produces one). *)
Record t := mk {
  path : string;
  allow : bool;
  pattern : option (list Re.item)
}.

(** The text handed to [re.compile]. *)
Definition _pattern_source (path : string) : string :=
  let escaped := Re.escape path in
  let escaped := Str.replace "\*" ".*" escaped in
  let escaped := Str.replace "\$" "$" escaped in
  let escaped :=
    if negb (Str.endswith escaped "$") && negb (Str.endswith escaped ".*")
    then escaped +:+ ".*" else escaped in
  "^" +:+ escaped.

Definition _compile_pattern (path : string) : option (list Re.item) :=
  Re.compile (_pattern_source path).

(** [RobotsDirective(path, allow)] *)
Definition new (path : string) (allow : bool) : t :=
  mk path allow (_compile_pattern path).

Definition matches (d : t) (p : string) : bool :=
  match pattern d with
  | Some r => Re.match_ r p
  | None => false
  end.

End RobotsDirective.

(* --------------------------------------------------------------------- *)
(** ** robots_parser.py: UserAgentRules                                   *)
(* --------------------------------------------------------------------- *)

(** The value of [float(s)], kept as the decimal numeral that was read:
    sign, digits and power of ten (binary rounding is not applied). *)
Inductive PyFloat :=
| FNan
| FInf (negative : bool)
| FDec (negative : bool) (digits : N) (exp10 : Z).

Module UserAgentRules.

Record t := mk {
  user_agent : string;
  directives : list RobotsDirective.t;
  crawl_delay : option PyFloat;
  request_rate : option (Z * Z);
  sitemaps : list string
}.

(** [UserAgentRules(user_agent)] *)
Definition new (ua : string) : t := mk ua [] None None [].

Definition add_directive (r : t) (path : string) (allow : bool) : t :=
  mk (user_agent r) (directives r ++ [RobotsDirective.new path allow])
     (crawl_delay r) (request_rate r) (sitemaps r).

Definition set_crawl_delay (r : t) (d : PyFloat) : t :=
  mk (user_agent r) (directives r) (Some d) (request_rate r) (sitemaps r).

Definition set_request_rate (r : t) (rate : Z * Z) : t :=
  mk (user_agent r) (directives r) (crawl_delay r) (Some rate) (sitemaps r).

(** One turn of the loop of [is_allowed]; the state is
    [(best_match, best_length)]. *)
Definition best_step (p : string)
    (st : option RobotsDirective.t * Z) (d : RobotsDirective.t)
    : option RobotsDirective.t * Z :=
  if RobotsDirective.matches d p then
    if (Z.of_nat (String.length (RobotsDirective.path d)) >? snd st)%Z
    then (Some d, Z.of_nat (String.length (RobotsDirective.path d)))
    else st
  else st.

Definition best_match (ds : list RobotsDirective.t) (p : string)
    : option RobotsDirective.t :=
  fst (fold_left (best_step p) ds (None, (-1)%Z)).

Definition is_allowed (r : t) (p : string) : bool :=
  match directives r with
  | [] => true
  | _ =>
      match best_match (directives r) p with
      | None => true
      | Some d => RobotsDirective.allow d
      end
  end.

Definition get_blocked_paths (r : t) : list string :=
  RobotsDirective.path <$>
    filter (fun d => RobotsDirective.allow d = false) (directives r).

Definition get_allowed_paths (r : t) : list string :=
  RobotsDirective.path <$>
    filter (fun d => RobotsDirective.allow d = true) (directives r).

End UserAgentRules.

(* --------------------------------------------------------------------- *)
(** ** Python's [int(str)] and [float(str)]                               *)
(* --------------------------------------------------------------------- *)

Module PyNum.

Definition digit_val (c : ascii) : N := (Str.code c - 48)%N.

(** The rest of a [digitpart ::= digit (["_"] digit)*] after a digit:
    value so far, number of digits read, and the text left over. *)
Fixpoint digits_from (acc : N) (cnt : nat) (s : string) : N * nat * string :=
  match s with
  | EmptyString => (acc, cnt, EmptyString)
  | String c t =>
      if Str.isdigit c then digits_from (10 * acc + digit_val c)%N (S cnt) t
      else if Ascii.eqb c "_" then
        match t with
        | String d u =>
            if Str.isdigit d
            then digits_from (10 * acc + digit_val d)%N (S cnt) u
            else (acc, cnt, s)
        | EmptyString => (acc, cnt, s)
        end
      else (acc, cnt, s)
  end.

Definition digitpart (s : string) : option (N * nat * string) :=
  match s with
  | String c t =>
      if Str.isdigit c then Some (digits_from (digit_val c) 1 t) else None
  | EmptyString => None
  end.

Definition sign (s : string) : bool * string :=
  match s with
  | String "-" t => (true, t)
  | String "+" t => (false, t)
  | _ => (false, s)
  end.

Definition signed (negative : bool) (n : N) : Z :=
  if negative then (- Z.of_N n)%Z else Z.of_N n.

(** [int(s)]; [None] is [ValueError].  (The interpreter's configurable
    limit on the number of digits is left out.) *)
Definition int (s : string) : option Z :=
  let '(negative, r) := sign (Str.strip s) in
  match digitpart r with
  | Some (n, _, EmptyString) => Some (signed negative n)
  | _ => None
  end.

(** The optional exponent and the end of the numeral. *)
Definition exponent (negative : bool) (m : N) (e : Z) (r : string)
    : option PyFloat :=
  match r with
  | EmptyString => Some (FDec negative m e)
  | String c r' =>
      if Ascii.eqb c "e" || Ascii.eqb c "E" then
        let '(eneg, r'') := sign r' in
        match digitpart r'' with
        | Some (x, _, EmptyString) => Some (FDec negative m (e + signed eneg x))
        | _ => None
        end
      else None
  end.

(** [float(s)]; [None] is [ValueError].
    number ::= [digitpart] "." digitpart | digitpart ["."] *)
Definition float (s : string) : option PyFloat :=
  let '(negative, r) := sign (Str.strip s) in
  let word := Str.lower r in
  if String.eqb word "inf" || String.eqb word "infinity" then Some (FInf negative)
  else if String.eqb word "nan" then Some FNan
  else
    match digitpart r with
    | Some (ip, _, r1) =>
        match r1 with
        | String "." r2 =>
            match digitpart r2 with
            | Some (fp, fl, r3) =>
                exponent negative (ip * 10 ^ N.of_nat fl + fp)%N
                         (- Z.of_nat fl) r3
            | None => exponent negative ip 0 r2
            end
        | _ => exponent negative ip 0 r1
        end
    | None =>
        match r with
        | String "." r2 =>
            match digitpart r2 with
            | Some (fp, fl, r3) => exponent negative fp (- Z.of_nat fl) r3
            | None => None
            end
        | _ => None
        end
    end.

End PyNum.

(* --------------------------------------------------------------------- *)
(** ** [urllib.parse.urlparse]                                            *)
(* --------------------------------------------------------------------- *)

Module Url.
Record ParseResult := mk {
  scheme : string;
  netloc : string;
  path : string;
  params : string;
  query : string;
  fragment : string
}.
End Url.

(** The standard library's URL splitter is an interface of the model: the
    code only reads the components of its result. *)
Class UrlLib := urlparse : string -> Url.ParseResult.

(* --------------------------------------------------------------------- *)
(** ** robots_parser.py: RobotsParser                                     *)
(* --------------------------------------------------------------------- *)

(** What [requests.get] did: a response, or one of the exceptions that
    [fetch_and_parse] catches. *)
Inductive FetchOutcome :=
| Response (status_code : Z) (text : string)
| RaisedTimeout
| RaisedRequestException (msg : string)
| RaisedException (msg : string).

Module RobotsParser.

Record t := mk {
  timeout : Z;
  user_agent_rules : gmap string UserAgentRules.t;
  sitemaps : list string;
  raw_content : string;
  parse_errors : list string;
  url : option string;
  last_fetched : option string
}.

(** [RobotsParser(timeout)] *)
Definition new (timeout : Z) : t := mk timeout ∅ [] "" [] None None.

Definition set_rules (p : t) (rules : gmap string UserAgentRules.t) : t :=
  mk (timeout p) rules (sitemaps p) (raw_content p) (parse_errors p)
     (url p) (last_fetched p).

Definition add_error (p : t) (msg : string) : t :=
  mk (timeout p) (user_agent_rules p) (sitemaps p) (raw_content p)
     (parse_errors p ++ [msg]) (url p) (last_fetched p).

Definition add_sitemap (p : t) (value : string) : t :=
  mk (timeout p) (user_agent_rules p) (sitemaps p ++ [value]) (raw_content p)
     (parse_errors p) (url p) (last_fetched p).

Definition line_error (line_num : nat) (what : string) : string :=
  "Line " +:+ pretty line_num +:+ ": " +:+ what.

(** [if ua not in rules: rules[ua] = UserAgentRules(ua)] *)
Definition ensure (ua : string) (rules : gmap string UserAgentRules.t)
    : gmap string UserAgentRules.t :=
  match rules !! ua with
  | Some _ => rules
  | None => <[ua := UserAgentRules.new ua]> rules
  end.

(** The test that decides between a new block and a continuation. *)
Definition previous_block_had_directives
    (rules : gmap string UserAgentRules.t) (current : list string) : bool :=
  match current with
  | [] => false
  | first :: _ =>
      match rules !! first with
      | Some r =>
          match UserAgentRules.directives r with
          | [] => false
          | _ :: _ => true
          end
      | None => false
      end
  end.

(** [for ua in current_user_agents: ... add_directive(value, is_allow)] *)
Definition attach_directive (value : string) (is_allow : bool)
    (rules : gmap string UserAgentRules.t) (ua : string)
    : gmap string UserAgentRules.t :=
  alter (fun r => UserAgentRules.add_directive r value is_allow) ua
        (ensure ua rules).

(** [for ua in current_user_agents: if ua in rules: rules[ua].f = v] *)
Definition update_present (f : UserAgentRules.t -> UserAgentRules.t)
    (rules : gmap string UserAgentRules.t) (ua : string)
    : gmap string UserAgentRules.t :=
  alter f ua rules.

Definition in_list (x : string) (l : list string) : bool :=
  existsb (String.eqb x) l.

(** The body of the [for line_num, line in enumerate(...)] loop; the
    state is the parser together with [current_user_agents]. *)
Definition parse_line (line_num : nat) (raw : string)
    (st : t * list string) : t * list string :=
  let '(p, current) := st in
  let line := Str.strip (hd "" (Str.split "#" raw)) in
  if Str.is_empty line then st
  else
    match Str.split1 ":" line with
    | None => (add_error p (line_error line_num "Invalid syntax"), current)
    | Some (directive, value) =>
        let directive := Str.lower (Str.strip directive) in
        let value := Str.strip value in
        if String.eqb directive "user-agent" then
          let rules := ensure value (user_agent_rules p) in
          (set_rules p rules,
           if previous_block_had_directives rules current
           then [value] else current ++ [value])
        else if String.eqb directive "disallow" || String.eqb directive "allow" then
          match current with
          | [] =>
              (add_error p (line_error line_num "Directive without user-agent"),
               current)
          | _ :: _ =>
              let is_allow := String.eqb directive "allow" in
              (set_rules p
                 (fold_left (attach_directive value is_allow) current
                            (user_agent_rules p)),
               current)
          end
        else if String.eqb directive "crawl-delay" then
          match PyNum.float value with
          | Some delay =>
              (set_rules p
                 (fold_left
                    (update_present
                       (fun r => UserAgentRules.set_crawl_delay r delay))
                    current (user_agent_rules p)),
               current)
          | None =>
              (add_error p (line_error line_num "Invalid crawl-delay value"),
               current)
          end
        else if String.eqb directive "request-rate" then
          match Str.split "/" value with
          | [part0; part1] =>
              match PyNum.int part0, PyNum.int part1 with
              | Some requests_count, Some seconds =>
                  (set_rules p
                     (fold_left
                        (update_present
                           (fun r => UserAgentRules.set_request_rate r
                                       (requests_count, seconds)))
                        current (user_agent_rules p)),
                   current)
              | _, _ =>
                  (add_error p
                     (line_error line_num "Invalid request-rate value"),
                   current)
              end
          | _ => st
          end
        else if String.eqb directive "sitemap" then
          if negb (Str.is_empty value) && negb (in_list value (sitemaps p))
          then (add_sitemap p value, current) else st
        else if String.eqb directive "host" then st
        else
          (add_error p
             (line_error line_num ("Unknown directive '" +:+ directive +:+ "'")),
           current)
    end.

Fixpoint parse_lines (line_num : nat) (lines : list string)
    (st : t * list string) : t * list string :=
  match lines with
  | [] => st
  | line :: rest => parse_lines (S line_num) rest (parse_line line_num line st)
  end.

(** [parser.parse(content)] *)
Definition parse (p : t) (content : string) : t :=
  let p0 := mk (timeout p) ∅ [] content [] (url p) (last_fetched p) in
  fst (parse_lines 1 (Str.split Re.LF content) (p0, [])).

Section WithUrlLib.
Context `{UrlLib}.

(** [fetch_and_parse(url, user_agent)], given what the request did and
    the clock reading [now] used for [last_fetched]. *)
Definition fetch_and_parse (p : t) (target : string)
    (outcome : FetchOutcome) (now : string) : t * bool :=
  let parsed := urlparse target in
  let robots_url :=
    Url.scheme parsed +:+ "://" +:+ Url.netloc parsed +:+ "/robots.txt" in
  let p := mk (timeout p) (user_agent_rules p) (sitemaps p) (raw_content p)
              (parse_errors p) (Some robots_url) (last_fetched p) in
  match outcome with
  | Response status_code text =>
      if (status_code =? 200)%Z then
        let p := parse p text in
        (mk (timeout p) (user_agent_rules p) (sitemaps p) (raw_content p)
            (parse_errors p) (url p) (Some now), true)
      else if (status_code =? 404)%Z then
        (mk (timeout p) (user_agent_rules p) (sitemaps p) ""
            (parse_errors p) (url p) (last_fetched p), true)
      else (add_error p ("HTTP " +:+ pretty status_code), false)
  | RaisedTimeout => (add_error p "Request timed out", false)
  | RaisedRequestException msg =>
      (add_error p ("Network error: " +:+ msg), false)
  | RaisedException msg => (add_error p ("Error: " +:+ msg), false)
  end.

(** [parser.is_allowed(url, user_agent)] *)
Definition is_allowed (p : t) (target : string) (user_agent : string) : bool :=
  let parsed := urlparse target in
  let path :=
    if Str.is_empty (Url.query parsed) then Url.path parsed
    else Url.path parsed +:+ "?" +:+ Url.query parsed in
  match user_agent_rules p !! user_agent with
  | Some r => UserAgentRules.is_allowed r path
  | None =>
      match user_agent_rules p !! "*" with
      | Some r => UserAgentRules.is_allowed r path
      | None => true
      end
  end.

End WithUrlLib.

Definition get_rules_for_user_agent (p : t) (user_agent : string)
    : option UserAgentRules.t :=
  match user_agent_rules p !! user_agent with
  | Some r => Some r
  | None => user_agent_rules p !! "*"
  end.

Definition get_crawl_delay (p : t) (user_agent : string) : option PyFloat :=
  r ← get_rules_for_user_agent p user_agent; UserAgentRules.crawl_delay r.

End RobotsParser.

(* --------------------------------------------------------------------- *)
(** ** robots_parser.py: CustomRobotsManager                              *)
(* --------------------------------------------------------------------- *)

Module CustomRobotsManager.

Record t := mk {
  custom_robots : gmap string string;
  parsers : gmap string RobotsParser.t
}.

(** [CustomRobotsManager()] *)
Definition new : t := mk ∅ ∅.

(** [RobotsParser()] followed by [parser.parse(content)] *)
Definition parsed (content : string) : RobotsParser.t :=
  RobotsParser.parse (RobotsParser.new 10) content.

Definition add_subdomain (m : t) (subdomain content : string) : t :=
  mk (<[subdomain := content]> (custom_robots m))
     (<[subdomain := parsed content]> (parsers m)).

Definition remove_subdomain (m : t) (subdomain : string) : t * bool :=
  match custom_robots m !! subdomain with
  | Some _ =>
      (mk (delete subdomain (custom_robots m)) (delete subdomain (parsers m)),
       true)
  | None => (m, false)
  end.

Definition get_subdomain_content (m : t) (subdomain : string) : option string :=
  custom_robots m !! subdomain.

Definition is_allowed `{UrlLib} (m : t) (target user_agent : string) : bool :=
  let subdomain := Url.netloc (urlparse target) in
  match parsers m !! subdomain with
  | Some p => RobotsParser.is_allowed p target user_agent
  | None => true
  end.

(** [to_dict()]: the dictionary [{'custom_robots': self.custom_robots}]. *)
Definition to_dict (m : t) : gmap string (gmap string string) :=
  {[ "custom_robots" := custom_robots m ]}.

(** [from_dict(data)]: both tables are reset, then every item of
    [data.get('custom_robots', {})] is added. *)
Definition from_dict (m : t) (data : gmap string (gmap string string)) : t :=
  map_fold (fun subdomain content acc => add_subdomain acc subdomain content)
           (mk ∅ ∅) (default ∅ (data !! "custom_robots")).

Definition clear (m : t) : t := mk ∅ ∅.

(** The managers that the methods can produce from a new one. *)
Inductive reachable : t -> Prop :=
| reach_new : reachable new
| reach_add m subdomain content :
    reachable m -> reachable (add_subdomain m subdomain content)
| reach_remove m subdomain :
    reachable m -> reachable (fst (remove_subdomain m subdomain))
| reach_from_dict m data : reachable m -> reachable (from_dict m data)
| reach_clear m : reachable m -> reachable (clear m).

End CustomRobotsManager.

(* --------------------------------------------------------------------- *)
(** ** [fnmatch.fnmatch] on a POSIX platform                              *)
(* --------------------------------------------------------------------- *)

Module Fnmatch.

(** A translated pattern: [*], [?], a literal character, or a bracket
    expression given by its single characters and its ranges. *)
Inductive gitem :=
| GStar
| GAny
| GLit (c : ascii)
| GSet (negated : bool) (singles : list ascii) (ranges : list (ascii * ascii)).

(** The text of a bracket expression: after [[], an optional [!] and an
    optional []] belong to it, and it runs to the next []].  The result
    is that text and the pattern left after the closing bracket; [None]
    when no bracket closes it. *)
Definition bracket (s : string) : option (string * string) :=
  let '(bang, s1) :=
    match s with String "!" t => ("!", t) | _ => ("", s) end in
  let '(close, s2) :=
    match s1 with String "]" t => ("]", t) | _ => ("", s1) end in
  match Str.split1 "]" s2 with
  | Some (mid, rest) => Some (bang +:+ close +:+ mid, rest)
  | None => None
  end.

(** The chunks between the hyphens that make ranges.  A hyphen makes a
    range unless it is among the first [skip] characters still to pass
    (the first character of the expression and the two characters after
    a range hyphen never do).  [cur] is the chunk being read. *)
Fixpoint chunks_from (skip : nat) (cur : string) (s : string) : list string :=
  match s with
  | EmptyString => [cur]
  | String c t =>
      match skip with
      | O =>
          if Ascii.eqb c "-" then cur :: chunks_from 2 EmptyString t
          else chunks_from 0 (cur +:+ String c EmptyString) t
      | S k => chunks_from k (cur +:+ String c EmptyString) t
      end
  end.

(** A hyphen that ends the expression is a character of the last chunk. *)
Fixpoint close_chunks (l : list string) : list string :=
  match l with
  | [c; EmptyString] => [c +:+ "-"]
  | c :: tl => c :: close_chunks tl
  | [] => []
  end.

Definition first_char (s : string) : option ascii :=
  match s with String c _ => Some c | EmptyString => None end.

Fixpoint last_char (s : string) : option ascii :=
  match s with
  | EmptyString => None
  | String c EmptyString => Some c
  | String _ t => last_char t
  end.

Fixpoint but_last (s : string) : string :=
  match s with
  | EmptyString => EmptyString
  | String c EmptyString => EmptyString
  | String c t => String c (but_last t)
  end.

Definition tail (s : string) : string :=
  match s with String _ t => t | EmptyString => EmptyString end.

(** Removal of the empty ranges, from the last pair of chunks to the
    first: when the low end is above the high end both ends go and the
    two chunks are joined. *)
Definition join_empty_range (c : string) (done : list string) : list string :=
  match done with
  | [] => [c]
  | d :: tl =>
      match last_char c, first_char d with
      | Some lo, Some hi =>
          if (Str.code hi <? Str.code lo)%N
          then (but_last c +:+ tail d) :: tl
          else c :: d :: tl
      | _, _ => c :: d :: tl
      end
  end.

Definition chunks (stuff : string) : list string :=
  if Str.contains "-" stuff then
    foldr join_empty_range []
      (close_chunks
         (chunks_from (match stuff with String "!" _ => 2 | _ => 1 end)
                      EmptyString stuff))
  else [stuff].

(** The characters of a chunk that stand for themselves: all but the
    ends that take part in a range. *)
Definition singles_of (is_first is_last : bool) (c : string) : list ascii :=
  let s := if is_first then c else tail c in
  list_ascii_of_string (if is_last then s else but_last s).

Fixpoint set_of_chunks (is_first : bool) (l : list string)
    : list ascii * list (ascii * ascii) :=
  match l with
  | [] => ([], [])
  | [c] => (singles_of is_first true c, [])
  | c :: ((d :: _) as tl) =>
      let '(ss, rs) := set_of_chunks false tl in
      (singles_of is_first false c ++ ss,
       match last_char c, first_char d with
       | Some lo, Some hi => (lo, hi) :: rs
       | _, _ => rs
       end)
  end.

Definition set_item (stuff : string) : gitem :=
  match chunks stuff with
  | String "!" c0 :: tl =>
      let '(ss, rs) := set_of_chunks true (c0 :: tl) in GSet true ss rs
  | l => let '(ss, rs) := set_of_chunks true l in GSet false ss rs
  end.

(** [fnmatch.translate]; [skip] counts the characters of a bracket
    expression that are still to be passed over. *)
Fixpoint translate_from (skip : nat) (pat : string) : list gitem :=
  match pat with
  | EmptyString => []
  | String c t =>
      match skip with
      | S k => translate_from k t
      | O =>
          if Ascii.eqb c "*" then GStar :: translate_from 0 t
          else if Ascii.eqb c "?" then GAny :: translate_from 0 t
          else if Ascii.eqb c "[" then
            match bracket t with
            | Some (stuff, _) =>
                set_item stuff :: translate_from (S (String.length stuff)) t
            | None => GLit "[" :: translate_from 0 t
            end
          else GLit c :: translate_from 0 t
      end
  end.

Definition translate (pat : string) : list gitem := translate_from 0 pat.

Definition in_range (c : ascii) (r : ascii * ascii) : bool :=
  (Str.code (fst r) <=? Str.code c)%N && (Str.code c <=? Str.code (snd r))%N.

Definition item_ok (g : gitem) (c : ascii) : bool :=
  match g with
  | GStar => true
  | GAny => true
  | GLit d => Ascii.eqb c d
  | GSet negated singles ranges =>
      xorb negated (existsb (Ascii.eqb c) singles || existsb (in_range c) ranges)
  end.

(** The whole of [name] has to match. *)
Fixpoint matches (g : list gitem) : string -> bool :=
  match g with
  | [] => Str.is_empty
  | GStar :: g' =>
      fix star (name : string) {struct name} : bool :=
        matches g' name
        || match name with
           | String _ t => star t
           | EmptyString => false
           end
  | i :: g' => fun name =>
      match name with
      | String c t => item_ok i c && matches g' t
      | EmptyString => false
      end
  end.

Definition fnmatch (name pat : string) : bool := matches (translate pat) name.

End Fnmatch.

(* --------------------------------------------------------------------- *)
(** ** utils/issue_filters.py                                             *)
(* --------------------------------------------------------------------- *)

Module IssueFilters.

(** An issue is a dictionary; the filter reads its ['url'] entry. *)
Abbreviation Issue := (gmap string string).

(** [issue.get('url', '')] *)
Definition issue_url (issue : Issue) : string := default "" (issue !! "url").

(** [not pattern.strip() or pattern.strip().startswith('#')] *)
Definition skipped (pattern : string) : bool :=
  Str.is_empty (Str.strip pattern) || Str.startswith (Str.strip pattern) "#".

(** The inner loop: the value of [should_exclude] when it ends. *)
Fixpoint should_exclude (path : string) (exclusion_patterns : list string) : bool :=
  match exclusion_patterns with
  | [] => false
  | pattern :: rest =>
      if skipped pattern then should_exclude path rest
      else if Str.contains "*" pattern then
        if Fnmatch.fnmatch path pattern then true
        else should_exclude path rest
      else if String.eqb path pattern
              || Str.startswith path (Str.rstrip "*" pattern) then true
      else should_exclude path rest
  end.

Section WithUrlLib.
Context `{UrlLib}.

(** The outer loop. *)
Fixpoint filter_loop (issues : list Issue) (exclusion_patterns : list string)
    : list Issue :=
  match issues with
  | [] => []
  | issue :: rest =>
      let parsed := urlparse (issue_url issue) in
      let path := Url.path parsed in
      if should_exclude path exclusion_patterns
      then filter_loop rest exclusion_patterns
      else issue :: filter_loop rest exclusion_patterns
  end.

Definition filter_issues_by_exclusion_patterns
    (issues : list Issue) (exclusion_patterns : list string) : list Issue :=
  match exclusion_patterns with
  | [] => issues
  | _ :: _ => filter_loop issues exclusion_patterns
  end.

End WithUrlLib.

End IssueFilters.

(* --------------------------------------------------------------------- *)
(** ** core/content_analyzer.py                                           *)
(* --------------------------------------------------------------------- *)

(** Binary floating point is an interface of the model: the literals, the
    conversion from [int], the four operations, [<], [round(x, n)] and
    [math.ceil]. *)
Class FloatLib := {
  float64 : Type;
  f_lit : string -> float64;
  f_of_int : Z -> float64;
  f_add : float64 -> float64 -> float64;
  f_sub : float64 -> float64 -> float64;
  f_mul : float64 -> float64 -> float64;
  f_div : float64 -> float64 -> float64;
  f_ltb : float64 -> float64 -> bool;
  f_round : float64 -> Z -> float64;
  f_ceil : float64 -> Z
}.

Module ContentAnalyzer.

(** A Python number: an [int] or a [float]. *)
Inductive PyNumber `{FloatLib} :=
| PInt (z : Z)
| PFloat (x : float64).

Record Keyword `{FloatLib} := mk_keyword {
  word : string;
  count : Z;
  density : PyNumber
}.

Record Result `{FloatLib} := mk_result {
  word_count : Z;
  sentence_count : Z;
  readability_score : PyNumber;
  flesch_kincaid_grade : PyNumber;
  gunning_fog_index : PyNumber;
  reading_time_minutes : Z;
  keywords : list Keyword;
  is_thin_content : bool
}.

Arguments mk_keyword {_} _ _ _.
Arguments mk_result {_} _ _ _ _ _ _ _ _.

Definition stop_words : list string :=
  ["a"; "an"; "the"; "and"; "or"; "but"; "if"; "because"; "as"; "what";
   "when"; "where"; "how"; "who"; "whom"; "which"; "this"; "that"; "these";
   "those"; "am"; "is"; "are"; "was"; "were"; "be"; "been"; "being";
   "have"; "has"; "had"; "having"; "do"; "does"; "did"; "doing";
   "i"; "you"; "he"; "she"; "it"; "we"; "they"; "me"; "him"; "her"; "us";
   "them";
   "my"; "your"; "his"; "its"; "our"; "their"; "mine"; "yours"; "hers";
   "ours"; "theirs";
   "in"; "on"; "at"; "to"; "from"; "by"; "for"; "with"; "about"; "against";
   "between";
   "into"; "through"; "during"; "before"; "after"; "above"; "below"; "under";
   "over"].

(** [\w] of a [str] pattern, on the code points below 256. *)
Definition is_word_char (c : ascii) : bool :=
  Str.between 48 57 c || Str.between 65 90 c || Ascii.eqb c "_"
  || Str.between 97 122 c || (Str.code c =? 170)%N || Str.between 178 179 c
  || (Str.code c =? 181)%N || Str.between 185 186 c || Str.between 188 190 c
  || Str.between 192 214 c || Str.between 216 246 c || Str.between 248 255 c.

(** [re.findall(r'\b\w+\b', text)]: the maximal runs of word
    characters.  The head of the result of [words_from] is the run that
    is being read. *)
Fixpoint words_from (text : string) : string * list string :=
  match text with
  | EmptyString => (EmptyString, [])
  | String c t =>
      let '(cur, ws) := words_from t in
      if is_word_char c then (String c cur, ws)
      else (EmptyString, if Str.is_empty cur then ws else cur :: ws)
  end.

Definition findall_words (text : string) : list string :=
  let '(cur, ws) := words_from text in
  if Str.is_empty cur then ws else cur :: ws.

Definition is_terminator (c : ascii) : bool := Str.contains c ".!?".

Fixpoint run_length (p : ascii -> bool) (s : string) : nat :=
  match s with
  | String c t => if p c then S (run_length p t) else 0
  | EmptyString => 0
  end.

Fixpoint drop (n : nat) (s : string) : string :=
  match n, s with
  | S k, String _ t => drop k t
  | _, _ => s
  end.

(** The length of a match of [[.!?]+(?:\s+|$)] at the start of [s]: a
    run of terminators followed by a run of white space or by the end
    of the text. *)
Definition separator_length (s : string) : option nat :=
  let m := run_length is_terminator s in
  match m with
  | O => None
  | S _ =>
      let rest := drop m s in
      match run_length Str.isspace rest with
      | S w => Some (m + S w)
      | O => if Str.is_empty rest then Some m else None
      end
  end.

(** [re.split(r'[.!?]+(?:\s+|$)', text)]; [skip] counts the characters
    of a separator that are still to be dropped. *)
Fixpoint split_from (skip : nat) (text : string) : list string :=
  match text with
  | EmptyString => [EmptyString]
  | String c t =>
      match skip with
      | S k => split_from k t
      | O =>
          match separator_length text with
          | Some n => EmptyString :: split_from (n - 1) t
          | None =>
              match split_from 0 t with
              | h :: tl => String c h :: tl
              | [] => [String c EmptyString]
              end
          end
      end
  end.

Definition split_sentences (text : string) : list string := split_from 0 text.

Definition _count_words (text : string) : Z :=
  Z.of_nat (length (findall_words (Str.lower text))).

Definition _count_sentences (text : string) : Z :=
  Z.of_nat (length (List.filter (fun s => negb (Str.is_empty (Str.strip s)))
                                (split_sentences text))).

Definition is_vowel (c : ascii) : bool := Str.contains c "aeiouy".

(** The loop over the characters; the state is [(count, prev_is_vowel)]. *)
Fixpoint vowel_groups (count : Z) (prev_is_vowel : bool) (word : string) : Z :=
  match word with
  | EmptyString => count
  | String c t =>
      vowel_groups (if is_vowel c && negb prev_is_vowel
                    then (count + 1)%Z else count)
                   (is_vowel c) t
  end.

Definition _count_syllables_in_word (word : string) : Z :=
  let word := Str.lower word in
  if (String.length word <=? 3)%nat then 1%Z
  else
    let word := if Str.endswith word "e" then Fnmatch.but_last word else word in
    Z.max 1 (vowel_groups 0 false word).

Definition _count_syllables (text : string) : Z :=
  fold_left (fun count word => (count + _count_syllables_in_word word)%Z)
            (findall_words (Str.lower text)) 0%Z.

Definition _count_complex_words (text : string) : Z :=
  fold_left (fun count word =>
               if (_count_syllables_in_word word >=? 3)%Z
               then (count + 1)%Z else count)
            (findall_words (Str.lower text)) 0%Z.

(** [str.isdigit] on the code points below 256. *)
Definition isdigit_char (c : ascii) : bool :=
  Str.between 48 57 c || Str.between 178 179 c || (Str.code c =? 185)%N.

Fixpoint all_chars (p : ascii -> bool) (s : string) : bool :=
  match s with
  | EmptyString => true
  | String c t => p c && all_chars p t
  end.

Definition isdigit (s : string) : bool :=
  negb (Str.is_empty s) && all_chars isdigit_char s.

(** [Counter(words)]: the counts, in the order of first occurrence. *)
Fixpoint count_add (w : string) (counts : list (string * Z)) : list (string * Z) :=
  match counts with
  | [] => [(w, 1%Z)]
  | (x, n) :: tl =>
      if String.eqb x w then (x, (n + 1)%Z) :: tl else (x, n) :: count_add w tl
  end.

Definition counter (ws : list string) : list (string * Z) :=
  fold_left (fun counts w => count_add w counts) ws [].

(** [most_common(n)]: by decreasing count, equal counts in the order of
    first occurrence. *)
Fixpoint insert_by_count (e : string * Z) (sorted : list (string * Z))
    : list (string * Z) :=
  match sorted with
  | [] => [e]
  | x :: tl =>
      if (snd x <? snd e)%Z then e :: sorted else x :: insert_by_count e tl
  end.

Definition most_common (n : nat) (counts : list (string * Z)) : list (string * Z) :=
  take n (fold_left (fun sorted e => insert_by_count e sorted) counts []).

Section WithFloatLib.
Context `{FloatLib}.

Definition ratio (a b : Z) : float64 := f_div (f_of_int a) (f_of_int b).

(** [min(100, x)], [max(0, x)] and [round(x, n)] on a number. *)
Definition number_ltb (a b : PyNumber) : bool :=
  match a, b with
  | PInt x, PInt y => (x <? y)%Z
  | PInt x, PFloat y => f_ltb (f_of_int x) y
  | PFloat x, PInt y => f_ltb x (f_of_int y)
  | PFloat x, PFloat y => f_ltb x y
  end.

Definition py_min (a b : PyNumber) : PyNumber := if number_ltb b a then b else a.
Definition py_max (a b : PyNumber) : PyNumber := if number_ltb a b then b else a.

Definition py_round (x : PyNumber) (ndigits : Z) : PyNumber :=
  match x with
  | PInt z => PInt z
  | PFloat f => PFloat (f_round f ndigits)
  end.

Definition _calculate_flesch_kincaid
    (total_words total_sentences total_syllables : Z) : PyNumber :=
  if (total_words =? 0)%Z || (total_sentences =? 0)%Z then PInt 0
  else
    let score :=
      f_sub (f_sub (f_lit "206.835")
                   (f_mul (f_lit "1.015") (ratio total_words total_sentences)))
            (f_mul (f_lit "84.6") (ratio total_syllables total_words)) in
    py_round (py_max (PInt 0) (py_min (PInt 100) (PFloat score))) 1.

Definition _calculate_flesch_kincaid_grade
    (total_words total_sentences total_syllables : Z) : PyNumber :=
  if (total_words =? 0)%Z || (total_sentences =? 0)%Z then PInt 0
  else
    let grade :=
      f_sub (f_add (f_mul (f_lit "0.39") (ratio total_words total_sentences))
                   (f_mul (f_lit "11.8") (ratio total_syllables total_words)))
            (f_lit "15.59") in
    py_round (py_max (PInt 0) (PFloat grade)) 1.

Definition _calculate_gunning_fog
    (text : string) (total_words total_sentences : Z) : PyNumber :=
  if (total_words =? 0)%Z || (total_sentences =? 0)%Z then PInt 0
  else
    let complex_words := _count_complex_words text in
    let grade :=
      f_mul (f_lit "0.4")
            (f_add (ratio total_words total_sentences)
                   (f_mul (f_of_int 100) (ratio complex_words total_words))) in
    py_round (py_max (PInt 0) (PFloat grade)) 1.

Definition _extract_keywords (text : string) (top_n : nat) : list Keyword :=
  let words := findall_words (Str.lower text) in
  let filtered_words :=
    List.filter (fun w => negb (RobotsParser.in_list w stop_words)
                          && (2 <? String.length w)%nat
                          && negb (isdigit w)) words in
  let total_filtered_words := Z.of_nat (length filtered_words) in
  if (total_filtered_words =? 0)%Z then []
  else
    List.map (fun e : string * Z =>
                let density :=
                  f_mul (ratio (snd e) total_filtered_words) (f_of_int 100) in
                mk_keyword (fst e) (snd e) (PFloat (f_round density 2)))
             (most_common top_n (counter filtered_words)).

Definition _get_empty_result : Result :=
  mk_result 0 0 (PInt 0) (PInt 0) (PInt 0) 0 [] true.

Definition analyze_content (text : string) : Result :=
  if Str.is_empty text || Str.is_empty (Str.strip text)
  then _get_empty_result
  else
    let word_count := _count_words text in
    let sentence_count := _count_sentences text in
    let syllable_count := _count_syllables text in
    if (word_count =? 0)%Z || (sentence_count =? 0)%Z
    then _get_empty_result
    else
      let flesch_kincaid :=
        _calculate_flesch_kincaid word_count sentence_count syllable_count in
      let gunning_fog :=
        _calculate_gunning_fog text word_count sentence_count in
      let keywords := _extract_keywords text 20 in
      mk_result word_count sentence_count flesch_kincaid
        (_calculate_flesch_kincaid_grade word_count sentence_count
                                         syllable_count)
        gunning_fog
        (f_ceil (ratio word_count 200))
        keywords
        (word_count <? 300)%Z.

End WithFloatLib.

End ContentAnalyzer.

(* --------------------------------------------------------------------- *)
(** ** main.py: recover_crashed_crawls                                    *)
(* --------------------------------------------------------------------- *)

Module CrawlDb.

Record Crawl := mk {
  id : Z;
  base_url : string;
  status : string
}.

(** The table of persisted crawl jobs. *)
Abbreviation t := (list Crawl).

(** Modelled from the spec: [get_crashed_crawls] of [src/crawl_db.py],
    which is not among the sources.  It is the spec's
    [listCrashedJobs()]: the persisted jobs whose status is [running]
    at process start. *)
Definition get_crashed_crawls (db : t) : list Crawl :=
  List.filter (fun c => String.eqb (status c) "running") db.

(** Modelled from the spec: [set_crawl_status] of [src/crawl_db.py],
    which is not among the sources.  It is the spec's
    [setStatus(jobId, status)]: the job with that identity gets the
    status, every other job is left as it is. *)
Definition set_crawl_status (crawl_id : Z) (new_status : string) (db : t) : t :=
  List.map (fun c => if (id c =? crawl_id)%Z
                     then mk (id c) (base_url c) new_status else c) db.

(** What a call into the storage layer did: it returned a value, or it
    raised an exception whose text is [msg]. *)
Inductive Outcome (A : Type) :=
| Returned (a : A)
| Raised (msg : string).

Arguments Returned {A} a.
Arguments Raised {A} msg.

(** The storage layer as [main.py] calls it.  [query] is
    [get_crashed_crawls()], which reads the table (a failure of the
    import that precedes it counts as a raise of this call); [write] is
    [set_crawl_status(crawl_id, status)]: the table it leaves behind,
    and the success flag it returns or the exception it raises. *)
Record Storage := mk_storage {
  query : t -> Outcome (list Crawl);
  write : Z -> string -> t -> t * Outcome bool
}.

(** Modelled from the spec: the storage layer in which both calls do
    what the spec says of [listCrashedJobs()] and [setStatus(jobId,
    status)], and neither raises. *)
Definition reliable : Storage :=
  mk_storage
    (fun db => Returned (get_crashed_crawls db))
    (fun crawl_id new_status db =>
       (set_crawl_status crawl_id new_status db, Returned true)).

(** The query returns, with the jobs the spec says. *)
Definition answers (S : Storage) : Prop :=
  forall db, query S db = Returned (get_crashed_crawls db).

(** Every write returns, and has the effect the spec says. *)
Definition takes_effect (S : Storage) : Prop :=
  forall crawl_id new_status db,
    exists flag,
      write S crawl_id new_status db
      = (set_crawl_status crawl_id new_status db, Returned flag).

(** Whatever a write returns or raises, it leaves the table as the spec
    says or as it was. *)
Definition keeps_to_spec (S : Storage) : Prop :=
  forall crawl_id new_status db,
    fst (write S crawl_id new_status db) = set_crawl_status crawl_id new_status db
    \/ fst (write S crawl_id new_status db) = db.

End CrawlDb.

Module Main.

Definition rule60 : string :=
  "============================================================".

(** One turn of [for crawl in crashed]; the state is the table and the
    lines printed so far.  The second component is the text of the
    exception when [set_crawl_status] raised: the two lines of the turn
    are then not printed.  The flag that [set_crawl_status] returns is
    not looked at. *)
Definition recover_step (S : CrawlDb.Storage)
    (st : CrawlDb.t * list string) (crawl : CrawlDb.Crawl)
    : (CrawlDb.t * list string) * option string :=
  let '(db, outcome) := CrawlDb.write S (CrawlDb.id crawl) "failed" (fst st) in
  match outcome with
  | CrawlDb.Raised msg => ((db, snd st), Some msg)
  | CrawlDb.Returned _ =>
      ((db,
        snd st ++
          ["Found crashed crawl: " +:+ CrawlDb.base_url crawl
             +:+ " (ID: " +:+ pretty (CrawlDb.id crawl) +:+ ")";
           "  → Marked as failed. User can resume from dashboard."]),
       None)
  end.

(** [for crawl in crashed: ...]: an exception ends the loop. *)
Fixpoint recover_loop (S : CrawlDb.Storage) (crashed : list CrawlDb.Crawl)
    (st : CrawlDb.t * list string)
    : (CrawlDb.t * list string) * option string :=
  match crashed with
  | [] => (st, None)
  | crawl :: rest =>
      match recover_step S st crawl with
      | (st', Some msg) => (st', Some msg)
      | (st', None) => recover_loop S rest st'
      end
  end.

(** [recover_crashed_crawls()]: the table after the sweep and what was
    printed.  The whole body is inside [try: ... except Exception as e],
    so an exception raised by a storage call ends the sweep where it is
    and is reported by one printed line. *)
Definition recover_crashed_crawls (S : CrawlDb.Storage) (db : CrawlDb.t)
    : CrawlDb.t * list string :=
  match CrawlDb.query S db with
  | CrawlDb.Raised msg => (db, ["Error during crash recovery: " +:+ msg])
  | CrawlDb.Returned [] => (db, [])
  | CrawlDb.Returned ((_ :: _) as crashed) =>
      match recover_loop S crashed
              (db, [Re.NL +:+ rule60; "CRASH RECOVERY"; rule60]) with
      | (st, Some msg) =>
          (fst st, snd st ++ ["Error during crash recovery: " +:+ msg])
      | (st, None) => (fst st, snd st ++ [rule60 +:+ Re.NL])
      end
  end.

End Main.

(* --------------------------------------------------------------------- *)
(** ** The shape of a compiled robots pattern                             *)
(* --------------------------------------------------------------------- *)

(** What [_compile_pattern] produces, read off the path directly; Part II
    proves that the two agree. *)
Module PatternForm.
Import Re.

(** The text that one character of the path contributes after
    [re.escape] and the replacement of [\*], and after the replacement
    of [\$] as well. *)
Definition piece1 (c : ascii) : string :=
  if Ascii.eqb c "*" then ".*"
  else if is_special c then String "\" (String c EmptyString)
  else String c EmptyString.

Definition piece (c : ascii) : string :=
  if Ascii.eqb c "*" then ".*"
  else if Ascii.eqb c "$" then "$"
  else if is_special c then String "\" (String c EmptyString)
  else String c EmptyString.

Fixpoint body1 (p : string) : string :=
  match p with
  | EmptyString => EmptyString
  | String c t => piece1 c +:+ body1 t
  end.

Fixpoint body (p : string) : string :=
  match p with
  | EmptyString => EmptyString
  | String c t => piece c +:+ body t
  end.

Definition path_item (c : ascii) : item :=
  if Ascii.eqb c "*" then Star Dot
  else if Ascii.eqb c "$" then Eol
  else One (Lit c).

Fixpoint path_items (p : string) : list item :=
  match p with
  | EmptyString => []
  | String c t => path_item c :: path_items t
  end.

Definition open_ended (p : string) : bool :=
  negb (Str.endswith p "$") && negb (Str.endswith p "*").

Definition compiled (p : string) : list item :=
  Bol :: path_items p ++ (if open_ended p then [Star Dot] else []).

End PatternForm.

(* --------------------------------------------------------------------- *)
(** ** Predicates and sample inputs of the statements                     *)
(* --------------------------------------------------------------------- *)

Module BestMatch.

Definition len (d : RobotsDirective.t) : nat :=
  String.length (RobotsDirective.path d).

(** [d] is a directive of [ds] that matches [p], and no matching directive
    of [ds] has a longer pattern string. *)
Definition longest_match (ds : list RobotsDirective.t) (p : string)
    (d : RobotsDirective.t) : Prop :=
  In d ds /\ RobotsDirective.matches d p = true /\
  forall d', In d' ds -> RobotsDirective.matches d' p = true -> (len d' <= len d)%nat.

(** The state [(best_match, best_length)] of the loop of [is_allowed]
    once the directives [ds] have been visited. *)
Definition loop_state (ds : list RobotsDirective.t) (p : string)
    (st : option RobotsDirective.t * Z) : Prop :=
  match fst st with
  | None =>
      snd st = (-1)%Z /\
      forall d, In d ds -> RobotsDirective.matches d p = false
  | Some d => snd st = Z.of_nat (len d) /\ longest_match ds p d
  end.

End BestMatch.

Definition NL : string := Re.NL.

Definition private_robots_txt : string :=
  "User-agent: *" +:+ NL +:+
  "Disallow: /private/" +:+ NL +:+
  "Allow: /private/public.html".

(** The rule set [{Disallow: /private/, Allow: /private/public.html}],
    in the two orders of declaration. *)
Definition private_rules : UserAgentRules.t :=
  UserAgentRules.add_directive
    (UserAgentRules.add_directive (UserAgentRules.new "*") "/private/" false)
    "/private/public.html" true.

Definition private_rules_swapped : UserAgentRules.t :=
  UserAgentRules.add_directive
    (UserAgentRules.add_directive (UserAgentRules.new "*")
       "/private/public.html" true)
    "/private/" false.

Definition bare_disallow_txt : string :=
  "User-agent: *" +:+ NL +:+ "Disallow:".

(** A group [a] with a directive, then the consecutive lines
    [User-agent: a] and [User-agent: b], then a directive. *)
Definition redeclared_agent_txt : string :=
  "User-agent: a" +:+ NL +:+
  "Disallow: /x" +:+ NL +:+
  "User-agent: a" +:+ NL +:+
  "User-agent: b" +:+ NL +:+
  "Disallow: /y".

(** The same with an agent [c] that no earlier group names. *)
Definition fresh_agent_txt : string :=
  "User-agent: a" +:+ NL +:+
  "Disallow: /x" +:+ NL +:+
  "User-agent: c" +:+ NL +:+
  "User-agent: b" +:+ NL +:+
  "Disallow: /y".

Definition blocked_paths_of (content agent : string) : option (list string) :=
  UserAgentRules.get_blocked_paths <$>
    RobotsParser.user_agent_rules
      (RobotsParser.parse (RobotsParser.new 10) content) !! agent.

Definition request_rate_no_slash_txt : string :=
  "User-agent: *" +:+ NL +:+ "Request-rate: 10".

Definition request_rate_bad_count_txt : string :=
  "User-agent: *" +:+ NL +:+ "Request-rate: x/5".

Definition crawl_delay_bad_txt : string :=
  "User-agent: *" +:+ NL +:+ "Crawl-delay: fast".

(** The exclusion rule in the words of the specification: a pattern with
    a [*] excludes a path that it glob-matches, a pattern without one
    excludes a path that equals it or starts with it. *)
Definition pattern_excludes (path pattern : string) : bool :=
  if Str.contains "*" pattern then Fnmatch.fnmatch path pattern
  else String.eqb path pattern || Str.startswith path pattern.

(** The translation of a pattern without [*], [?] or [[]. *)
Fixpoint literal_items (s : string) : list Fnmatch.gitem :=
  match s with
  | EmptyString => []
  | String c t => Fnmatch.GLit c :: literal_items t
  end.

(** The path component of the URL of an issue. *)
Definition issue_path `{UrlLib} (issue : IssueFilters.Issue) : string :=
  Url.path (urlparse (IssueFilters.issue_url issue)).

(** The text before the first [sep] and the text after it. *)
Definition cut (sep : ascii) (s : string) : string * string :=
  match Str.split1 sep s with
  | Some (a, b) => (a, b)
  | None => (s, EmptyString)
  end.

(** An instance of [UrlLib] for closed examples: on a URL of the shape
    [scheme://netloc/path?query#fragment], without [;] parameters, it
    gives the components that [urlparse] gives. *)
Definition sample_urlparse (u : string) : Url.ParseResult :=
  let '(u, fragment) := cut "#" u in
  let '(u, query) := cut "?" u in
  match Str.split1 ":" u with
  | Some (scheme, String "/" (String "/" rest)) =>
      let netloc := fst (cut "/" rest) in
      Url.mk scheme netloc
             (if Str.contains "/" rest then "/" +:+ snd (cut "/" rest) else "")
             "" query fragment
  | _ => Url.mk "" "" u "" query fragment
  end.

Definition json_issue : IssueFilters.Issue :=
  {[ "url" := "https://example.com/data/feed.json?page=2";
     "type" := "missing_title" ]}.

Definition html_issue : IssueFilters.Issue :=
  {[ "url" := "https://example.com/docs/index.html";
     "type" := "missing_title" ]}.

Definition admin_issue : IssueFilters.Issue :=
  {[ "url" := "https://example.com/admin/users?id=3";
     "type" := "thin_content" ]}.

(** An instance of [FloatLib] for closed examples (integer arithmetic in
    place of binary64); the statements hold for every instance. *)
Definition sample_floats : FloatLib := {|
  float64 := Z;
  f_lit := fun _ => 0%Z;
  f_of_int := fun z => z;
  f_add := Z.add;
  f_sub := Z.sub;
  f_mul := Z.mul;
  f_div := Z.div;
  f_ltb := Z.ltb;
  f_round := fun x _ => x;
  f_ceil := fun x => x
|}.

(** A manager with one override, and its table of raw texts. *)
Definition sample_manager : CustomRobotsManager.t :=
  CustomRobotsManager.add_subdomain CustomRobotsManager.new
    "shop.example.com" private_robots_txt.

(** A table with a job left in [running] among finished ones. *)
Definition sample_db : CrawlDb.t :=
  [CrawlDb.mk 1 "https://a.example" "completed";
   CrawlDb.mk 2 "https://b.example" "running";
   CrawlDb.mk 3 "https://c.example" "paused"].

(** A table with two jobs left in [running]. *)
Definition two_crashed_db : CrawlDb.t :=
  [CrawlDb.mk 1 "https://a.example" "completed";
   CrawlDb.mk 2 "https://b.example" "running";
   CrawlDb.mk 3 "https://c.example" "paused";
   CrawlDb.mk 4 "https://d.example" "running"].

(** A storage layer that does what the spec says, except that a write
    for the job [bad] raises and leaves the table as it was. *)
Definition storage_failing_on (bad : Z) : CrawlDb.Storage :=
  CrawlDb.mk_storage
    (fun db => CrawlDb.Returned (CrawlDb.get_crashed_crawls db))
    (fun crawl_id new_status db =>
       if (crawl_id =? bad)%Z then (db, CrawlDb.Raised "database is locked")
       else (CrawlDb.set_crawl_status crawl_id new_status db,
             CrawlDb.Returned true)).

(** What the sweep makes of one job, given the identities of the crashed
    ones. *)
Definition swept (crashed_ids : list Z) (c : CrawlDb.Crawl) : CrawlDb.Crawl :=
  if existsb (Z.eqb (CrawlDb.id c)) crashed_ids
  then CrawlDb.mk (CrawlDb.id c) (CrawlDb.base_url c) "failed"
  else c.

(* --------------------------------------------------------------------- *)
(** ** Further predicates on robots patterns                              *)
(* --------------------------------------------------------------------- *)

Module PatternKinds.

(** A path without the two characters that robots patterns treat
    specially. *)
Definition plain (path : string) : bool :=
  negb (Str.contains "*" path) && negb (Str.contains "$" path).

(** [d] is the first of the directives of [ds] that match [p] with a
    pattern string of maximal length: the matching directives declared
    before it are shorter, those declared after it are not longer. *)
Definition first_longest_match (ds : list RobotsDirective.t) (p : string)
    (d : RobotsDirective.t) : Prop :=
  exists before after,
    ds = before ++ d :: after
    /\ RobotsDirective.matches d p = true
    /\ (forall d', In d' before -> RobotsDirective.matches d' p = true ->
                   (BestMatch.len d' < BestMatch.len d)%nat)
    /\ (forall d', In d' after -> RobotsDirective.matches d' p = true ->
                   (BestMatch.len d' <= BestMatch.len d)%nat).

(** The loop state of [is_allowed] after [ds], with the position of the
    best match. *)
Definition ordered_state (ds : list RobotsDirective.t) (p : string)
    (st : option RobotsDirective.t * Z) : Prop :=
  match fst st with
  | None =>
      snd st = (-1)%Z /\
      forall d, In d ds -> RobotsDirective.matches d p = false
  | Some d => snd st = Z.of_nat (BestMatch.len d) /\ first_longest_match ds p d
  end.

End PatternKinds.

(* --------------------------------------------------------------------- *)
(** ** robots_parser.py: test_path and RobotsBlockedTracker               *)
(* --------------------------------------------------------------------- *)

Module RobotsTest.

(** The dictionary that [test_path] returns. *)
Record Result := mk {
  path : string;
  allowed : bool;
  user_agent : string;
  matched_rule : option string;
  reason : string
}.

(** [RobotsDirective.__repr__], which [str()] and the f-string use. *)
Definition __repr__ (d : RobotsDirective.t) : string :=
  (if RobotsDirective.allow d then "Allow" else "Disallow")
  +:+ ": " +:+ RobotsDirective.path d.

(** [if not path.startswith('/'): path = '/' + path] *)
Definition rooted (path : string) : string :=
  if Str.startswith path "/" then path else "/" +:+ path.

(** [RobotsParser.test_path(path, user_agent)]; its loop is the loop of
    [UserAgentRules.is_allowed]. *)
Definition test_path (p : RobotsParser.t) (path user_agent : string) : Result :=
  let path := rooted path in
  match RobotsParser.get_rules_for_user_agent p user_agent with
  | None =>
      mk path true user_agent None "No rules defined for this user agent"
  | Some rules =>
      match UserAgentRules.best_match (UserAgentRules.directives rules) path with
      | None => mk path true user_agent None "No matching rules found"
      | Some best_match =>
          mk path (RobotsDirective.allow best_match) user_agent
             (Some (__repr__ best_match))
             ("Matched by rule: " +:+ __repr__ best_match)
      end
  end.

(** [CustomRobotsManager.test_path(subdomain, path, user_agent)] *)
Definition manager_test_path (m : CustomRobotsManager.t)
    (subdomain path user_agent : string) : Result :=
  match CustomRobotsManager.parsers m !! subdomain with
  | None =>
      mk path true user_agent None "No custom robots.txt for this subdomain"
  | Some p => test_path p path user_agent
  end.

End RobotsTest.

Module RobotsBlockedTracker.

Record Entry := mk_entry {
  url : string;
  reason : string;
  is_internal : bool
}.

Record t := mk {
  blocked_internal : list Entry;
  blocked_external : list Entry
}.

(** [RobotsBlockedTracker()] *)
Definition new : t := mk [] [].

Definition add_blocked (tr : t) (url reason : string) (is_internal : bool) : t :=
  let entry := mk_entry url reason is_internal in
  if is_internal
  then mk (blocked_internal tr ++ [entry]) (blocked_external tr)
  else mk (blocked_internal tr) (blocked_external tr ++ [entry]).

Definition get_blocked_internal (tr : t) : list Entry := blocked_internal tr.
Definition get_blocked_external (tr : t) : list Entry := blocked_external tr.

(** The dictionary of [get_blocked_count()]. *)
Record Count := mk_count { internal : nat; external : nat; total : nat }.

Definition get_blocked_count (tr : t) : Count :=
  mk_count (length (blocked_internal tr)) (length (blocked_external tr))
           (length (blocked_internal tr) + length (blocked_external tr)).

Definition clear (tr : t) : t := mk [] [].

(** A run of [add_blocked] calls, each given by its three arguments. *)
Definition add_all (tr : t) (calls : list Entry) : t :=
  fold_left (fun tr e => add_blocked tr (url e) (reason e) (is_internal e))
            calls tr.

End RobotsBlockedTracker.

(** A rule set is well formed when it is filed under its own user agent
    and every directive in it is what [RobotsDirective(path, allow)]
    builds. *)
Definition good_rules (ua : string) (r : UserAgentRules.t) : Prop :=
  UserAgentRules.user_agent r = ua
  /\ forall d, In d (UserAgentRules.directives r) ->
       d = RobotsDirective.new (RobotsDirective.path d) (RobotsDirective.allow d).

Definition good_table (rules : gmap string UserAgentRules.t) : Prop :=
  forall ua r, rules !! ua = Some r -> good_rules ua r.

(** What [parse] keeps true of the parser and of the open group: no
    sitemap is listed twice or is empty, every rule set is well formed,
    and the agents of the open group have rule sets. *)
Definition parser_invariant (st : RobotsParser.t * list string) : Prop :=
  NoDup (RobotsParser.sitemaps (fst st))
  /\ ~ In "" (RobotsParser.sitemaps (fst st))
  /\ good_table (RobotsParser.user_agent_rules (fst st))
  /\ (forall ua, In ua (snd st) ->
        is_Some (RobotsParser.user_agent_rules (fst st) !! ua)).

(** The fields of the parser that [parse] does not touch after it has
    reset the others. *)
Definition same_frame (p q : RobotsParser.t) : Prop :=
  RobotsParser.timeout p = RobotsParser.timeout q
  /\ RobotsParser.raw_content p = RobotsParser.raw_content q
  /\ RobotsParser.url p = RobotsParser.url q
  /\ RobotsParser.last_fetched p = RobotsParser.last_fetched q.

(** The parser [p] with the timeout, raw content, URL and fetch time of
    [f]. *)
Definition reframe (f p : RobotsParser.t) : RobotsParser.t :=
  RobotsParser.mk (RobotsParser.timeout f) (RobotsParser.user_agent_rules p)
    (RobotsParser.sitemaps p) (RobotsParser.raw_content f)
    (RobotsParser.parse_errors p) (RobotsParser.url f)
    (RobotsParser.last_fetched f).

(* --------------------------------------------------------------------- *)
(** ** Measures on word lists                                             *)
(* --------------------------------------------------------------------- *)

Module WordCounts.

(** How often [w] occurs in [ws]. *)
Definition occurrences (w : string) (ws : list string) : Z :=
  Z.of_nat (length (List.filter (String.eqb w) ws)).

(** The count filed under [w] in a table of counts, 0 when there is
    none. *)
Fixpoint count_of (w : string) (counts : list (string * Z)) : Z :=
  match counts with
  | [] => 0%Z
  | (x, n) :: tl => if String.eqb x w then n else count_of w tl
  end.

(** The test that [_extract_keywords] applies to a word. *)
Definition is_keyword_candidate (w : string) : bool :=
  negb (RobotsParser.in_list w ContentAnalyzer.stop_words)
  && (2 <? String.length w)%nat
  && negb (ContentAnalyzer.isdigit w).

(** The words of the text that pass the test. *)
Definition candidates (text : string) : list string :=
  List.filter is_keyword_candidate
    (ContentAnalyzer.findall_words (Str.lower text)).

(** Counts that do not increase along the list. *)
Definition by_decreasing_count (l : list (string * Z)) : Prop :=
  StronglySorted (fun a b => (snd b <= snd a)%Z) l.

(** The characters a sentence separator is made of. *)
Definition sep_char (c : ascii) : bool :=
  ContentAnalyzer.is_terminator c || Str.isspace c.

End WordCounts.

(* --------------------------------------------------------------------- *)
(** ** Shapes of exclusion patterns                                       *)
(* --------------------------------------------------------------------- *)

Module GlobKinds.

(** A text without the characters that [fnmatch] reads as wildcards. *)
Definition glob_free (s : string) : bool :=
  negb (Str.contains "*" s) && negb (Str.contains "?" s)
  && negb (Str.contains "[" s).

End GlobKinds.


(* --------------------------------------------------------------------- *)
(** ** core/crawler_defaults.py: parse_issue_exclusion_patterns           *)
(* --------------------------------------------------------------------- *)

Module CrawlerDefaults.

(** The line boundaries of [str.splitlines] on the code points below
    256: LF, VT, FF, CR, FS, GS, RS and NEL. *)
Definition is_line_break (c : ascii) : bool :=
  Str.between 10 13 c || Str.between 28 30 c || (Str.code c =? 133)%N.

(** [s.splitlines()]: the lines without their boundaries; CR LF is one
    boundary, and a boundary at the end of the text opens no line.
    [skip_lf] holds after a CR.  The head of the result is the line that
    is being read. *)
Fixpoint splitlines_from (skip_lf : bool) (s : string) : list string :=
  match s with
  | EmptyString => []
  | String c t =>
      if skip_lf && Ascii.eqb c Re.LF then splitlines_from false t
      else if is_line_break c
      then EmptyString :: splitlines_from (Ascii.eqb c (ascii_of_N 13)) t
      else match splitlines_from false t with
           | h :: tl => String c h :: tl
           | [] => [String c EmptyString]
           end
  end.

Definition splitlines (s : string) : list string := splitlines_from false s.

Definition parse_issue_exclusion_patterns (text : string) : list string :=
  List.map Str.strip
    (List.filter
       (fun line => negb (Str.is_empty (Str.strip line))
                    && negb (Str.startswith (Str.strip line) "#"))
       (splitlines text)).

End CrawlerDefaults.


(* --------------------------------------------------------------------- *)
(** ** Rule groups written out as robots.txt text                         *)
(* --------------------------------------------------------------------- *)

Module RobotsText.

(** A value that a line carries unchanged: no line feed, no [#], and no
    white space at its ends. *)
Definition clean (s : string) : bool :=
  negb (Str.contains Re.LF s) && negb (Str.contains "#" s)
  && String.eqb (Str.strip s) s.

(** A group: its user agent and its directives, each an [allow] flag and
    a path. *)
Abbreviation Group := (string * list (bool * string))%type.

Definition directive_line (d : bool * string) : string :=
  (if fst d then "Allow: " else "Disallow: ") +:+ snd d.

Definition group_lines (g : Group) : list string :=
  ("User-agent: " +:+ fst g) :: List.map directive_line (snd g).

(** ['\n'.join(lines)] *)
Fixpoint join_lines (lines : list string) : string :=
  match lines with
  | [] => EmptyString
  | l :: rest =>
      match rest with
      | [] => l
      | _ :: _ => l +:+ String Re.LF (join_lines rest)
      end
  end.

Definition render (groups : list Group) : string :=
  join_lines (concat (List.map group_lines groups)).

(** The rule set that the group describes. *)
Definition group_rules (g : Group) : UserAgentRules.t :=
  UserAgentRules.mk (fst g)
    (List.map (fun d => RobotsDirective.new (snd d) (fst d)) (snd g))
    None None [].

Fixpoint distinct (l : list string) : bool :=
  match l with
  | [] => true
  | x :: rest => negb (RobotsParser.in_list x rest) && distinct rest
  end.

(** Groups with different user agents, at least one directive each, and
    clean values. *)
Definition renderable (groups : list Group) : bool :=
  distinct (List.map fst groups)
  && forallb (fun g : Group =>
                clean (fst g)
                && negb (match snd g with [] => true | _ :: _ => false end)
                && forallb (fun d : bool * string => clean (snd d)) (snd g))
             groups.

(** The three keywords that the rendering writes. *)
Definition keyword (kw : string) : Prop :=
  kw = "User-agent" \/ kw = "Disallow" \/ kw = "Allow".

(** The text after the colon, as [strip] leaves the line. *)
Definition after_colon (v : string) : string :=
  if Str.is_empty v then EmptyString else String " " v.

(** The state in which a new group starts: no agent is current, or the
    first current agent has directives. *)
Definition group_closed (rules : gmap string UserAgentRules.t)
    (cur : list string) : Prop :=
  cur = [] \/ RobotsParser.previous_block_had_directives rules cur = true.

End RobotsText.


(* --------------------------------------------------------------------- *)
(** ** One group shared by several user agents                            *)
(* --------------------------------------------------------------------- *)

Module SharedGroup.

Definition agent_line (ua : string) : string := "User-agent: " +:+ ua.

(** The lines of a group: one line per user agent, then one line per
    directive. *)
Definition shared_lines (agents : list string) (ds : list (bool * string))
    : list string :=
  List.map agent_line agents ++ List.map RobotsText.directive_line ds.

Definition render (agents : list string) (ds : list (bool * string)) : string :=
  RobotsText.join_lines (shared_lines agents ds).

(** At least one user agent, different user agents, clean values. *)
Definition shareable (agents : list string) (ds : list (bool * string)) : bool :=
  negb (match agents with [] => true | _ :: _ => false end)
  && RobotsText.distinct agents
  && forallb RobotsText.clean agents
  && forallb (fun d : bool * string => RobotsText.clean (snd d)) ds.

End SharedGroup.


(* ===================================================================== *)
(** * Part II.  Properties                                                *)
(* ===================================================================== *)

(* --------------------------------------------------------------------- *)
(** ** Every robots path compiles                                         *)
(* --------------------------------------------------------------------- *)

Module PatternFacts.
Import Re RobotsDirective PatternForm.

Lemma special_facts c :
  is_special c = true -> is_word c = false.
Proof.
  destruct c as [[] [] [] [] [] [] [] []]; vm_compute; congruence.
Qed.

Lemma nonspecial_facts c :
  is_special c = false ->
  is_meta c = false /\ is_quantifier c = false /\
  Ascii.eqb c "\" = false /\ Ascii.eqb c "." = false /\
  Ascii.eqb c "*" = false /\ Ascii.eqb c "$" = false /\ Ascii.eqb c "^" = false.
Proof.
  destruct c as [[] [] [] [] [] [] [] []]; vm_compute; intuition congruence.
Qed.

Lemma star_special c : Ascii.eqb c "*" = true -> is_special c = true.
Proof. intros H%Ascii.eqb_eq. subst. reflexivity. Qed.

Lemma dollar_special c : Ascii.eqb c "$" = true -> is_special c = true.
Proof. intros H%Ascii.eqb_eq. subst. reflexivity. Qed.

Lemma replace_from_0 old new c t :
  Str.replace_from old new 0 (String c t) =
  if Str.startswith (String c t) old
  then new +:+ Str.replace_from old new (String.length old - 1) t
  else String c (Str.replace_from old new 0 t).
Proof. reflexivity. Qed.

Lemma replace_from_S old new k c t :
  Str.replace_from old new (S k) (String c t) = Str.replace_from old new k t.
Proof. reflexivity. Qed.

(** The head of an escaped text is a backslash or an ordinary
    character. *)
Lemma escape_head t x :
  is_special x = true -> Ascii.eqb x "\" = false ->
  Str.startswith (escape t) (String x EmptyString) = false.
Proof.
  intros Hx Hb. destruct t as [|c t]; [reflexivity|].
  simpl escape. destruct (is_special c) eqn:Hc.
  - change (Ascii.eqb "\" x && true = false).
    rewrite Ascii.eqb_sym, Hb. reflexivity.
  - change (Ascii.eqb c x && true = false).
    destruct (Ascii.eqb_spec c x); [congruence|reflexivity].
Qed.

Lemma replace_star p :
  Str.replace "\*" ".*" (escape p) = body1 p.
Proof.
  unfold Str.replace. induction p as [|c t IH]; [reflexivity|].
  simpl escape. unfold body1; fold body1. unfold piece1.
  destruct (is_special c) eqn:Hs.
  - rewrite replace_from_0.
    change (Str.startswith (String "\" (String c (escape t))) "\*")
      with (Ascii.eqb c "*" && true).
    destruct (Ascii.eqb c "*") eqn:Hc.
    + simpl andb. cbv iota. change (String.length "\*" - 1) with 1.
      rewrite replace_from_S, IH. reflexivity.
    + simpl andb. cbv iota. rewrite replace_from_0.
      change (Str.startswith (String c (escape t)) "\*")
        with (Ascii.eqb c "\" && Str.startswith (escape t) "*").
      rewrite (escape_head t "*") by reflexivity.
      rewrite andb_false_r, IH. reflexivity.
  - destruct (nonspecial_facts c Hs) as (_ & _ & Hb & _ & Hst & _).
    rewrite Hst, replace_from_0.
    change (Str.startswith (String c (escape t)) "\*")
      with (Ascii.eqb c "\" && Str.startswith (escape t) "*").
    rewrite Hb. simpl andb. cbv iota. rewrite IH. reflexivity.
Qed.

Lemma body1_head t x :
  is_special x = true -> Ascii.eqb x "\" = false -> Ascii.eqb x "." = false ->
  Str.startswith (body1 t) (String x EmptyString) = false.
Proof.
  intros Hx Hb Hd. destruct t as [|c t]; [reflexivity|].
  unfold body1; fold body1. unfold piece1.
  destruct (Ascii.eqb c "*").
  { change (Ascii.eqb "." x && true = false).
    rewrite Ascii.eqb_sym, Hd. reflexivity. }
  destruct (is_special c) eqn:Hc.
  - change (Ascii.eqb "\" x && true = false).
    rewrite Ascii.eqb_sym, Hb. reflexivity.
  - change (Ascii.eqb c x && true = false).
    destruct (Ascii.eqb_spec c x); [congruence|reflexivity].
Qed.

Lemma replace_dollar p :
  Str.replace "\$" "$" (body1 p) = body p.
Proof.
  unfold Str.replace. induction p as [|c t IH]; [reflexivity|].
  unfold body1, body; fold body1; fold body. unfold piece1, piece.
  destruct (Ascii.eqb c "*") eqn:Hst.
  { change (".*" +:+ body1 t) with (String "." (String "*" (body1 t))).
    rewrite replace_from_0. simpl Str.startswith. cbv iota.
    rewrite replace_from_0. simpl Str.startswith. cbv iota.
    rewrite IH. reflexivity. }
  destruct (is_special c) eqn:Hs.
  - change (String "\" (String c "") +:+ body1 t)
      with (String "\" (String c (body1 t))).
    rewrite replace_from_0.
    change (Str.startswith (String "\" (String c (body1 t))) "\$")
      with (Ascii.eqb c "$" && true).
    destruct (Ascii.eqb c "$") eqn:Hc.
    + simpl andb. cbv iota. change (String.length "\$" - 1) with 1.
      rewrite replace_from_S, IH. reflexivity.
    + simpl andb. cbv iota. rewrite replace_from_0.
      change (Str.startswith (String c (body1 t)) "\$")
        with (Ascii.eqb c "\" && Str.startswith (body1 t) "$").
      rewrite (body1_head t "$") by reflexivity.
      rewrite andb_false_r, IH. reflexivity.
  - destruct (nonspecial_facts c Hs) as (_ & _ & Hb & _ & _ & Hd & _).
    rewrite Hd.
    change (String c "" +:+ body1 t) with (String c (body1 t)).
    rewrite replace_from_0.
    change (Str.startswith (String c (body1 t)) "\$")
      with (Ascii.eqb c "\" && Str.startswith (body1 t) "$").
    rewrite Hb. simpl andb. cbv iota. rewrite IH. reflexivity.
Qed.

Lemma endswith_cons c t p :
  Str.endswith (String c t) p = String.eqb (String c t) p || Str.endswith t p.
Proof. reflexivity. Qed.

Lemma eqb_empty_r t : String.eqb t "" = Str.is_empty t.
Proof. destruct t; reflexivity. Qed.

Lemma eqb_cons c t d r :
  String.eqb (String c t) (String d r) = Ascii.eqb c d && String.eqb t r.
Proof. simpl. destruct (Ascii.eqb c d); reflexivity. Qed.

Lemma body_is_empty t : Str.is_empty (body t) = Str.is_empty t.
Proof.
  destruct t as [|c t]; [reflexivity|].
  unfold body; fold body. unfold piece.
  destruct (Ascii.eqb c "*"); [reflexivity|].
  destruct (Ascii.eqb c "$"); [reflexivity|].
  destruct (is_special c); reflexivity.
Qed.

(** The head of a pattern text is [.], [\], [$] or an ordinary
    character. *)
Lemma body_head t x :
  is_special x = true -> Ascii.eqb x "\" = false -> Ascii.eqb x "." = false ->
  Ascii.eqb x "$" = false ->
  Str.startswith (body t) (String x EmptyString) = false.
Proof.
  intros Hx Hb Hd Hdol. destruct t as [|c t]; [reflexivity|].
  unfold body; fold body. unfold piece.
  destruct (Ascii.eqb c "*").
  { change (Ascii.eqb "." x && true = false).
    rewrite Ascii.eqb_sym, Hd. reflexivity. }
  destruct (Ascii.eqb c "$").
  { change (Ascii.eqb "$" x && true = false).
    rewrite Ascii.eqb_sym, Hdol. reflexivity. }
  destruct (is_special c) eqn:Hc.
  - change (Ascii.eqb "\" x && true = false).
    rewrite Ascii.eqb_sym, Hb. reflexivity.
  - change (Ascii.eqb c x && true = false).
    destruct (Ascii.eqb_spec c x); [congruence|reflexivity].
Qed.

Lemma startswith_eqb1 s x :
  Str.startswith s (String x EmptyString) = false ->
  String.eqb s (String x EmptyString) = false.
Proof.
  destruct s as [|c s]; [reflexivity|].
  rewrite eqb_cons. intros H.
  change (Ascii.eqb c x && true = false) in H.
  rewrite andb_true_r in H. rewrite H. reflexivity.
Qed.

Lemma body_endswith_dollar p :
  Str.endswith (body p) "$" = Str.endswith p "$".
Proof.
  induction p as [|c t IH]; [reflexivity|].
  unfold body; fold body. unfold piece.
  rewrite (endswith_cons c t), eqb_cons, eqb_empty_r.
  destruct (Ascii.eqb c "*") eqn:Hst.
  { apply Ascii.eqb_eq in Hst. subst c.
    change (".*" +:+ body t) with (String "." (String "*" (body t))).
    rewrite !endswith_cons, !eqb_cons, IH. reflexivity. }
  destruct (Ascii.eqb c "$") eqn:Hd.
  { change ("$" +:+ body t) with (String "$" (body t)).
    rewrite endswith_cons, eqb_cons, eqb_empty_r, body_is_empty, IH.
    reflexivity. }
  destruct (is_special c) eqn:Hs.
  - change (String "\" (String c "") +:+ body t)
      with (String "\" (String c (body t))).
    rewrite !endswith_cons, !eqb_cons, Hd, IH. reflexivity.
  - change (String c "" +:+ body t) with (String c (body t)).
    rewrite endswith_cons, eqb_cons, Hd, IH. reflexivity.
Qed.

Lemma body_endswith_star p :
  Str.endswith (body p) ".*" = Str.endswith p "*".
Proof.
  induction p as [|c t IH]; [reflexivity|].
  unfold body; fold body. unfold piece.
  rewrite (endswith_cons c t), eqb_cons, eqb_empty_r.
  destruct (Ascii.eqb c "*") eqn:Hst.
  { change (".*" +:+ body t) with (String "." (String "*" (body t))).
    rewrite !endswith_cons, !eqb_cons, eqb_empty_r, body_is_empty, IH.
    reflexivity. }
  destruct (Ascii.eqb c "$") eqn:Hd.
  { change ("$" +:+ body t) with (String "$" (body t)).
    rewrite endswith_cons, eqb_cons, IH. reflexivity. }
  destruct (is_special c) eqn:Hs.
  - change (String "\" (String c "") +:+ body t)
      with (String "\" (String c (body t))).
    rewrite !endswith_cons, !eqb_cons, IH.
    rewrite (startswith_eqb1 (body t) "*") by (apply body_head; reflexivity).
    rewrite andb_false_r. reflexivity.
  - destruct (nonspecial_facts c Hs) as (_ & _ & _ & Hdot & _).
    change (String c "" +:+ body t) with (String c (body t)).
    rewrite endswith_cons, eqb_cons, Hdot, IH. reflexivity.
Qed.

Lemma not_quantifier_not_star q : is_quantifier q = false -> Ascii.eqb q "*" = false.
Proof.
  destruct (Ascii.eqb_spec q "*") as [->|]; [discriminate|reflexivity].
Qed.

Lemma compile_dotstar rest r :
  compile rest = Some r -> starts_quantifier rest = false ->
  compile (String "." (String "*" rest)) = Some (Star Dot :: r).
Proof.
  intros Hr Hq.
  change (compile (String "." (String "*" rest)))
    with (if starts_quantifier rest then None
          else cons (Star Dot) <$> compile rest).
  rewrite Hq, Hr. reflexivity.
Qed.

Lemma compile_dollar rest r :
  compile rest = Some r -> starts_quantifier rest = false ->
  compile (String "$" rest) = Some (Eol :: r).
Proof.
  intros Hr Hq.
  change (compile (String "$" rest))
    with (if starts_quantifier rest then None else cons Eol <$> compile rest).
  rewrite Hq, Hr. reflexivity.
Qed.

Lemma compile_caret rest r :
  compile rest = Some r -> starts_quantifier rest = false ->
  compile (String "^" rest) = Some (Bol :: r).
Proof.
  intros Hr Hq.
  change (compile (String "^" rest))
    with (if starts_quantifier rest then None else cons Bol <$> compile rest).
  rewrite Hq, Hr. reflexivity.
Qed.

Lemma compile_escaped c rest r :
  is_special c = true ->
  compile rest = Some r -> starts_quantifier rest = false ->
  compile (String "\" (String c rest)) = Some (One (Lit c) :: r).
Proof.
  intros Hc Hr Hq.
  change (compile (String "\" (String c rest)))
    with (if is_word c then None
          else match rest with
               | EmptyString => Some [One (Lit c)]
               | String q v =>
                   if Ascii.eqb q "*" then
                     if starts_quantifier v then None
                     else cons (Star (Lit c)) <$> compile v
                   else if is_quantifier q then None
                   else cons (One (Lit c)) <$> compile rest
               end).
  rewrite (special_facts c Hc).
  destruct rest as [|q v].
  - simpl in Hr. congruence.
  - simpl in Hq. rewrite (not_quantifier_not_star q Hq), Hq, Hr. reflexivity.
Qed.

Lemma compile_plain c rest r :
  is_special c = false ->
  compile rest = Some r -> starts_quantifier rest = false ->
  compile (String c rest) = Some (One (Lit c) :: r).
Proof.
  intros Hc Hr Hq.
  destruct (nonspecial_facts c Hc) as (Hm & _ & Hb & Hdot & _ & Hdol & Hcar).
  cbn [compile]. rewrite Hcar, Hdol, Hb, Hdot, Hm.
  destruct rest as [|q v].
  - simpl in Hr. congruence.
  - simpl in Hq. rewrite (not_quantifier_not_star q Hq), Hq, Hr. reflexivity.
Qed.

Lemma body_starts_quantifier t sfx :
  starts_quantifier sfx = false -> starts_quantifier (body t +:+ sfx) = false.
Proof.
  intros Hq. destruct t as [|c t]; [exact Hq|].
  unfold body; fold body. unfold piece.
  destruct (Ascii.eqb c "*"); [reflexivity|].
  destruct (Ascii.eqb c "$"); [reflexivity|].
  destruct (is_special c) eqn:Hc; [reflexivity|].
  destruct (nonspecial_facts c Hc) as (_ & Hnq & _). exact Hnq.
Qed.

Lemma compile_body p sfx r :
  compile sfx = Some r -> starts_quantifier sfx = false ->
  compile (body p +:+ sfx) = Some (path_items p ++ r).
Proof.
  intros Hr Hq. induction p as [|c t IH]; [exact Hr|].
  pose proof (body_starts_quantifier t sfx Hq) as Hrest.
  unfold body, path_items; fold body; fold path_items.
  unfold piece, path_item.
  destruct (Ascii.eqb c "*") eqn:Hst.
  { change ((".*" +:+ body t) +:+ sfx)
      with (String "." (String "*" (body t +:+ sfx))).
    apply compile_dotstar; assumption. }
  destruct (Ascii.eqb c "$") eqn:Hd.
  { change (("$" +:+ body t) +:+ sfx) with (String "$" (body t +:+ sfx)).
    apply compile_dollar; assumption. }
  destruct (is_special c) eqn:Hs.
  - change ((String "\" (String c "") +:+ body t) +:+ sfx)
      with (String "\" (String c (body t +:+ sfx))).
    apply compile_escaped; assumption.
  - change ((String c "" +:+ body t) +:+ sfx) with (String c (body t +:+ sfx)).
    apply compile_plain; assumption.
Qed.

Lemma append_empty_r s : s +:+ "" = s.
Proof. 
  induction s as [|c s IH]; [reflexivity|].
  change (String c (s +:+ "") = String c s). f_equal. exact IH.
Qed.

Lemma _compile_pattern_total p : _compile_pattern p = Some (compiled p).
Proof.
  unfold _compile_pattern, _pattern_source, compiled, open_ended.
  rewrite replace_star, replace_dollar.
  rewrite body_endswith_dollar, body_endswith_star.
  change ("^" +:+ ?s) with (String "^" s).
  destruct (negb (Str.endswith p "$") && negb (Str.endswith p "*")).
  - apply compile_caret.
    + apply compile_body; reflexivity.
    + apply body_starts_quantifier. reflexivity.
  - rewrite <- (append_empty_r (body p)).
    apply compile_caret.
    + apply compile_body; reflexivity.
    + apply body_starts_quantifier. reflexivity.
Qed.

End PatternFacts.

(* --------------------------------------------------------------------- *)
(** ** UserAgentRules.is_allowed: the longest matching pattern wins       *)
(* --------------------------------------------------------------------- *)

Module BestMatchFacts.
Import UserAgentRules BestMatch.

Lemma loop_state_step ds p st d :
  loop_state ds p st -> loop_state (ds ++ [d]) p (best_step p st d).
Proof.
  unfold loop_state, best_step. destruct st as [[b|] n]; simpl fst; simpl snd.
  - intros [-> (Hin & Hm & Hmax)].
    destruct (RobotsDirective.matches d p) eqn:Hd.
    + fold (len d). destruct (Z.gtb_spec (Z.of_nat (len d)) (Z.of_nat (len b))) as [Hgt|Hle];
        simpl fst; simpl snd.
      * split; [reflexivity|]. split; [apply in_or_app; right; left; reflexivity|].
        split; [exact Hd|]. intros d' [H'|[<-|[]]]%in_app_or Hm'; [|lia].
        specialize (Hmax d' H' Hm'). lia.
      * split; [reflexivity|]. split; [apply in_or_app; left; exact Hin|].
        split; [exact Hm|]. intros d' [H'|[<-|[]]]%in_app_or Hm'; [|lia].
        exact (Hmax d' H' Hm').
    + simpl fst; simpl snd. split; [reflexivity|].
      split; [apply in_or_app; left; exact Hin|]. split; [exact Hm|].
      intros d' [H'|[<-|[]]]%in_app_or Hm'; [|congruence].
      exact (Hmax d' H' Hm').
  - intros [-> Hnone]. destruct (RobotsDirective.matches d p) eqn:Hd.
    + fold (len d). destruct (Z.gtb_spec (Z.of_nat (len d)) (-1)) as [Hgt|Hle]; [|lia].
      simpl fst; simpl snd. split; [reflexivity|].
      split; [apply in_or_app; right; left; reflexivity|]. split; [exact Hd|].
      intros d' [H'|[<-|[]]]%in_app_or Hm'; [|lia].
      rewrite (Hnone d' H') in Hm'. discriminate.
    + simpl fst; simpl snd. split; [reflexivity|].
      intros d' [H'|[<-|[]]]%in_app_or; [exact (Hnone d' H')|exact Hd].
Qed.

Lemma loop_state_fold ds p :
  loop_state ds p (fold_left (best_step p) ds (None, (-1)%Z)).
Proof.
  induction ds as [|d ds IH] using rev_ind.
  - simpl. split; [reflexivity|]. intros d [].
  - rewrite fold_left_app. simpl. apply loop_state_step, IH.
Qed.

Lemma best_match_none ds p :
  best_match ds p = None <->
  forall d, In d ds -> RobotsDirective.matches d p = false.
Proof.
  pose proof (loop_state_fold ds p) as H. unfold loop_state in H.
  unfold best_match. destruct (fst _) as [b|].
  - split; [discriminate|]. intros Hnone. destruct H as (_ & Hin & Hm & _).
    rewrite (Hnone b Hin) in Hm. discriminate.
  - split; [intros _; apply H|reflexivity].
Qed.

Lemma best_match_some ds p d :
  best_match ds p = Some d -> longest_match ds p d.
Proof.
  pose proof (loop_state_fold ds p) as H. unfold loop_state in H.
  unfold best_match. destruct (fst _) as [b|]; [|discriminate].
  intros [= <-]. apply H.
Qed.

Lemma is_allowed_best r p :
  is_allowed r p =
  match best_match (directives r) p with
  | None => true
  | Some d => RobotsDirective.allow d
  end.
Proof. unfold is_allowed. destruct (directives r); reflexivity. Qed.

Lemma longest_match_perm ds ds' p d :
  Permutation ds ds' -> longest_match ds p d -> longest_match ds' p d.
Proof.
  intros HP (Hin & Hm & Hmax). split; [|split]; [|exact Hm|].
  - eapply Permutation_in; eassumption.
  - intros d' Hin'. apply Hmax. eapply Permutation_in; [symmetry|]; eassumption.
Qed.

End BestMatchFacts.

Section LongestMatch.
Import UserAgentRules BestMatch BestMatchFacts.

(** C1.  Whatever the order in which the directives are declared ([r']
    declares the directives of [r] in any order): when no directive
    matches the path, the path is allowed; when at least one matches,
    [is_allowed] returns the allow/deny value of a matching directive
    whose pattern string is of maximal length among the matching ones;
    and when the matching directives of maximal length carry one value
    (in particular when there is just one), the answer is the same in
    every order.  For [Disallow: /private/] with
    [Allow: /private/public.html], as the parser builds it and in the
    other order too, [/private/public.html] is allowed and
    [/private/other] is denied. *)
Theorem is_allowed_longest_match_wins :
  (forall (r r' : UserAgentRules.t) (p : string),
      Permutation (directives r) (directives r') ->
      ((forall d, In d (directives r) -> RobotsDirective.matches d p = false) ->
       is_allowed r' p = true)
      /\ ((exists d, In d (directives r) /\ RobotsDirective.matches d p = true) ->
          exists d, longest_match (directives r) p d
                    /\ is_allowed r' p = RobotsDirective.allow d)
      /\ ((forall d d', longest_match (directives r) p d ->
                        longest_match (directives r) p d' ->
                        RobotsDirective.allow d = RobotsDirective.allow d') ->
          is_allowed r' p = is_allowed r p))
  /\ RobotsParser.user_agent_rules
       (RobotsParser.parse (RobotsParser.new 10) private_robots_txt) !! "*"
     = Some private_rules
  /\ is_allowed private_rules "/private/public.html" = true
  /\ is_allowed private_rules "/private/other" = false
  /\ is_allowed private_rules_swapped "/private/public.html" = true
  /\ is_allowed private_rules_swapped "/private/other" = false.
Proof.
  split; [|repeat split; vm_compute; reflexivity].
  intros r r' p HP.
  assert (Hsome : forall r0, Permutation (directives r) (directives r0) ->
            (exists d, In d (directives r) /\ RobotsDirective.matches d p = true) ->
            exists d, longest_match (directives r) p d
                      /\ is_allowed r0 p = RobotsDirective.allow d).
  { intros r0 HP0 (d0 & Hin0 & Hm0). rewrite is_allowed_best.
    destruct (best_match (directives r0) p) as [b|] eqn:Hb.
    - exists b. split; [|reflexivity].
      apply (longest_match_perm (directives r0)); [symmetry; exact HP0|].
      apply best_match_some, Hb.
    - rewrite best_match_none in Hb.
      rewrite (Hb d0) in Hm0; [discriminate|].
      eapply Permutation_in; eassumption. }
  assert (Hnone : forall r0, Permutation (directives r) (directives r0) ->
            (forall d, In d (directives r) -> RobotsDirective.matches d p = false) ->
            is_allowed r0 p = true).
  { intros r0 HP0 Hno. rewrite is_allowed_best.
    destruct (best_match (directives r0) p) as [b|] eqn:Hb; [|reflexivity].
    apply best_match_some in Hb. destruct Hb as (Hin & Hm & _).
    rewrite (Hno b) in Hm; [discriminate|].
    eapply Permutation_in; [symmetry|]; eassumption. }
  split; [apply Hnone, HP|]. split; [apply Hsome, HP|].
  intros Hagree.
  destruct (existsb (fun d => RobotsDirective.matches d p) (directives r)) eqn:Hex.
  - apply existsb_exists in Hex.
    destruct (Hsome r' HP Hex) as (d1 & Hl1 & ->).
    destruct (Hsome r (Permutation_refl _) Hex) as (d2 & Hl2 & ->).
    apply Hagree; assumption.
  - assert (Hno : forall d, In d (directives r) -> RobotsDirective.matches d p = false).
    { intros d Hin. destruct (RobotsDirective.matches d p) eqn:Hm; [|reflexivity].
      rewrite <- Hex. symmetry. apply existsb_exists. eauto. }
    rewrite (Hnone r' HP Hno), (Hnone r (Permutation_refl _) Hno). reflexivity.
Qed.

Lemma is_allowed_longest_match_wins_witness :
  exists d, longest_match (directives private_rules) "/private/other" d
            /\ is_allowed private_rules_swapped "/private/other"
               = RobotsDirective.allow d.
Proof.
  apply (proj1 (proj2 (proj1 is_allowed_longest_match_wins
                         private_rules private_rules_swapped "/private/other"
                         (perm_swap _ _ [])))).
  exists (RobotsDirective.new "/private/" false).
  split; [left; reflexivity | reflexivity].
Defined.

End LongestMatch.

(* --------------------------------------------------------------------- *)
(** ** Directives with the empty path                                     *)
(* --------------------------------------------------------------------- *)

Section EmptyPattern.
Import UserAgentRules BestMatch BestMatchFacts.

Lemma match_dotstar_any (start : bool) (p : string) :
  Re.match_here [Re.Star Re.Dot] start p = true.
Proof. destruct p; reflexivity. Qed.

(** C9.  A directive with the empty path compiles to [^.*], which
    matches every path; a rule set whose only directive is an empty-path
    Disallow (as a bare [Disallow:] line gives) denies every path; and
    when an empty-path directive is the one that decides, every matching
    directive has the empty path: no directive with a non-empty pattern
    matches. *)
Theorem empty_path_directive :
  (forall (allow : bool) (p : string),
      RobotsDirective.pattern (RobotsDirective.new "" allow)
        = Some [Re.Bol; Re.Star Re.Dot]
      /\ RobotsDirective.matches (RobotsDirective.new "" allow) p = true)
  /\ (forall (r : UserAgentRules.t) (p : string),
        directives r = [RobotsDirective.new "" false] ->
        is_allowed r p = false)
  /\ (forall (r : UserAgentRules.t) (p : string) (d : RobotsDirective.t),
        best_match (directives r) p = Some d ->
        RobotsDirective.path d = "" ->
        forall d', In d' (directives r) ->
                   RobotsDirective.matches d' p = true ->
                   RobotsDirective.path d' = "")
  /\ (directives <$>
        RobotsParser.user_agent_rules
          (RobotsParser.parse (RobotsParser.new 10) bare_disallow_txt) !! "*")
     = Some [RobotsDirective.new "" false].
Proof.
  assert (Hall : forall allow p,
             RobotsDirective.matches (RobotsDirective.new "" allow) p = true).
  { intros allow p. change (true && Re.match_here [Re.Star Re.Dot] true p = true).
    rewrite match_dotstar_any. reflexivity. }
  split; [intros allow p; split; [reflexivity|apply Hall]|].
  split.
  { intros r p Hr. unfold is_allowed, best_match. rewrite Hr.
    cbn [fold_left]. unfold best_step. rewrite Hall. reflexivity. }
  split; [|vm_compute; reflexivity].
  intros r p d Hb Hd d' Hin Hm.
  apply best_match_some in Hb. destruct Hb as (_ & _ & Hmax).
  specialize (Hmax d' Hin Hm). unfold len in Hmax. rewrite Hd in Hmax.
  destruct (RobotsDirective.path d'); [reflexivity|simpl in Hmax; lia].
Qed.

Lemma empty_path_directive_witness :
  is_allowed (UserAgentRules.add_directive (UserAgentRules.new "*") "" false)
             "/any/path.html" = false.
Proof.
  apply (proj1 (proj2 empty_path_directive)). reflexivity.
Defined.

End EmptyPattern.

(* --------------------------------------------------------------------- *)
(** ** RobotsParser.fetch_and_parse on a 404                              *)
(* --------------------------------------------------------------------- *)

Section Fetch404.
Context `{UrlLib}.

(** C2.  On a freshly constructed parser, a fetch answered with HTTP 404
    reports success, records no parse error and leaves no rule, and
    afterwards [is_allowed] is true for every URL and every user agent. *)
Theorem fetch_404_allows_all
    (timeout : Z) (target text now : string) :
  let result :=
    RobotsParser.fetch_and_parse (RobotsParser.new timeout) target
                                 (Response 404 text) now in
  snd result = true
  /\ RobotsParser.parse_errors (fst result) = []
  /\ RobotsParser.user_agent_rules (fst result) = ∅
  /\ RobotsParser.raw_content (fst result) = ""
  /\ forall u user_agent, RobotsParser.is_allowed (fst result) u user_agent = true.
Proof.
  cbv zeta. do 4 (split; [reflexivity|]). intros u user_agent.
  unfold RobotsParser.is_allowed.
  change (RobotsParser.user_agent_rules _) with (∅ : gmap string UserAgentRules.t).
  rewrite !lookup_empty. reflexivity.
Qed.

End Fetch404.

(* --------------------------------------------------------------------- *)
(** ** RobotsParser.parse on two inputs                                   *)
(* --------------------------------------------------------------------- *)

(** C4.  The code at the input [redeclared_agent_txt]: lines 3 and 4 are
    consecutive [user-agent] lines with no directive between them, yet
    [Disallow: /y] is attached to [b] alone and [a] keeps only [/x]; the
    test for a new block looks at all the directives that the first agent
    of the group has ever received, here those of the first group.  With
    an agent that no earlier group names ([fresh_agent_txt]) the two
    lines do share the directive. *)
Theorem user_agent_group_split_when_agent_redeclared :
  blocked_paths_of redeclared_agent_txt "a" = Some ["/x"]
  /\ blocked_paths_of redeclared_agent_txt "b" = Some ["/y"]
  /\ snd (RobotsParser.parse_lines 1 (Str.split Re.LF redeclared_agent_txt)
            (RobotsParser.new 10, [])) = ["b"]
  /\ blocked_paths_of fresh_agent_txt "c" = Some ["/y"]
  /\ blocked_paths_of fresh_agent_txt "b" = Some ["/y"]
  /\ snd (RobotsParser.parse_lines 1 (Str.split Re.LF fresh_agent_txt)
            (RobotsParser.new 10, [])) = ["c"; "b"].
Proof. repeat split; vm_compute; reflexivity. Qed.

(** C5.  The code at the input [Request-rate: 10]: the value is not of
    the form N/M, and nothing is recorded; the rate stays unset and the
    list of parse errors stays empty.  A value with one slash and a part
    that is not an integer, and a crawl delay that is not a float, are
    recorded and leave the rule set as it was. *)
Theorem request_rate_without_slash_is_not_reported :
  RobotsParser.parse_errors
    (RobotsParser.parse (RobotsParser.new 10) request_rate_no_slash_txt) = []
  /\ (UserAgentRules.request_rate <$>
        RobotsParser.user_agent_rules
          (RobotsParser.parse (RobotsParser.new 10) request_rate_no_slash_txt)
          !! "*") = Some None
  /\ RobotsParser.parse_errors
       (RobotsParser.parse (RobotsParser.new 10) request_rate_bad_count_txt)
     = ["Line 2: Invalid request-rate value"]
  /\ RobotsParser.user_agent_rules
       (RobotsParser.parse (RobotsParser.new 10) request_rate_bad_count_txt)
     = {[ "*" := UserAgentRules.new "*" ]}
  /\ RobotsParser.parse_errors
       (RobotsParser.parse (RobotsParser.new 10) crawl_delay_bad_txt)
     = ["Line 2: Invalid crawl-delay value"]
  /\ RobotsParser.user_agent_rules
       (RobotsParser.parse (RobotsParser.new 10) crawl_delay_bad_txt)
     = {[ "*" := UserAgentRules.new "*" ]}.
Proof. repeat split; vm_compute; reflexivity. Qed.

(* --------------------------------------------------------------------- *)
(** ** filter_issues_by_exclusion_patterns                                *)
(* --------------------------------------------------------------------- *)

Module FilterFacts.
Import IssueFilters.

Lemma rstrip_star_free pattern :
  Str.contains "*" pattern = false -> Str.rstrip "*" pattern = pattern.
Proof.
  unfold Str.rstrip. induction pattern as [|c t IH]; [reflexivity|].
  intros Hs.
  change (Str.contains "*" (String c t))
    with (Ascii.eqb c "*" || Str.contains "*" t) in Hs.
  apply orb_false_elim in Hs as [Hc Ht].
  cbn [Str.rstrip_by]. rewrite (IH Ht).
  change (Str.contains c "*") with (Ascii.eqb "*" c || false).
  rewrite Ascii.eqb_sym, Hc, andb_false_r. reflexivity.
Qed.

Lemma should_exclude_exists path patterns :
  should_exclude path patterns =
  existsb (fun pattern => negb (skipped pattern) && pattern_excludes path pattern)
          patterns.
Proof.
  induction patterns as [|pattern rest IH]; [reflexivity|].
  cbn [should_exclude existsb]. unfold pattern_excludes at 1.
  destruct (skipped pattern); [exact IH|].
  destruct (Str.contains "*" pattern) eqn:Hstar; cbn [negb andb].
  - destruct (Fnmatch.fnmatch path pattern); [reflexivity|exact IH].
  - rewrite (rstrip_star_free pattern Hstar).
    destruct (String.eqb path pattern || Str.startswith path pattern);
      [reflexivity|exact IH].
Qed.

Section WithUrlLib.
Context `{UrlLib}.

Lemma filter_loop_filter issues patterns :
  filter_loop issues patterns =
  List.filter (fun issue => negb (should_exclude (issue_path issue) patterns))
              issues.
Proof.
  induction issues as [|issue rest IH]; [reflexivity|].
  cbn [filter_loop List.filter]. fold (issue_path issue).
  destruct (should_exclude (issue_path issue) patterns); cbn [negb];
    rewrite IH; reflexivity.
Qed.

Lemma filter_loop_idempotent issues patterns :
  filter_loop (filter_loop issues patterns) patterns = filter_loop issues patterns.
Proof.
  induction issues as [|issue rest IH]; [reflexivity|].
  cbn [filter_loop].
  destruct (should_exclude (Url.path (urlparse (issue_url issue))) patterns) eqn:Hx.
  - exact IH.
  - cbn [filter_loop]. rewrite Hx, IH. reflexivity.
Qed.

End WithUrlLib.

Lemma matches_literal lit name :
  Fnmatch.matches (literal_items lit) name = String.eqb name lit.
Proof.
  revert name. induction lit as [|c t IH]; intros [|d name]; try reflexivity.
  cbn [literal_items Fnmatch.matches Fnmatch.item_ok]. rewrite IH.
  simpl. destruct (Ascii.eqb d c); reflexivity.
Qed.

Lemma matches_star_literal lit name :
  Fnmatch.matches (Fnmatch.GStar :: literal_items lit) name = Str.endswith name lit.
Proof.
  induction name as [|d name IH].
  - change (Fnmatch.matches (literal_items lit) "" || false
            = String.eqb "" lit || false).
    rewrite matches_literal. reflexivity.
  - change (Fnmatch.matches (literal_items lit) (String d name)
            || Fnmatch.matches (Fnmatch.GStar :: literal_items lit) name
            = String.eqb (String d name) lit || Str.endswith name lit).
    rewrite matches_literal, IH. reflexivity.
Qed.

Lemma fnmatch_star_json name :
  Fnmatch.fnmatch name "*.json" = Str.endswith name ".json".
Proof. exact (matches_star_literal ".json" name). Qed.

Lemma eqb_length s p : String.eqb s p = true -> String.length s = String.length p.
Proof. intros ->%String.eqb_eq. reflexivity. Qed.

Lemma endswith_length s p :
  Str.endswith s p = true -> (String.length p <= String.length s)%nat.
Proof.
  induction s as [|c t IH]; cbn [Str.endswith].
  - rewrite orb_false_r. intros Hq%eqb_length. lia.
  - intros [Hq%eqb_length|Ht%IH]%orb_true_iff; simpl in *; lia.
Qed.

(** A text has one ending of a given length. *)
Lemma endswith_same_length s p q :
  String.length p = String.length q ->
  Str.endswith s p = true -> Str.endswith s q = true -> p = q.
Proof.
  intros Hlen. induction s as [|c t IH]; cbn [Str.endswith].
  - rewrite !orb_false_r. intros <-%String.eqb_eq <-%String.eqb_eq. reflexivity.
  - intros [Hp|Hp]%orb_true_iff [Hq|Hq]%orb_true_iff.
    + apply String.eqb_eq in Hp, Hq. congruence.
    + apply eqb_length in Hp. apply endswith_length in Hq. simpl in Hp. lia.
    + apply eqb_length in Hq. apply endswith_length in Hp. simpl in Hq. lia.
    + exact (IH Hp Hq).
Qed.

End FilterFacts.

Section IssueFilterTheorems.
Context `{UrlLib}.
Import IssueFilters FilterFacts.

Lemma filter_single issue pattern :
  filter_issues_by_exclusion_patterns [issue] [pattern] =
  if negb (skipped pattern) && pattern_excludes (issue_path issue) pattern
  then [] else [issue].
Proof.
  cbn [filter_issues_by_exclusion_patterns filter_loop].
  fold (issue_path issue). rewrite should_exclude_exists. cbn [existsb].
  rewrite orb_false_r. reflexivity.
Qed.

(** C7.  Filtering the output of the filter again with the same patterns
    returns that output unchanged, for every issue list and every pattern
    list; and with the pattern [*.json] an issue whose URL path ends in
    [.json] is removed while one whose URL path ends in [.html] is
    kept. *)
Theorem filter_issues_idempotent :
  (forall (issues : list Issue) (exclusion_patterns : list string),
      filter_issues_by_exclusion_patterns
        (filter_issues_by_exclusion_patterns issues exclusion_patterns)
        exclusion_patterns
      = filter_issues_by_exclusion_patterns issues exclusion_patterns)
  /\ (forall issue : Issue,
        Str.endswith (issue_path issue) ".json" = true ->
        filter_issues_by_exclusion_patterns [issue] ["*.json"] = [])
  /\ (forall issue : Issue,
        Str.endswith (issue_path issue) ".html" = true ->
        filter_issues_by_exclusion_patterns [issue] ["*.json"] = [issue]).
Proof.
  split; [|split].
  - intros issues [|pattern rest]; [reflexivity|].
    cbn [filter_issues_by_exclusion_patterns]. apply filter_loop_idempotent.
  - intros issue Hjson. rewrite filter_single.
    change (pattern_excludes (issue_path issue) "*.json")
      with (Fnmatch.fnmatch (issue_path issue) "*.json").
    rewrite fnmatch_star_json, Hjson. reflexivity.
  - intros issue Hhtml. rewrite filter_single.
    change (pattern_excludes (issue_path issue) "*.json")
      with (Fnmatch.fnmatch (issue_path issue) "*.json").
    rewrite fnmatch_star_json.
    destruct (Str.endswith (issue_path issue) ".json") eqn:Hjson; [|reflexivity].
    discriminate (endswith_same_length _ ".html" ".json" eq_refl Hhtml Hjson).
Qed.

(** C8.  The filter keeps exactly the issues that no pattern excludes,
    where only the patterns that are neither blank nor comments count and
    the decision of a pattern reads the path component of the issue URL
    and nothing else of it: issues with the same path are treated alike.
    For one such pattern: with a [*] in it the issue is excluded exactly
    when [fnmatch] matches the path against the pattern, without a [*]
    exactly when the path equals the pattern or starts with it. *)
Theorem exclusion_decided_by_path :
  (forall (issues : list Issue) (exclusion_patterns : list string),
      filter_issues_by_exclusion_patterns issues exclusion_patterns
      = List.filter
          (fun issue =>
             negb (existsb
                     (fun pattern =>
                        negb (skipped pattern)
                        && pattern_excludes (issue_path issue) pattern)
                     exclusion_patterns))
          issues)
  /\ (forall (issue issue' : Issue) (exclusion_patterns : list string),
        issue_path issue = issue_path issue' ->
        (filter_issues_by_exclusion_patterns [issue] exclusion_patterns = []
         <-> filter_issues_by_exclusion_patterns [issue'] exclusion_patterns = []))
  /\ (forall (issue : Issue) (pattern : string),
        skipped pattern = false ->
        (Str.contains "*" pattern = true ->
         (filter_issues_by_exclusion_patterns [issue] [pattern] = []
          <-> Fnmatch.fnmatch (issue_path issue) pattern = true))
        /\ (Str.contains "*" pattern = false ->
            (filter_issues_by_exclusion_patterns [issue] [pattern] = []
             <-> (issue_path issue = pattern
                  \/ Str.startswith (issue_path issue) pattern = true)))).
Proof.
  assert (Hgen : forall issues exclusion_patterns,
      filter_issues_by_exclusion_patterns issues exclusion_patterns
      = List.filter
          (fun issue =>
             negb (existsb
                     (fun pattern =>
                        negb (skipped pattern)
                        && pattern_excludes (issue_path issue) pattern)
                     exclusion_patterns))
          issues).
  { intros issues [|pattern rest].
    - cbn [filter_issues_by_exclusion_patterns existsb negb].
      induction issues as [|i l IH]; [reflexivity|].
      cbn [List.filter]. rewrite <- IH. reflexivity.
    - cbn [filter_issues_by_exclusion_patterns]. rewrite filter_loop_filter.
      apply List.filter_ext. intros issue.
      rewrite should_exclude_exists. reflexivity. }
  split; [exact Hgen|]. split.
  - intros issue issue' pats Hpath. rewrite !Hgen. cbn [List.filter].
    rewrite Hpath.
    destruct (negb (existsb _ pats)); split; (reflexivity || discriminate).
  - intros issue pattern Hskip. rewrite filter_single, Hskip. cbn [negb andb].
    unfold pattern_excludes. split; intros Hstar; rewrite Hstar.
    + destruct (Fnmatch.fnmatch (issue_path issue) pattern);
        split; (reflexivity || discriminate).
    + destruct (String.eqb_spec (issue_path issue) pattern) as [Heq|Hne];
        destruct (Str.startswith (issue_path issue) pattern);
        cbn [orb]; split; intros Hx;
        try reflexivity; try discriminate; auto.
      destruct Hx as [Hx|Hx]; [contradiction|discriminate].
Qed.

End IssueFilterTheorems.

Lemma filter_issues_idempotent_witness :
  @IssueFilters.filter_issues_by_exclusion_patterns sample_urlparse
     [json_issue] ["*.json"] = []
  /\ @IssueFilters.filter_issues_by_exclusion_patterns sample_urlparse
       [html_issue] ["*.json"] = [html_issue].
Proof.
  split.
  - apply (proj1 (proj2 (@filter_issues_idempotent sample_urlparse))).
    vm_compute. reflexivity.
  - apply (proj2 (proj2 (@filter_issues_idempotent sample_urlparse))).
    vm_compute. reflexivity.
Defined.

Lemma exclusion_decided_by_path_witness :
  @IssueFilters.filter_issues_by_exclusion_patterns sample_urlparse
     [admin_issue] ["/admin"] = []
  /\ @IssueFilters.filter_issues_by_exclusion_patterns sample_urlparse
       [json_issue] ["*.json"] = [].
Proof.
  split.
  - apply (proj2 (proj2 (proj2 (@exclusion_decided_by_path sample_urlparse))
                   admin_issue "/admin" eq_refl) eq_refl).
    right. vm_compute. reflexivity.
  - apply (proj1 (proj2 (proj2 (@exclusion_decided_by_path sample_urlparse))
                   json_issue "*.json" eq_refl) eq_refl).
    vm_compute. reflexivity.
Defined.

(* --------------------------------------------------------------------- *)
(** ** CustomRobotsManager: to_dict and from_dict                         *)
(* --------------------------------------------------------------------- *)

Module ManagerFacts.
Import CustomRobotsManager.

Lemma from_dict_tables m data :
  from_dict m data =
  mk (default ∅ (data !! "custom_robots"))
     (parsed <$> default ∅ (data !! "custom_robots")).
Proof.
  unfold from_dict.
  apply (map_fold_weak_ind
           (fun acc (cr : gmap string string) => acc = mk cr (parsed <$> cr))).
  - rewrite fmap_empty. reflexivity.
  - intros subdomain content cr acc _ ->. unfold add_subdomain. cbn.
    rewrite fmap_insert. reflexivity.
Qed.

(** Every table of parsers is the table of raw texts, parsed. *)
Lemma reachable_parsers m :
  reachable m -> parsers m = parsed <$> custom_robots m.
Proof.
  induction 1 as [|m subdomain content _ IH|m subdomain _ IH|m data _ _|m _ _].
  - cbn. rewrite fmap_empty. reflexivity.
  - cbn. rewrite IH, fmap_insert. reflexivity.
  - unfold remove_subdomain. destruct (custom_robots m !! subdomain); cbn.
    + rewrite IH, fmap_delete. reflexivity.
    + exact IH.
  - rewrite from_dict_tables. reflexivity.
  - cbn. rewrite fmap_empty. reflexivity.
Qed.

End ManagerFacts.

Section ManagerRoundTrip.
Context `{UrlLib}.
Import CustomRobotsManager ManagerFacts.

(** C10.  For every manager that the methods can produce, a fresh
    manager loaded with [from_dict(m.to_dict())] has the same mapping
    from subdomains to contents, the same parsers, and answers
    [is_allowed] as [m] does on every URL and every user agent. *)
Theorem manager_to_dict_from_dict_roundtrip (m : CustomRobotsManager.t) :
  reachable m ->
  custom_robots (from_dict new (to_dict m)) = custom_robots m
  /\ from_dict new (to_dict m) = m
  /\ forall target user_agent,
       is_allowed (from_dict new (to_dict m)) target user_agent
       = is_allowed m target user_agent.
Proof.
  intros Hm.
  assert (Heq : from_dict new (to_dict m) = m).
  { rewrite from_dict_tables. unfold to_dict. rewrite lookup_singleton_eq. cbn.
    rewrite <- (reachable_parsers m Hm). destruct m; reflexivity. }
  rewrite Heq. split; [reflexivity|]. split; [reflexivity|]. reflexivity.
Qed.

End ManagerRoundTrip.

Lemma manager_to_dict_from_dict_roundtrip_witness :
  CustomRobotsManager.custom_robots
    (CustomRobotsManager.from_dict CustomRobotsManager.new
       (CustomRobotsManager.to_dict sample_manager))
  = {[ "shop.example.com" := private_robots_txt ]}.
Proof.
  rewrite (proj1 (@manager_to_dict_from_dict_roundtrip sample_urlparse
                    sample_manager
                    (CustomRobotsManager.reach_add _ _ _
                       CustomRobotsManager.reach_new))).
  reflexivity.
Defined.

(* --------------------------------------------------------------------- *)
(** ** ContentAnalyzer.analyze_content on blank text                      *)
(* --------------------------------------------------------------------- *)

Lemma lstrip_all_space text :
  ContentAnalyzer.all_chars Str.isspace text = true ->
  Str.lstrip_by Str.isspace text = "".
Proof.
  induction text as [|c t IH]; [reflexivity|].
  cbn [ContentAnalyzer.all_chars Str.lstrip_by].
  intros [Hc Ht]%andb_true_iff. rewrite Hc. exact (IH Ht).
Qed.

Section BlankText.
Context `{FloatLib}.
Import ContentAnalyzer.

(** C6.  For the empty text and for every text made of white space only,
    [analyze_content] returns the fixed result: the two counts, the three
    scores and the reading time are zero, there is no keyword, and the
    content is flagged as thin. *)
Theorem analyze_content_blank (text : string) :
  all_chars Str.isspace text = true ->
  analyze_content text = _get_empty_result
  /\ analyze_content text =
     {| word_count := 0; sentence_count := 0;
        readability_score := PInt 0; flesch_kincaid_grade := PInt 0;
        gunning_fog_index := PInt 0; reading_time_minutes := 0;
        keywords := []; is_thin_content := true |}.
Proof.
  intros Hblank. unfold analyze_content, Str.strip.
  rewrite (lstrip_all_space text Hblank). cbn [Str.rstrip_by Str.is_empty].
  rewrite orb_true_r. split; reflexivity.
Qed.

End BlankText.

Lemma analyze_content_blank_witness :
  @ContentAnalyzer.analyze_content sample_floats ("  " +:+ NL +:+ " ")
  = @ContentAnalyzer._get_empty_result sample_floats.
Proof.
  apply (@analyze_content_blank sample_floats). reflexivity.
Defined.

(* --------------------------------------------------------------------- *)
(** ** recover_crashed_crawls                                             *)
(* --------------------------------------------------------------------- *)

Module RecoveryFacts.
Import CrawlDb Main.

Lemma swept_nil c : swept [] c = c.
Proof. reflexivity. Qed.

Lemma swept_cons i ids c :
  swept ids (if (id c =? i)%Z then mk (id c) (base_url c) "failed" else c)
  = swept (i :: ids) c.
Proof.
  unfold swept. cbn [existsb].
  destruct (id c =? i)%Z eqn:He; cbn [id base_url orb]; [|reflexivity].
  destruct (existsb _ ids); reflexivity.
Qed.

Lemma sweep_table crashed db :
  fold_left (fun d c => set_crawl_status (id c) "failed" d) crashed db
  = List.map (swept (List.map id crashed)) db.
Proof.
  revert db. induction crashed as [|c rest IH]; intros db.
  - cbn. induction db as [|x l IHl]; [reflexivity|].
    cbn [List.map]. rewrite <- IHl. reflexivity.
  - cbn [fold_left List.map]. rewrite IH. unfold set_crawl_status.
    rewrite List.map_map. apply List.map_ext. intros x. apply swept_cons.
Qed.

(** When every write takes effect the loop runs to its end. *)
Lemma recover_loop_takes_effect S crashed :
  takes_effect S ->
  forall db out,
    exists out',
      recover_loop S crashed (db, out)
      = ((fold_left (fun d c => set_crawl_status (id c) "failed" d) crashed db,
          out'), None).
Proof.
  intros Hw. induction crashed as [|c rest IH]; intros db out.
  - exists out. reflexivity.
  - cbn [recover_loop fold_left]. unfold recover_step. cbn [fst snd].
    destruct (Hw (id c) "failed" db) as [flag ->]. apply IH.
Qed.

Lemma recover_table S db :
  answers S -> takes_effect S ->
  fst (recover_crashed_crawls S db)
  = List.map (swept (List.map id (get_crashed_crawls db))) db.
Proof.
  intros Ha Hw. unfold recover_crashed_crawls. rewrite (Ha db).
  destruct (get_crashed_crawls db) as [|c rest] eqn:Hc.
  - cbn [fst]. rewrite <- (sweep_table [] db). reflexivity.
  - destruct (recover_loop_takes_effect S (c :: rest) Hw db
                [Re.NL +:+ rule60; "CRASH RECOVERY"; rule60]) as [out' ->].
    cbn [fst]. apply sweep_table.
Qed.

Lemma running_is_crashed db c :
  In c db -> status c = "running" ->
  existsb (Z.eqb (id c)) (List.map id (get_crashed_crawls db)) = true.
Proof.
  intros Hin Hst. apply existsb_exists. exists (id c). split; [|apply Z.eqb_refl].
  apply in_map. unfold get_crashed_crawls. apply filter_In. split; [exact Hin|].
  rewrite Hst. reflexivity.
Qed.

(** A write for [failed] only makes failed jobs. *)
Lemma write_failed_only S db0 db i :
  keeps_to_spec S ->
  (forall c, In c db -> status c = "failed" \/ In c db0) ->
  forall c, In c (fst (write S i "failed" db)) -> status c = "failed" \/ In c db0.
Proof.
  intros Hk Hdb c. destruct (Hk i "failed" db) as [-> | ->]; [|apply Hdb].
  unfold set_crawl_status. intros (x & <- & Hx)%in_map_iff.
  destruct (id x =? i)%Z; [left; reflexivity|apply Hdb, Hx].
Qed.

Lemma recover_loop_failed_only S db0 crashed :
  keeps_to_spec S ->
  forall db out,
    (forall c, In c db -> status c = "failed" \/ In c db0) ->
    forall c, In c (fst (fst (recover_loop S crashed (db, out)))) ->
              status c = "failed" \/ In c db0.
Proof.
  intros Hk. induction crashed as [|x rest IH]; intros db out Hdb; [exact Hdb|].
  cbn [recover_loop]. unfold recover_step. cbn [fst snd].
  pose proof (write_failed_only S db0 db (id x) Hk Hdb) as Hnext.
  destruct (write S (id x) "failed" db) as [db' [flag|msg]]; cbn [fst] in Hnext.
  - apply IH, Hnext.
  - exact Hnext.
Qed.

Lemma recover_failed_only S db :
  keeps_to_spec S ->
  forall c, In c (fst (recover_crashed_crawls S db)) ->
            status c = "failed" \/ In c db.
Proof.
  intros Hk c. unfold recover_crashed_crawls.
  destruct (query S db) as [[|x rest]|msg]; try (cbn [fst]; auto; fail).
  pose proof (recover_loop_failed_only S db (x :: rest) Hk db
                [Re.NL +:+ rule60; "CRASH RECOVERY"; rule60]
                (fun c Hc => or_intror Hc) c) as Hloop.
  destruct (recover_loop S (x :: rest) _) as [st [msg|]]; exact Hloop.
Qed.

End RecoveryFacts.

Section Recovery.
Import CrawlDb Main RecoveryFacts.


End Recovery.



(* --------------------------------------------------------------------- *)
(** ** What the compiled patterns match                                   *)
(* --------------------------------------------------------------------- *)

Module MatchFacts.
Import Re RobotsDirective PatternForm PatternFacts PatternKinds.

Lemma append_cons c s t : String c s +:+ t = String c (s +:+ t).
Proof. reflexivity. Qed.

Lemma append_nil_l t : "" +:+ t = t.
Proof. reflexivity. Qed.

Lemma path_items_app p q : path_items (p +:+ q) = path_items p ++ path_items q.
Proof.
  induction p as [|c p IH]; [reflexivity|].
  rewrite append_cons. cbn [path_items app]. rewrite IH. reflexivity.
Qed.

Lemma endswith_app p q : Str.endswith (p +:+ q) q = true.
Proof.
  induction p as [|c p IH].
  - rewrite append_nil_l. destruct q; cbn [Str.endswith]; rewrite String.eqb_refl;
      reflexivity.
  - rewrite append_cons, endswith_cons, IH. apply orb_true_r.
Qed.

Lemma endswith_app_char p a b :
  Ascii.eqb a b = false ->
  Str.endswith (p +:+ String a "") (String b "") = false.
Proof.
  intros Hab. induction p as [|c p IH].
  - rewrite append_nil_l. cbn [Str.endswith]. rewrite !eqb_cons, Hab. reflexivity.
  - rewrite append_cons, endswith_cons, IH, eqb_cons.
    destruct p; [rewrite append_nil_l|rewrite append_cons];
      cbn [String.eqb]; rewrite andb_false_r; reflexivity.
Qed.

Lemma endswith_contains c p :
  Str.endswith p (String c "") = true -> Str.contains c p = true.
Proof.
  induction p as [|d p IH]; [discriminate|].
  rewrite endswith_cons, eqb_cons. cbn [Str.contains].
  intros [[Hd _]%andb_true_iff|Hp]%orb_true_iff.
  - rewrite Hd. reflexivity.
  - rewrite (IH Hp). apply orb_true_r.
Qed.

Lemma plain_open_ended path : plain path = true -> open_ended path = true.
Proof.
  unfold plain, open_ended.
  intros [Hs Hd]%andb_true_iff. apply negb_true_iff in Hs, Hd.
  destruct (Str.endswith path "$") eqn:E1.
  { apply endswith_contains in E1. congruence. }
  destruct (Str.endswith path "*") eqn:E2.
  { apply endswith_contains in E2. congruence. }
  reflexivity.
Qed.

Lemma plain_cons c t :
  plain (String c t) = true ->
  path_item c = One (Lit c) /\ plain t = true.
Proof.
  unfold plain. cbn [Str.contains]. rewrite !negb_orb.
  intros [[Hc1 Ht1]%andb_true_iff [Hc2 Ht2]%andb_true_iff]%andb_true_iff.
  apply negb_true_iff in Hc1, Hc2. unfold path_item. rewrite Hc1, Hc2, Ht1, Ht2.
  split; reflexivity.
Qed.

(** Literal items followed by [.*]: the text starts with the literal. *)
Lemma match_plain_prefix path start text :
  plain path = true ->
  match_here (path_items path ++ [Star Dot]) start text = Str.startswith text path.
Proof.
  revert start text. induction path as [|c t IH]; intros start text Hp.
  - cbn [path_items app]. rewrite match_dotstar_any. destruct text; reflexivity.
  - destruct (plain_cons c t Hp) as [Hc Ht].
    cbn [path_items app]. rewrite Hc.
    destruct text as [|d u]; [reflexivity|].
    cbn [match_here atom_ok Str.startswith]. rewrite (IH false u Ht). reflexivity.
Qed.

(** Literal items followed by [$]: the text is the literal, or the
    literal and one final newline. *)
Lemma match_plain_anchored path start text :
  plain path = true ->
  match_here (path_items path ++ [Eol]) start text
  = String.eqb text path || String.eqb text (path +:+ Re.NL).
Proof.
  revert start text. induction path as [|c t IH]; intros start text Hp.
  - change (at_end text && true
            = String.eqb text "" || String.eqb text (String LF "")).
    destruct text as [|d [|e u]]; [reflexivity| |].
    + rewrite eqb_cons. reflexivity.
    + rewrite !eqb_cons. cbn [String.eqb]. rewrite andb_false_r. reflexivity.
  - destruct (plain_cons c t Hp) as [Hc Ht].
    cbn [path_items app]. rewrite Hc.
    destruct text as [|d u]; [reflexivity|].
    cbn [match_here atom_ok]. rewrite (IH false u Ht), append_cons, !eqb_cons.
    destruct (Ascii.eqb d c); reflexivity.
Qed.

End MatchFacts.

Section PatternTheorems.
Import Re RobotsDirective PatternForm PatternFacts PatternKinds MatchFacts.

Lemma matches_compiled path allow p :
  matches (new path allow) p = match_here (compiled path) true p.
Proof.
  unfold matches, new. cbn [pattern]. rewrite _compile_pattern_total. reflexivity.
Qed.

Lemma match_bol r p : match_here (Bol :: r) true p = match_here r true p.
Proof. reflexivity. Qed.

(** X1.  Whatever the path of a directive, [re.compile] accepts the
    pattern text that [_compile_pattern] builds, and the compiled pattern
    is: the start anchor, then for each character of the path [.*] for a
    [*], the end anchor for a [$] and the character itself otherwise, then
    a closing [.*] unless the path ends in [$] or [*]. *)
Theorem robots_pattern_always_compiles (path : string) (allow : bool) :
  pattern (new path allow)
  = Some (Bol :: path_items path
              ++ (if negb (Str.endswith path "$") && negb (Str.endswith path "*")
                  then [Star Dot] else [])).
Proof. apply _compile_pattern_total. Qed.

(** X2.  A directive whose path has neither [*] nor [$] matches exactly
    the request paths that start with it. *)
Theorem plain_directive_matches_prefixes (path : string) (allow : bool) (p : string) :
  plain path = true ->
  matches (new path allow) p = Str.startswith p path.
Proof.
  intros Hp. rewrite matches_compiled. unfold compiled.
  rewrite (plain_open_ended path Hp), match_bol.
  apply match_plain_prefix, Hp.
Qed.

Lemma plain_directive_matches_prefixes_witness :
  matches (new "/private/" false) "/private/other" = true.
Proof.
  rewrite (plain_directive_matches_prefixes "/private/" false "/private/other");
    reflexivity.
Defined.

(** X3.  A directive whose path is a text without [*] and [$] followed by
    one [$] matches that text itself and that text followed by a single
    newline, and nothing else. *)
Theorem anchored_directive_matches_exactly (path : string) (allow : bool) (p : string) :
  plain path = true ->
  matches (new (path +:+ "$") allow) p
  = String.eqb p path || String.eqb p (path +:+ Re.NL).
Proof.
  intros Hp. rewrite matches_compiled. unfold compiled, open_ended.
  rewrite (endswith_app path "$"). cbn [negb andb].
  rewrite app_nil_r, match_bol, path_items_app.
  apply match_plain_anchored, Hp.
Qed.

Lemma anchored_directive_matches_exactly_witness :
  matches (new "/index.php$" false) "/index.php" = true
  /\ matches (new "/index.php$" false) "/index.php?x=1" = false.
Proof.
  split.
  - exact (eq_trans
             (anchored_directive_matches_exactly "/index.php" false "/index.php"
                eq_refl)
             eq_refl).
  - exact (eq_trans
             (anchored_directive_matches_exactly "/index.php" false
                "/index.php?x=1" eq_refl)
             eq_refl).
Defined.

(** X4.  For a path that ends neither in [*] nor in [$], writing a [*]
    after it changes nothing in what the directive matches (the compiled
    patterns are the same), but makes its pattern string one character
    longer in the comparison of lengths. *)
Theorem trailing_star_is_redundant (path : string) (allow : bool) :
  Str.endswith path "*" = false ->
  Str.endswith path "$" = false ->
  pattern (new (path +:+ "*") allow) = pattern (new path allow)
  /\ (forall p, matches (new (path +:+ "*") allow) p = matches (new path allow) p)
  /\ String.length (RobotsDirective.path (new (path +:+ "*") allow))
     = S (String.length (RobotsDirective.path (new path allow))).
Proof.
  intros Hs Hd.
  assert (Hpat : pattern (new (path +:+ "*") allow) = pattern (new path allow)).
  { unfold new. cbn [pattern]. rewrite !_compile_pattern_total. f_equal.
    unfold compiled, open_ended.
    rewrite (endswith_app path "*"), Hs, Hd, andb_false_r. cbn [negb andb].
    rewrite app_nil_r, path_items_app. reflexivity. }
  split; [exact Hpat|]. split.
  - intros p. unfold matches. rewrite Hpat. reflexivity.
  - cbn [RobotsDirective.path new]. clear.
    induction path as [|c t IH]; [reflexivity|].
    rewrite append_cons. cbn [String.length]. rewrite IH. reflexivity.
Qed.

Lemma trailing_star_is_redundant_witness :
  matches (new "/fish*" false) "/fishing" = matches (new "/fish" false) "/fishing".
Proof.
  exact (proj1 (proj2 (trailing_star_is_redundant "/fish" false eq_refl eq_refl))
               "/fishing").
Defined.

End PatternTheorems.

Module OrderFacts.
Import UserAgentRules BestMatch PatternKinds.

Lemma ordered_state_step ds p st d :
  ordered_state ds p st -> ordered_state (ds ++ [d]) p (best_step p st d).
Proof.
  unfold ordered_state, best_step. destruct st as [[b|] n]; simpl fst; simpl snd.
  - intros [-> (l1 & l2 & -> & Hm & Hb & Ha)].
    destruct (RobotsDirective.matches d p) eqn:Hd.
    + fold (len d).
      destruct (Z.gtb_spec (Z.of_nat (len d)) (Z.of_nat (len b))) as [Hgt|Hle];
        simpl fst; simpl snd; (split; [reflexivity|]).
      * exists (l1 ++ b :: l2), []. split; [reflexivity|]. split; [exact Hd|].
        split; [|intros d' []].
        intros d' [H'|[<-|H']]%in_app_or Hm'; [|lia|].
        -- specialize (Hb d' H' Hm'). lia.
        -- specialize (Ha d' H' Hm'). lia.
      * exists l1, (l2 ++ [d]). split; [rewrite <- app_assoc; reflexivity|].
        split; [exact Hm|]. split; [exact Hb|].
        intros d' [H'|[<-|[]]]%in_app_or Hm'; [exact (Ha d' H' Hm')|lia].
    + simpl fst; simpl snd. split; [reflexivity|].
      exists l1, (l2 ++ [d]). split; [rewrite <- app_assoc; reflexivity|].
      split; [exact Hm|]. split; [exact Hb|].
      intros d' [H'|[<-|[]]]%in_app_or Hm'; [exact (Ha d' H' Hm')|congruence].
  - intros [-> Hnone]. destruct (RobotsDirective.matches d p) eqn:Hd.
    + fold (len d).
      destruct (Z.gtb_spec (Z.of_nat (len d)) (-1)) as [Hgt|Hle]; [|lia].
      simpl fst; simpl snd. split; [reflexivity|].
      exists ds, []. split; [reflexivity|]. split; [exact Hd|].
      split; [|intros d' []].
      intros d' H' Hm'. rewrite (Hnone d' H') in Hm'. discriminate.
    + simpl fst; simpl snd. split; [reflexivity|].
      intros d' [H'|[<-|[]]]%in_app_or; [exact (Hnone d' H')|exact Hd].
Qed.

Lemma ordered_state_fold ds p :
  ordered_state ds p (fold_left (best_step p) ds (None, (-1)%Z)).
Proof.
  induction ds as [|d ds IH] using rev_ind.
  - simpl. split; [reflexivity|]. intros d [].
  - rewrite fold_left_app. simpl. apply ordered_state_step, IH.
Qed.

End OrderFacts.

Section FirstLongest.
Import UserAgentRules BestMatch BestMatchFacts PatternKinds OrderFacts.

(** X5.  When some directive matches the path, the directive that decides
    is the first declared among the matching directives with the longest
    pattern string: every matching directive declared before it has a
    strictly shorter pattern, every one declared after it has a pattern
    that is not longer.  Between equally long matching patterns the
    earlier line wins. *)
Theorem first_declared_longest_match_decides (r : UserAgentRules.t) (p : string) :
  (exists d, In d (directives r) /\ RobotsDirective.matches d p = true) ->
  exists d, first_longest_match (directives r) p d
            /\ is_allowed r p = RobotsDirective.allow d.
Proof.
  intros (d0 & Hin0 & Hm0). rewrite is_allowed_best. unfold best_match.
  pose proof (ordered_state_fold (directives r) p) as H. unfold ordered_state in H.
  destruct (fst _) as [b|].
  - exists b. split; [apply H|reflexivity].
  - destruct H as [_ Hnone]. rewrite (Hnone d0 Hin0) in Hm0. discriminate.
Qed.

Lemma first_declared_longest_match_decides_witness :
  exists d, first_longest_match
              [RobotsDirective.new "/a" false; RobotsDirective.new "/a" true]
              "/a/b" d
            /\ is_allowed
                 (UserAgentRules.add_directive
                    (UserAgentRules.add_directive (UserAgentRules.new "*") "/a" false)
                    "/a" true)
                 "/a/b"
               = RobotsDirective.allow d.
Proof.
  apply (first_declared_longest_match_decides
           (UserAgentRules.add_directive
              (UserAgentRules.add_directive (UserAgentRules.new "*") "/a" false)
              "/a" true) "/a/b").
  exists (RobotsDirective.new "/a" false). split; [left; reflexivity|reflexivity].
Defined.

End FirstLongest.

(* --------------------------------------------------------------------- *)
(** ** Invariants of RobotsParser.parse                                   *)
(* --------------------------------------------------------------------- *)

Module ParseFacts.
Import RobotsParser.

Lemma in_list_false x l : in_list x l = false -> ~ In x l.
Proof.
  unfold in_list. intros H Hin.
  assert (existsb (String.eqb x) l = true) as E.
  { apply existsb_exists. exists x. split; [exact Hin|apply String.eqb_refl]. }
  congruence.
Qed.

Lemma ensure_lookup ua rules k :
  ensure ua rules !! k =
  match rules !! ua with
  | Some _ => rules !! k
  | None => if decide (ua = k) then Some (UserAgentRules.new ua) else rules !! k
  end.
Proof.
  unfold ensure. destruct (rules !! ua) eqn:E; [reflexivity|].
  rewrite lookup_insert. reflexivity.
Qed.

Lemma good_ensure ua rules : good_table rules -> good_table (ensure ua rules).
Proof.
  intros Hg k r. rewrite ensure_lookup.
  destruct (rules !! ua) eqn:E; [apply Hg|].
  destruct (decide (ua = k)) as [->|]; [|apply Hg].
  intros [= <-]. split; [reflexivity|]. intros d [].
Qed.

Lemma good_alter f ua rules :
  (forall k r, good_rules k r -> good_rules k (f r)) ->
  good_table rules -> good_table (alter f ua rules).
Proof.
  intros Hf Hg k r. rewrite lookup_alter.
  destruct (decide (ua = k)) as [->|]; [|apply Hg].
  destruct (rules !! k) as [r0|] eqn:E; [|discriminate].
  intros [= <-]. apply Hf, (Hg k r0 E).
Qed.

Lemma good_add_directive value is_allow k r :
  good_rules k r -> good_rules k (UserAgentRules.add_directive r value is_allow).
Proof.
  intros [Hu Hd]. split; [exact Hu|].
  cbn. intros d [H|[<-|[]]]%in_app_or; [apply Hd, H|reflexivity].
Qed.

Lemma good_attach value is_allow current rules :
  good_table rules ->
  good_table (fold_left (attach_directive value is_allow) current rules).
Proof.
  revert rules. induction current as [|ua rest IH]; intros rules Hg; [exact Hg|].
  cbn [fold_left]. apply IH. unfold attach_directive.
  apply good_alter; [intros k r; apply good_add_directive|apply good_ensure, Hg].
Qed.

Lemma good_update f current rules :
  (forall k r, good_rules k r -> good_rules k (f r)) ->
  good_table rules ->
  good_table (fold_left (update_present f) current rules).
Proof.
  intros Hf. revert rules.
  induction current as [|ua rest IH]; intros rules Hg; [exact Hg|].
  cbn [fold_left]. apply IH. unfold update_present. apply good_alter; assumption.
Qed.

(** The keys of the table only grow. *)
Lemma keys_ensure ua rules k : is_Some (rules !! k) -> is_Some (ensure ua rules !! k).
Proof.
  rewrite ensure_lookup. destruct (rules !! ua); [auto|].
  destruct (decide (ua = k)); [eauto|auto].
Qed.

Lemma keys_ensure_self ua rules : is_Some (ensure ua rules !! ua).
Proof.
  rewrite ensure_lookup. destruct (rules !! ua) eqn:E; [eauto|].
  rewrite decide_True by reflexivity. eauto.
Qed.

Lemma keys_alter (f : UserAgentRules.t -> UserAgentRules.t) (ua : string)
    (rules : gmap string UserAgentRules.t) (k : string) :
  is_Some (rules !! k) -> is_Some (alter f ua rules !! k).
Proof.
  rewrite lookup_alter. destruct (decide (ua = k)) as [->|]; [|auto].
  intros [r ->]. eauto.
Qed.

Lemma keys_attach value is_allow current rules k :
  is_Some (rules !! k) ->
  is_Some (fold_left (attach_directive value is_allow) current rules !! k).
Proof.
  revert rules. induction current as [|ua rest IH]; intros rules Hk; [exact Hk|].
  cbn [fold_left]. apply IH. unfold attach_directive.
  apply keys_alter, keys_ensure, Hk.
Qed.

Lemma keys_update f current rules k :
  is_Some (rules !! k) ->
  is_Some (fold_left (update_present f) current rules !! k).
Proof.
  revert rules. induction current as [|ua rest IH]; intros rules Hk; [exact Hk|].
  cbn [fold_left]. apply IH. unfold update_present. apply keys_alter, Hk.
Qed.

End ParseFacts.

Module ParseInvariant.
Import RobotsParser ParseFacts.

Lemma inv_add_error p cur msg :
  parser_invariant (p, cur) -> parser_invariant (add_error p msg, cur).
Proof. intros H. exact H. Qed.

Lemma inv_set_rules p cur rules cur' :
  good_table rules ->
  (forall ua, In ua cur' -> is_Some (rules !! ua)) ->
  parser_invariant (p, cur) -> parser_invariant (set_rules p rules, cur').
Proof.
  intros Hg Hk (Hnd & Hne & _ & _). split; [exact Hnd|]. split; [exact Hne|].
  split; [exact Hg|exact Hk].
Qed.

Lemma inv_add_sitemap p cur value :
  Str.is_empty value = false -> ~ In value (sitemaps p) ->
  parser_invariant (p, cur) -> parser_invariant (add_sitemap p value, cur).
Proof.
  intros Hv Hnew (Hnd & Hne & Hg & Hk). split; [|split; [|split; [exact Hg|exact Hk]]].
  - cbn. apply NoDup_app. split; [exact Hnd|]. split.
    + intros x Hx Hx'. apply list_elem_of_In in Hx.
      apply list_elem_of_In in Hx'. destruct Hx' as [<-|[]]. contradiction.
    + apply NoDup_singleton.
  - cbn. intros [Hin|[E|[]]]%in_app_or; [contradiction|].
    subst value. discriminate.
Qed.

Lemma parse_line_invariant n raw st :
  parser_invariant st -> parser_invariant (parse_line n raw st).
Proof.
  intros Hinv. unfold parse_line. destruct st as [p cur]. cbv zeta.
  destruct (Str.is_empty _); [exact Hinv|].
  destruct (Str.split1 ":" _) as [[directive value]|]; [|exact Hinv].
  pose proof Hinv as (_ & _ & Hg & Hk). cbn [fst snd] in Hg, Hk.
  destruct (String.eqb _ "user-agent").
  { apply (inv_set_rules p cur); [apply good_ensure, Hg| |exact Hinv].
    intros ua Hua.
    destruct (previous_block_had_directives _ cur).
    - destruct Hua as [<-|[]]. apply keys_ensure_self.
    - apply in_app_or in Hua as [Hua|[<-|[]]];
        [apply keys_ensure, Hk, Hua|apply keys_ensure_self]. }
  destruct (String.eqb _ "disallow" || String.eqb _ "allow").
  { destruct cur as [|c0 cur0] eqn:Ecur; [exact Hinv|]. rewrite <- Ecur in *.
    apply (inv_set_rules p cur); [apply good_attach, Hg| |exact Hinv].
    intros ua Hua. apply keys_attach, Hk, Hua. }
  destruct (String.eqb _ "crawl-delay").
  { destruct (PyNum.float _); [|exact Hinv].
    apply (inv_set_rules p cur); [| |exact Hinv].
    - apply good_update; [|exact Hg]. intros k r Hr. exact Hr.
    - intros ua Hua. apply keys_update, Hk, Hua. }
  destruct (String.eqb _ "request-rate").
  { destruct (Str.split "/" _) as [|a [|b [|c l]]]; try exact Hinv.
    destruct (PyNum.int a), (PyNum.int b); try (exact Hinv).
    apply (inv_set_rules p cur); [| |exact Hinv].
    - apply good_update; [|exact Hg]. intros k r Hr. exact Hr.
    - intros ua Hua. apply keys_update, Hk, Hua. }
  destruct (String.eqb _ "sitemap").
  { destruct (negb (Str.is_empty _) && negb (in_list _ _)) eqn:E; [|exact Hinv].
    apply andb_true_iff in E as [E1 E2].
    apply negb_true_iff in E1, E2.
    apply (inv_add_sitemap p cur); [exact E1|apply in_list_false, E2|exact Hinv]. }
  destruct (String.eqb _ "host"); [exact Hinv|exact Hinv].
Qed.

Lemma parse_line_frame n raw st :
  same_frame (fst st) (fst (parse_line n raw st)).
Proof.
  unfold parse_line. destruct st as [p cur]. cbv zeta.
  repeat match goal with
         | |- context [match ?x with _ => _ end] => destruct x
         end;
    repeat split; reflexivity.
Qed.

Lemma parse_lines_invariant lines n st :
  parser_invariant st -> parser_invariant (parse_lines n lines st).
Proof.
  revert n st. induction lines as [|l ls IH]; intros n st H; [exact H|].
  cbn [parse_lines]. apply IH, parse_line_invariant, H.
Qed.

Lemma parse_lines_frame lines n st :
  same_frame (fst st) (fst (parse_lines n lines st)).
Proof.
  revert n st. induction lines as [|l ls IH]; intros n st.
  - repeat split; reflexivity.
  - cbn [parse_lines].
    destruct (parse_line_frame n l st) as (H1 & H2 & H3 & H4).
    destruct (IH (S n) (parse_line n l st)) as (K1 & K2 & K3 & K4).
    repeat split; congruence.
Qed.

Lemma parse_line_reframe f n raw p cur :
  parse_line n raw (reframe f p, cur)
  = (reframe f (fst (parse_line n raw (p, cur))), snd (parse_line n raw (p, cur))).
Proof.
  unfold parse_line. cbv zeta.
  change (user_agent_rules (reframe f p)) with (user_agent_rules p).
  change (sitemaps (reframe f p)) with (sitemaps p).
  repeat match goal with
         | |- context [match ?x with _ => _ end] => destruct x
         end;
    reflexivity.
Qed.

Lemma parse_lines_reframe f lines n p cur :
  parse_lines n lines (reframe f p, cur)
  = (reframe f (fst (parse_lines n lines (p, cur))),
     snd (parse_lines n lines (p, cur))).
Proof.
  revert n p cur. induction lines as [|l ls IH]; intros n p cur; [reflexivity|].
  cbn [parse_lines]. rewrite parse_line_reframe.
  destruct (parse_line n l (p, cur)) as [p1 cur1]. cbn [fst snd]. apply IH.
Qed.

(** The rules, sitemaps and errors that [parse] produces depend on the
    text alone. *)
Lemma parse_reframe p q content :
  parse q content
  = reframe (mk (timeout q) ∅ [] content [] (url q) (last_fetched q))
            (parse p content).
Proof.
  unfold parse.
  change (mk (timeout q) ∅ [] content [] (url q) (last_fetched q))
    with (reframe (mk (timeout q) ∅ [] content [] (url q) (last_fetched q))
                  (mk (timeout p) ∅ [] content [] (url p) (last_fetched p))) at 1.
  rewrite parse_lines_reframe. reflexivity.
Qed.

End ParseInvariant.

Section ParseTheorems.
Import RobotsParser ParseFacts ParseInvariant.

Lemma parse_state_invariant p content :
  parser_invariant
    (parse_lines 1 (Str.split Re.LF content)
       (mk (timeout p) ∅ [] content [] (url p) (last_fetched p), [])).
Proof.
  apply parse_lines_invariant. split; [apply NoDup_nil_2|]. split; [intros []|].
  split; [|intros ua []]. intros ua r. cbn. rewrite lookup_empty. discriminate.
Qed.

(** X6.  After [parse], whatever the text: the list of sitemaps has no
    repetition and no empty entry; every rule set is stored under the user
    agent it carries; and every directive in every rule set is what
    [RobotsDirective(path, allow)] builds from its path, so it carries a
    compiled pattern. *)
Theorem parse_result_is_well_formed (p : RobotsParser.t) (content : string) :
  NoDup (sitemaps (parse p content))
  /\ ~ In "" (sitemaps (parse p content))
  /\ forall ua r, user_agent_rules (parse p content) !! ua = Some r ->
       UserAgentRules.user_agent r = ua
       /\ forall d, In d (UserAgentRules.directives r) ->
            RobotsDirective.pattern d
              = RobotsDirective._compile_pattern (RobotsDirective.path d)
            /\ RobotsDirective.pattern d <> None.
Proof.
  destruct (parse_state_invariant p content) as (Hnd & Hne & Hg & _).
  split; [exact Hnd|]. split; [exact Hne|].
  intros ua r Hr. destruct (Hg ua r Hr) as [Hu Hd]. split; [exact Hu|].
  intros d Hin. rewrite (Hd d Hin). cbn [RobotsDirective.pattern RobotsDirective.new
                                         RobotsDirective.path].
  split; [reflexivity|]. rewrite PatternFacts._compile_pattern_total. discriminate.
Qed.

(** X7.  [parse] starts from scratch: the result keeps the text as
    [raw_content] and the timeout, URL and fetch time of the parser, and
    nothing else of the parser it is called on, so that parsing a second
    text gives what parsing that text alone gives. *)
Theorem parse_starts_from_scratch (p : RobotsParser.t) (first second : string) :
  raw_content (parse p second) = second
  /\ timeout (parse p second) = timeout p
  /\ url (parse p second) = url p
  /\ last_fetched (parse p second) = last_fetched p
  /\ parse (parse p first) second = parse p second.
Proof.
  assert (Hf : forall q c, same_frame
                 (mk (timeout q) ∅ [] c [] (url q) (last_fetched q)) (parse q c)).
  { intros q c. unfold parse.
    exact (parse_lines_frame (Str.split Re.LF c) 1
             (mk (timeout q) ∅ [] c [] (url q) (last_fetched q), [])). }
  destruct (Hf p second) as (H1 & H2 & H3 & H4). cbn in H1, H2, H3, H4.
  split; [congruence|]. split; [congruence|]. split; [congruence|].
  split; [congruence|].
  destruct (Hf p first) as (K1 & K2 & K3 & K4). cbn in K1, K2, K3, K4.
  unfold parse at 1 3. rewrite <- K1, <- K3, <- K4. reflexivity.
Qed.

End ParseTheorems.

Lemma parse_result_is_well_formed_witness :
  UserAgentRules.user_agent private_rules = "*".
Proof.
  apply (proj2 (proj2 (parse_result_is_well_formed (RobotsParser.new 10)
                         private_robots_txt)) "*" private_rules).
  vm_compute. reflexivity.
Defined.

(* --------------------------------------------------------------------- *)
(** ** test_path, fetch_and_parse, the manager and the tracker            *)
(* --------------------------------------------------------------------- *)

Section TestPath.
Context `{UrlLib}.
Import RobotsTest BestMatchFacts.

(** X8.  [test_path] decides as [is_allowed] does.  Its [allowed] entry
    is the answer of the rule set selected for the agent (the agent's own,
    else the one of [*], else everything is allowed) on the path with a
    leading [/] put in front when it has none; a rule is reported exactly
    when some directive of that rule set matches; and for a URL whose path
    starts with [/] and whose query is empty it is the answer of
    [RobotsParser.is_allowed] on that URL. *)
Theorem test_path_agrees_with_is_allowed
    (p : RobotsParser.t) (path user_agent : string) :
  allowed (test_path p path user_agent)
  = match RobotsParser.get_rules_for_user_agent p user_agent with
    | Some rules => UserAgentRules.is_allowed rules (rooted path)
    | None => true
    end
  /\ (matched_rule (test_path p path user_agent) <> None <->
      exists rules d,
        RobotsParser.get_rules_for_user_agent p user_agent = Some rules
        /\ In d (UserAgentRules.directives rules)
        /\ RobotsDirective.matches d (rooted path) = true)
  /\ (forall target,
        Url.path (urlparse target) = path ->
        Url.query (urlparse target) = "" ->
        Str.startswith path "/" = true ->
        RobotsParser.is_allowed p target user_agent
        = allowed (test_path p path user_agent)).
Proof.
  assert (Hallowed :
    allowed (test_path p path user_agent)
    = match RobotsParser.get_rules_for_user_agent p user_agent with
      | Some rules => UserAgentRules.is_allowed rules (rooted path)
      | None => true
      end).
  { unfold test_path.
    destruct (RobotsParser.get_rules_for_user_agent p user_agent) as [rules|];
      [|reflexivity].
    rewrite is_allowed_best.
    destruct (UserAgentRules.best_match _ _); reflexivity. }
  split; [exact Hallowed|]. split.
  - unfold test_path.
    destruct (RobotsParser.get_rules_for_user_agent p user_agent) as [rules|].
    + destruct (UserAgentRules.best_match _ _) as [b|] eqn:Hb; cbn [matched_rule].
      * split; [intros _|discriminate].
        apply best_match_some in Hb. destruct Hb as (Hin & Hm & _).
        exists rules, b. split; [reflexivity|]. split; assumption.
      * split; [intros Hn; contradiction|].
        intros (rules' & d & [= <-] & Hin & Hm).
        rewrite best_match_none in Hb. rewrite (Hb d Hin) in Hm. discriminate.
    + cbn [matched_rule]. split; [intros Hn; contradiction|].
      intros (rules' & d & Hr & _). discriminate.
  - intros target Hpath Hquery Hroot. rewrite Hallowed.
    unfold RobotsParser.is_allowed, RobotsParser.get_rules_for_user_agent, rooted.
    rewrite Hpath, Hquery, Hroot. cbn [Str.is_empty].
    destruct (RobotsParser.user_agent_rules p !! user_agent); [reflexivity|].
    destruct (RobotsParser.user_agent_rules p !! "*"); reflexivity.
Qed.

End TestPath.

Lemma test_path_agrees_with_is_allowed_witness :
  @RobotsParser.is_allowed sample_urlparse
    (RobotsParser.parse (RobotsParser.new 10) private_robots_txt)
    "https://example.com/private/other" "NewtBot"
  = RobotsTest.allowed
      (RobotsTest.test_path
         (RobotsParser.parse (RobotsParser.new 10) private_robots_txt)
         "/private/other" "NewtBot").
Proof.
  apply (proj2 (proj2 (@test_path_agrees_with_is_allowed sample_urlparse
                         (RobotsParser.parse (RobotsParser.new 10) private_robots_txt)
                         "/private/other" "NewtBot")));
    reflexivity.
Defined.

Section FetchOutcomes.
Context `{UrlLib}.
Import RobotsParser ParseInvariant.

(** X9.  A fetch that does not end in a 200 never clears what the parser
    holds: on a 404 the rules, sitemaps and recorded errors stay as they
    were (only [raw_content] becomes empty) and the call succeeds; on any
    other status, a timeout or another failure the call fails, exactly one
    message is added to the errors, and rules, sitemaps and raw content
    stay as they were.  A 200 gives the rules, sitemaps and errors that
    [parse] gives on the body, and sets the fetch time. *)
Theorem fetch_and_parse_outcomes
    (p : RobotsParser.t) (target now : string) (outcome : FetchOutcome) :
  let q := fst (fetch_and_parse p target outcome now) in
  let ok := snd (fetch_and_parse p target outcome now) in
  match outcome with
  | Response status text =>
      if (status =? 200)%Z then
        ok = true
        /\ user_agent_rules q = user_agent_rules (parse p text)
        /\ sitemaps q = sitemaps (parse p text)
        /\ parse_errors q = parse_errors (parse p text)
        /\ raw_content q = text
        /\ last_fetched q = Some now
      else if (status =? 404)%Z then
        ok = true
        /\ user_agent_rules q = user_agent_rules p
        /\ sitemaps q = sitemaps p
        /\ parse_errors q = parse_errors p
        /\ raw_content q = ""
        /\ last_fetched q = last_fetched p
      else
        ok = false
        /\ user_agent_rules q = user_agent_rules p
        /\ sitemaps q = sitemaps p
        /\ parse_errors q = parse_errors p ++ ["HTTP " +:+ pretty status]
        /\ raw_content q = raw_content p
        /\ last_fetched q = last_fetched p
  | _ =>
      ok = false
      /\ user_agent_rules q = user_agent_rules p
      /\ sitemaps q = sitemaps p
      /\ (exists msg, parse_errors q = parse_errors p ++ [msg])
      /\ raw_content q = raw_content p
      /\ last_fetched q = last_fetched p
  end.
Proof.
  cbv zeta. destruct outcome as [status text| |msg|msg].
  - unfold fetch_and_parse. cbv zeta.
    destruct (status =? 200)%Z.
    + cbn [fst snd timeout user_agent_rules sitemaps raw_content parse_errors
           url last_fetched].
      rewrite (parse_reframe p _ text).
      repeat split; reflexivity.
    + destruct (status =? 404)%Z; repeat split; reflexivity.
  - repeat split; try reflexivity. eexists. reflexivity.
  - repeat split; try reflexivity. eexists. reflexivity.
  - repeat split; try reflexivity. eexists. reflexivity.
Qed.

End FetchOutcomes.

Section ManagerTheorems.
Context `{UrlLib}.
Import CustomRobotsManager ManagerFacts.

(** X10.  After [add_subdomain(subdomain, content)] the stored text of
    that subdomain is [content], the other subdomains keep theirs, and a
    URL of that subdomain is judged by the rules parsed from [content]
    alone, whatever the manager held for it before; URLs of other
    subdomains are judged as before. *)
Theorem add_subdomain_overrides (m : CustomRobotsManager.t)
    (subdomain content : string) :
  get_subdomain_content (add_subdomain m subdomain content) subdomain = Some content
  /\ (forall other, other <> subdomain ->
        get_subdomain_content (add_subdomain m subdomain content) other
        = get_subdomain_content m other)
  /\ (forall target user_agent,
        Url.netloc (urlparse target) = subdomain ->
        is_allowed (add_subdomain m subdomain content) target user_agent
        = RobotsParser.is_allowed (parsed content) target user_agent)
  /\ (forall target user_agent,
        Url.netloc (urlparse target) <> subdomain ->
        is_allowed (add_subdomain m subdomain content) target user_agent
        = is_allowed m target user_agent).
Proof.
  split; [|split; [|split]].
  - unfold get_subdomain_content, add_subdomain. cbn. apply lookup_insert_eq.
  - intros other Hne. unfold get_subdomain_content, add_subdomain. cbn.
    apply lookup_insert_ne. congruence.
  - intros target user_agent Hn. unfold is_allowed, add_subdomain. cbn.
    rewrite Hn, lookup_insert_eq. reflexivity.
  - intros target user_agent Hn. unfold is_allowed, add_subdomain. cbn.
    rewrite lookup_insert_ne by congruence. reflexivity.
Qed.

(** X11.  For a manager that the methods can produce,
    [remove_subdomain] answers [True] exactly when the subdomain had an
    override; afterwards the subdomain has none and its URLs are all
    allowed, while the other subdomains keep their texts; and removing a
    subdomain that was added to a manager without it gives that manager
    back. *)
Theorem remove_subdomain_drops_override (m : CustomRobotsManager.t)
    (subdomain : string) :
  reachable m ->
  (snd (remove_subdomain m subdomain) = true
   <-> is_Some (get_subdomain_content m subdomain))
  /\ get_subdomain_content (fst (remove_subdomain m subdomain)) subdomain = None
  /\ (forall other, other <> subdomain ->
        get_subdomain_content (fst (remove_subdomain m subdomain)) other
        = get_subdomain_content m other)
  /\ (forall target user_agent,
        Url.netloc (urlparse target) = subdomain ->
        is_allowed (fst (remove_subdomain m subdomain)) target user_agent = true)
  /\ (forall content,
        get_subdomain_content m subdomain = None ->
        fst (remove_subdomain (add_subdomain m subdomain content) subdomain) = m).
Proof.
  intros Hm. pose proof (reachable_parsers m Hm) as Hp.
  unfold get_subdomain_content, remove_subdomain.
  split; [|split; [|split; [|split]]].
  - destruct (custom_robots m !! subdomain) eqn:E; cbn [snd].
    + split; [eauto|reflexivity].
    + split; [discriminate|]. intros [x Hx]. discriminate.
  - destruct (custom_robots m !! subdomain) eqn:E; cbn [fst custom_robots].
    + apply lookup_delete_eq.
    + exact E.
  - intros other Hne.
    destruct (custom_robots m !! subdomain) eqn:E; cbn [fst custom_robots].
    + apply lookup_delete_ne. congruence.
    + reflexivity.
  - intros target user_agent Hn. unfold is_allowed. rewrite Hn.
    destruct (custom_robots m !! subdomain) eqn:E; cbn [fst parsers].
    + rewrite lookup_delete_eq. reflexivity.
    + rewrite Hp, lookup_fmap, E. reflexivity.
  - intros content Hnone. unfold add_subdomain. cbn [custom_robots parsers].
    rewrite lookup_insert_eq. cbn [fst].
    rewrite !delete_insert_id; [destruct m; reflexivity| |exact Hnone].
    rewrite Hp, lookup_fmap, Hnone. reflexivity.
Qed.

(** X12.  For a manager that the methods can produce, the parser kept
    for a subdomain is always the parse of the text stored for it: the
    two tables have the same subdomains, and [is_allowed] on a URL is the
    answer of the rules parsed from the text stored for the URL's
    subdomain, or [True] when no text is stored for it. *)
Theorem manager_parsers_follow_texts (m : CustomRobotsManager.t) :
  reachable m ->
  (forall subdomain,
      parsers m !! subdomain = parsed <$> custom_robots m !! subdomain)
  /\ (forall target user_agent,
        is_allowed m target user_agent
        = match get_subdomain_content m (Url.netloc (urlparse target)) with
          | Some content =>
              RobotsParser.is_allowed (parsed content) target user_agent
          | None => true
          end).
Proof.
  intros Hm. pose proof (reachable_parsers m Hm) as Hp. split.
  - intros subdomain. rewrite Hp, lookup_fmap. reflexivity.
  - intros target user_agent. unfold is_allowed, get_subdomain_content.
    rewrite Hp, lookup_fmap.
    destruct (custom_robots m !! Url.netloc (urlparse target)); reflexivity.
Qed.

End ManagerTheorems.

Lemma add_subdomain_overrides_witness :
  @CustomRobotsManager.is_allowed sample_urlparse
     (CustomRobotsManager.add_subdomain sample_manager "shop.example.com"
        bare_disallow_txt)
     "https://shop.example.com/private/public.html" "*"
  = @RobotsParser.is_allowed sample_urlparse
      (CustomRobotsManager.parsed bare_disallow_txt)
      "https://shop.example.com/private/public.html" "*".
Proof.
  apply (proj1 (proj2 (proj2 (@add_subdomain_overrides sample_urlparse
                                 sample_manager "shop.example.com"
                                 bare_disallow_txt)))).
  reflexivity.
Defined.

Lemma remove_subdomain_drops_override_witness :
  fst (CustomRobotsManager.remove_subdomain sample_manager "shop.example.com")
  = CustomRobotsManager.new.
Proof.
  apply (proj2 (proj2 (proj2 (proj2
           (@remove_subdomain_drops_override sample_urlparse
              CustomRobotsManager.new "shop.example.com"
              CustomRobotsManager.reach_new)))) private_robots_txt).
  reflexivity.
Defined.

Lemma manager_parsers_follow_texts_witness :
  CustomRobotsManager.parsers sample_manager !! "shop.example.com"
  = Some (CustomRobotsManager.parsed private_robots_txt).
Proof.
  rewrite (proj1 (@manager_parsers_follow_texts sample_urlparse sample_manager
                    (CustomRobotsManager.reach_add _ _ _
                       CustomRobotsManager.reach_new))).
  reflexivity.
Defined.

Module TrackerFacts.
Import RobotsBlockedTracker.

Lemma add_all_lists calls tr :
  blocked_internal (add_all tr calls)
  = blocked_internal tr ++ List.filter is_internal calls
  /\ blocked_external (add_all tr calls)
     = blocked_external tr ++ List.filter (fun e => negb (is_internal e)) calls.
Proof.
  revert tr. induction calls as [|e rest IH]; intros tr.
  - cbn. rewrite !app_nil_r. split; reflexivity.
  - unfold add_all. cbn [fold_left]. fold (add_all (add_blocked tr (url e) (reason e)
                                                     (is_internal e)) rest).
    destruct (IH (add_blocked tr (url e) (reason e) (is_internal e))) as [Hi He].
    rewrite Hi, He. unfold add_blocked. cbn [List.filter].
    destruct e as [u r [|]]; cbn; rewrite <- ?app_assoc; split; reflexivity.
Qed.

End TrackerFacts.

Section TrackerTheorems.
Import RobotsBlockedTracker TrackerFacts.

(** X13.  After any run of [add_blocked] calls on a new tracker, the
    internal list holds the entries recorded as internal and the external
    list the others, each in the order of the calls and each entry once;
    the three counts are the sizes of the two lists and the number of
    calls. *)
Theorem tracker_records_every_call (calls : list Entry) :
  get_blocked_internal (add_all new calls) = List.filter is_internal calls
  /\ get_blocked_external (add_all new calls)
     = List.filter (fun e => negb (is_internal e)) calls
  /\ total (get_blocked_count (add_all new calls)) = length calls
  /\ internal (get_blocked_count (add_all new calls))
     + external (get_blocked_count (add_all new calls))
     = total (get_blocked_count (add_all new calls)).
Proof.
  destruct (add_all_lists calls new) as [Hi He]. cbn in Hi, He.
  unfold get_blocked_internal, get_blocked_external, get_blocked_count.
  cbn [total internal external]. rewrite Hi, He.
  split; [reflexivity|]. split; [reflexivity|]. split; [|reflexivity].
  clear. induction calls as [|e rest IH]; [reflexivity|].
  cbn [List.filter]. destruct (is_internal e); cbn [negb length]; lia.
Qed.

End TrackerTheorems.
(* --------------------------------------------------------------------- *)
(** ** ContentAnalyzer: counts and keywords                               *)
(* --------------------------------------------------------------------- *)

Module AnalyzerFacts.
Import ContentAnalyzer WordCounts.

Lemma vowel_groups_ge count prev word : (count <= vowel_groups count prev word)%Z.
Proof.
  revert count prev. induction word as [|c t IH]; intros count prev; [cbn; lia|].
  cbn [vowel_groups].
  destruct (is_vowel c && negb prev);
    [specialize (IH (count + 1)%Z (is_vowel c))|specialize (IH count (is_vowel c))];
    lia.
Qed.

Lemma syllables_in_word_positive word : (1 <= _count_syllables_in_word word)%Z.
Proof.
  unfold _count_syllables_in_word.
  destruct (String.length (Str.lower word) <=? 3)%nat; [lia|]. apply Z.le_max_l.
Qed.

Lemma fold_sum_ge (f : string -> Z) ws acc :
  (forall w, 1 <= f w)%Z ->
  (acc + Z.of_nat (length ws) <= fold_left (fun c w => c + f w) ws acc)%Z.
Proof.
  intros Hf. revert acc. induction ws as [|w rest IH]; intros acc; [cbn; lia|].
  cbn [fold_left length]. specialize (IH (acc + f w)%Z). specialize (Hf w). lia.
Qed.

Lemma fold_count_le (test : string -> bool) ws acc :
  (acc <= fold_left (fun c w => if test w then c + 1 else c) ws acc
   <= acc + Z.of_nat (length ws))%Z.
Proof.
  revert acc. induction ws as [|w rest IH]; intros acc; [cbn; lia|].
  cbn [fold_left length]. destruct (test w);
    [specialize (IH (acc + 1)%Z)|specialize (IH acc)]; lia.
Qed.

(** The table of counts. *)
Lemma count_of_add w x counts :
  count_of w (count_add x counts)
  = (count_of w counts + if String.eqb x w then 1 else 0)%Z.
Proof.
  induction counts as [|[y n] tl IH].
  - cbn. destruct (String.eqb x w); lia.
  - cbn [count_add]. destruct (String.eqb_spec y x) as [->|Hyx].
    + cbn [count_of]. destruct (String.eqb x w); lia.
    + cbn [count_of]. destruct (String.eqb_spec y w) as [->|Hyw].
      * apply String.eqb_neq in Hyx. rewrite String.eqb_sym, Hyx. lia.
      * exact IH.
Qed.

Lemma keys_count_add x counts :
  List.map fst (count_add x counts)
  = if existsb (String.eqb x) (List.map fst counts)
    then List.map fst counts else List.map fst counts ++ [x].
Proof.
  induction counts as [|[y n] tl IH]; [reflexivity|].
  cbn [count_add List.map fst existsb].
  rewrite (String.eqb_sym x y).
  destruct (String.eqb y x); cbn [orb List.map fst]; [reflexivity|].
  rewrite IH. destruct (existsb _ _); reflexivity.
Qed.

Lemma existsb_eqb_false x l : existsb (String.eqb x) l = false -> ~ In x l.
Proof.
  intros H Hin. assert (existsb (String.eqb x) l = true); [|congruence].
  apply existsb_exists. exists x. split; [exact Hin|apply String.eqb_refl].
Qed.

Lemma nodup_count_add x counts :
  NoDup (List.map fst counts) -> NoDup (List.map fst (count_add x counts)).
Proof.
  intros Hnd. rewrite keys_count_add.
  destruct (existsb _ _) eqn:E; [exact Hnd|].
  apply NoDup_app. split; [exact Hnd|]. split; [|apply NoDup_singleton].
  intros y Hy Hy'. apply list_elem_of_In in Hy, Hy'. destruct Hy' as [<-|[]].
  exact (existsb_eqb_false _ _ E Hy).
Qed.

Lemma counts_positive_add x counts :
  (forall e, In e counts -> 1 <= snd e)%Z ->
  (forall e, In e (count_add x counts) -> 1 <= snd e)%Z.
Proof.
  induction counts as [|[y n] tl IH]; intros Hpos e.
  - cbn. intros [<-|[]]. cbn. lia.
  - cbn [count_add]. destruct (String.eqb y x).
    + intros [<-|He]; [|apply Hpos; right; exact He].
      cbn. specialize (Hpos (y, n) (or_introl eq_refl)). cbn in Hpos. lia.
    + intros [<-|He]; [apply Hpos; left; reflexivity|].
      apply IH; [|exact He]. intros e' He'. apply Hpos. right. exact He'.
Qed.

Lemma keys_in_add x counts k :
  In k (List.map fst (count_add x counts)) -> k = x \/ In k (List.map fst counts).
Proof.
  rewrite keys_count_add. destruct (existsb _ _); [auto|].
  intros [Hk|[<-|[]]]%in_app_or; auto.
Qed.

Lemma occurrences_snoc w l x :
  occurrences w (l ++ [x])
  = (occurrences w l + if String.eqb x w then 1 else 0)%Z.
Proof.
  unfold occurrences. rewrite List.filter_app, length_app. cbn [List.filter].
  rewrite (String.eqb_sym w x). destruct (String.eqb x w); cbn [length]; lia.
Qed.

Lemma counter_spec ws :
  NoDup (List.map fst (counter ws))
  /\ (forall w, count_of w (counter ws) = occurrences w ws)
  /\ (forall e, In e (counter ws) -> 1 <= snd e)%Z
  /\ (forall k, In k (List.map fst (counter ws)) -> In k ws).
Proof.
  unfold counter. induction ws as [|x l IH] using rev_ind.
  - cbn. split; [apply NoDup_nil_2|]. split; [reflexivity|]. split; intros ? [].
  - rewrite fold_left_app. cbn [fold_left].
    destruct IH as (Hnd & Hc & Hpos & Hk).
    split; [apply nodup_count_add, Hnd|]. split; [|split].
    + intros w. rewrite count_of_add, Hc, occurrences_snoc. reflexivity.
    + apply counts_positive_add, Hpos.
    + intros k [->|Hin]%keys_in_add; apply in_or_app; [right; left; reflexivity|].
      left. apply Hk, Hin.
Qed.

Lemma count_of_in w n counts :
  NoDup (List.map fst counts) -> In (w, n) counts -> count_of w counts = n.
Proof.
  induction counts as [|[y m] tl IH]; [intros _ []|].
  cbn [List.map fst]. intros Hnd%NoDup_cons [[= -> ->]|Hin].
  - cbn. rewrite String.eqb_refl. reflexivity.
  - destruct Hnd as [Hy Hnd]. cbn [count_of].
    destruct (String.eqb_spec y w) as [->|_]; [|apply IH; assumption].
    exfalso. apply Hy, list_elem_of_In.
    change w with (fst (w, n)). apply in_map, Hin.
Qed.

End AnalyzerFacts.

Module SortFacts.
Import ContentAnalyzer WordCounts.

Lemma insert_by_count_perm e l : Permutation (insert_by_count e l) (e :: l).
Proof.
  induction l as [|x tl IH]; [reflexivity|].
  cbn [insert_by_count]. destruct (snd x <? snd e)%Z; [reflexivity|].
  rewrite IH. apply perm_swap.
Qed.

Lemma insert_by_count_sorted e l :
  by_decreasing_count l -> by_decreasing_count (insert_by_count e l).
Proof.
  unfold by_decreasing_count. induction l as [|x tl IH]; intros Hs.
  - cbn. constructor; constructor.
  - cbn [insert_by_count]. inversion Hs as [|? ? Htl Hx]; subst.
    destruct (Z.ltb_spec (snd x) (snd e)) as [Hlt|Hge].
    + constructor; [exact Hs|]. constructor; [lia|].
      eapply Forall_impl; [exact Hx|]. cbn. intros a Ha. lia.
    + constructor; [apply IH, Htl|].
      rewrite Forall_forall. intros a Ha%list_elem_of_In.
      apply (Permutation_in _ (insert_by_count_perm e tl)) in Ha.
      destruct Ha as [<-|Ha]; [lia|].
      rewrite Forall_forall in Hx. apply Hx, list_elem_of_In, Ha.
Qed.

Lemma sort_perm counts acc :
  Permutation (fold_left (fun sorted e => insert_by_count e sorted) counts acc)
              (acc ++ counts).
Proof.
  revert acc. induction counts as [|e rest IH]; intros acc.
  - cbn. rewrite app_nil_r. reflexivity.
  - cbn [fold_left]. rewrite IH, insert_by_count_perm.
    change (e :: acc) with ([e] ++ acc).
    rewrite (Permutation_app_comm [e] acc), <- app_assoc. reflexivity.
Qed.

Lemma sort_sorted counts acc :
  by_decreasing_count acc ->
  by_decreasing_count
    (fold_left (fun sorted e => insert_by_count e sorted) counts acc).
Proof.
  revert acc. induction counts as [|e rest IH]; intros acc Hs; [exact Hs|].
  cbn [fold_left]. apply IH, insert_by_count_sorted, Hs.
Qed.

Lemma take_sorted {A} (R : A -> A -> Prop) n l :
  StronglySorted R l -> StronglySorted R (take n l).
Proof.
  revert n. induction l as [|x tl IH]; intros [|n] Hs; cbn; try constructor.
  - inversion Hs; subst. apply IH. assumption.
  - inversion Hs as [|? ? _ Hx]; subst. rewrite Forall_forall in *.
    intros a Ha. apply Hx.
    exact (elem_of_sublist _ _ _ Ha (sublist_take _ _)).
Qed.

Lemma in_take {A} (x : A) n l : In x (take n l) -> In x l.
Proof.
  intros H. apply list_elem_of_In. apply list_elem_of_In in H.
  exact (elem_of_sublist _ _ _ H (sublist_take _ _)).
Qed.

Lemma most_common_spec n counts :
  NoDup (List.map fst counts) ->
  (length (most_common n counts) <= n)%nat
  /\ NoDup (List.map fst (most_common n counts))
  /\ by_decreasing_count (most_common n counts)
  /\ forall e, In e (most_common n counts) -> In e counts.
Proof.
  intros Hnd. unfold most_common.
  set (sorted := fold_left _ counts []).
  assert (Hp : Permutation sorted counts) by apply (sort_perm counts []).
  split; [rewrite length_take; lia|]. split; [|split].
  - apply (sublist_NoDup _ (List.map fst sorted)).
    + assert (Hm : Permutation (List.map fst sorted) (List.map fst counts))
        by apply Permutation_map, Hp.
      rewrite Hm. exact Hnd.
    + rewrite <- List.firstn_map. apply sublist_take.
  - apply take_sorted, sort_sorted. constructor.
  - intros e He. apply (Permutation_in _ Hp), (in_take _ _ _ He).
Qed.

End SortFacts.

Module TextFacts.
Import ContentAnalyzer WordCounts.

Lemma word_char_solid c :
  is_word_char (Str.lower_char c) = true ->
  Str.isspace c = false /\ is_terminator c = false.
Proof.
  destruct c as [[] [] [] [] [] [] [] []]; vm_compute; intros; split; congruence.
Qed.

Lemma no_word_char_no_word s :
  all_chars (fun c => negb (is_word_char c)) s = true ->
  words_from s = (EmptyString, []).
Proof.
  induction s as [|c t IH]; [reflexivity|].
  cbn [all_chars words_from]. intros [Hc Ht]%andb_true_iff.
  rewrite (IH Ht). apply negb_true_iff in Hc. rewrite Hc. reflexivity.
Qed.

Lemma all_chars_lower (p q : ascii -> bool) s :
  (forall c, p c = true -> q (Str.lower_char c) = true) ->
  all_chars p s = true -> all_chars q (Str.lower s) = true.
Proof.
  intros Hpq. induction s as [|c t IH]; [reflexivity|].
  cbn [all_chars Str.lower]. intros [Hc Ht]%andb_true_iff.
  rewrite (Hpq c Hc), (IH Ht). reflexivity.
Qed.

Lemma all_chars_impl (p q : ascii -> bool) s :
  (forall c, p c = true -> q c = true) ->
  all_chars p s = true -> all_chars q s = true.
Proof.
  intros Hpq. induction s as [|c t IH]; [reflexivity|].
  cbn [all_chars]. intros [Hc Ht]%andb_true_iff.
  rewrite (Hpq c Hc), (IH Ht). reflexivity.
Qed.

(** A text without a word has only characters that [\w] rejects once
    lowered. *)
Lemma count_words_zero text :
  _count_words text = 0%Z <->
  all_chars (fun c => negb (is_word_char (Str.lower_char c))) text = true.
Proof.
  unfold _count_words, findall_words. split.
  - intros Hz. induction text as [|c t IH]; [reflexivity|].
    cbn [all_chars Str.lower words_from] in *.
    destruct (words_from (Str.lower t)) as [cur ws] eqn:E.
    destruct (is_word_char (Str.lower_char c)) eqn:Hc; [cbn in Hz; lia|].
    cbn [negb andb]. apply IH.
    cbn [Str.is_empty] in Hz. exact Hz.
  - intros Hall.
    rewrite (no_word_char_no_word (Str.lower text)); [reflexivity|].
    revert Hall. apply all_chars_lower. auto.
Qed.

Lemma rstrip_keeps_solid_head c t :
  Str.isspace c = false ->
  Str.is_empty (Str.rstrip_by Str.isspace (String c t)) = false.
Proof.
  intros Hc. cbn [Str.rstrip_by]. rewrite Hc, andb_false_r. reflexivity.
Qed.

Lemma strip_empty_all_space s :
  Str.is_empty (Str.strip s) = true -> all_chars Str.isspace s = true.
Proof.
  unfold Str.strip. induction s as [|c t IH]; [reflexivity|].
  cbn [Str.lstrip_by all_chars]. destruct (Str.isspace c) eqn:Hc.
  - intros H. rewrite (IH H). reflexivity.
  - rewrite (rstrip_keeps_solid_head c t Hc). discriminate.
Qed.

Lemma blank_text_has_no_word text :
  Str.is_empty text || Str.is_empty (Str.strip text) = true ->
  _count_words text = 0%Z.
Proof.
  intros Hb. apply count_words_zero.
  assert (Hs : all_chars Str.isspace text = true).
  { apply orb_true_iff in Hb. destruct Hb as [Hb|Hb];
      [destruct text; [reflexivity|discriminate]|apply strip_empty_all_space, Hb]. }
  revert Hs. apply all_chars_impl. intros c Hc.
  destruct (is_word_char (Str.lower_char c)) eqn:Hw; [|reflexivity].
  apply word_char_solid in Hw. destruct Hw. congruence.
Qed.

Lemma run_length_mono (p q : ascii -> bool) s :
  (forall c, p c = true -> q c = true) ->
  (run_length p s <= run_length q s)%nat.
Proof.
  intros Hpq. induction s as [|c t IH]; [cbn; lia|].
  cbn [run_length]. destruct (p c) eqn:Hc; [rewrite (Hpq c Hc)|]; lia.
Qed.

Lemma separator_run s :
  (run_length is_terminator s
   + run_length Str.isspace (drop (run_length is_terminator s) s)
   <= run_length sep_char s)%nat.
Proof.
  induction s as [|c t IH]; [cbn; lia|].
  change (run_length is_terminator (String c t))
    with (if is_terminator c then S (run_length is_terminator t) else 0)%nat.
  destruct (is_terminator c) eqn:Hc.
  - change (drop (S (run_length is_terminator t)) (String c t))
      with (drop (run_length is_terminator t) t).
    change (run_length sep_char (String c t))
      with (if sep_char c then S (run_length sep_char t) else 0)%nat.
    unfold sep_char at 1. rewrite Hc. cbn [orb]. lia.
  - change (drop 0 (String c t)) with (String c t). cbn [plus].
    apply run_length_mono. intros x Hx. unfold sep_char. rewrite Hx.
    apply orb_true_r.
Qed.

Lemma separator_length_run s n :
  separator_length s = Some n -> (1 <= n <= run_length sep_char s)%nat.
Proof.
  unfold separator_length. pose proof (separator_run s) as Hr.
  destruct (run_length is_terminator s) as [|m] eqn:Em; [discriminate|].
  destruct (run_length Str.isspace (drop (S m) s)) as [|w].
  - destruct (Str.is_empty _); [|discriminate]. intros [= <-]. lia.
  - intros [= <-]. lia.
Qed.

(** A character that no separator can contain ends up in a piece. *)
Lemma split_keeps_solid text :
  forall skip,
    (skip <= run_length sep_char text)%nat ->
    all_chars sep_char text = false ->
    List.Exists (fun p => all_chars Str.isspace p = false) (split_from skip text).
Proof.
  induction text as [|c t IH]; intros skip Hskip Hsolid; [discriminate|].
  cbn [all_chars run_length] in Hskip, Hsolid.
  cbn [split_from]. destruct skip as [|k].
  - destruct (separator_length (String c t)) as [n|] eqn:En.
    + apply separator_length_run in En. cbn [run_length] in En.
      destruct (sep_char c); [|lia]. cbn [andb] in Hsolid.
      apply List.Exists_cons_tl. apply IH; [lia|exact Hsolid].
    + destruct (Str.isspace c) eqn:Hc.
      * assert (Hs : sep_char c = true) by (unfold sep_char; rewrite Hc; apply orb_true_r).
        rewrite Hs in Hsolid. cbn [andb] in Hsolid.
        specialize (IH 0%nat (Nat.le_0_l _) Hsolid).
        destruct (split_from 0 t) as [|h tl]; inversion IH; subst.
        -- apply List.Exists_cons_hd.
           change (Str.isspace c && all_chars Str.isspace h = false).
           rewrite Hc. assumption.
        -- apply List.Exists_cons_tl. assumption.
      * destruct (split_from 0 t) as [|h tl];
          apply List.Exists_cons_hd;
          change (Str.isspace c && all_chars Str.isspace h = false)
          || change (Str.isspace c && true = false);
          rewrite Hc; reflexivity.
  - destruct (sep_char c); [|lia]. cbn [andb] in Hsolid.
    apply IH; [lia|exact Hsolid].
Qed.

Lemma filter_exists_length {A} (p : A -> bool) l :
  List.Exists (fun x => p x = true) l -> (1 <= length (List.filter p l))%nat.
Proof.
  induction 1 as [x l Hx|x l _ IH]; cbn [List.filter].
  - rewrite Hx. cbn. lia.
  - destruct (p x); cbn [length]; lia.
Qed.

Lemma words_need_sentences text :
  _count_words text <> 0%Z -> (1 <= _count_sentences text)%Z.
Proof.
  intros Hw. unfold _count_sentences, split_sentences.
  assert (Hsolid : all_chars sep_char text = false).
  { destruct (all_chars sep_char text) eqn:E; [|reflexivity].
    exfalso. apply Hw, count_words_zero. revert E. apply all_chars_impl.
    intros c Hc. destruct (is_word_char (Str.lower_char c)) eqn:Hwc; [|reflexivity].
    apply word_char_solid in Hwc. unfold sep_char in Hc.
    destruct Hwc as [H1 H2]. rewrite H1, H2 in Hc. discriminate. }
  pose proof (split_keeps_solid text 0%nat (Nat.le_0_l _) Hsolid) as Hex.
  enough (1 <= length (List.filter (fun s => negb (Str.is_empty (Str.strip s)))
                                   (split_from 0 text)))%nat by lia.
  apply filter_exists_length. eapply List.Exists_impl; [|exact Hex].
  cbn beta. intros p Hp. apply negb_true_iff.
  destruct (Str.is_empty (Str.strip p)) eqn:E; [|reflexivity].
  apply strip_empty_all_space in E. congruence.
Qed.

End TextFacts.

Module KeywordFacts.
Import ContentAnalyzer WordCounts AnalyzerFacts SortFacts.

Lemma count_of_absent w counts :
  ~ In w (List.map fst counts) -> count_of w counts = 0%Z.
Proof.
  induction counts as [|[y n] tl IH]; [reflexivity|].
  cbn [List.map fst In count_of]. intros Hn.
  destruct (String.eqb_spec y w) as [->|_]; [exfalso; apply Hn; left; reflexivity|].
  apply IH. intros Hin. apply Hn. right. exact Hin.
Qed.

Lemma occurrences_in w ws : In w ws -> (1 <= occurrences w ws)%Z.
Proof.
  intros Hin. unfold occurrences.
  assert (Hf : In w (List.filter (String.eqb w) ws)).
  { apply List.filter_In. split; [exact Hin|apply String.eqb_refl]. }
  destruct (List.filter (String.eqb w) ws); [destruct Hf|cbn [length]; lia].
Qed.

(** Every word has its entry in the table of counts. *)
Lemma counter_entry w ws :
  In w ws -> In (w, occurrences w ws) (counter ws).
Proof.
  intros Hin. destruct (counter_spec ws) as (Hnd & Hc & _ & _).
  assert (Hkey : In w (List.map fst (counter ws))).
  { destruct (in_dec string_dec w (List.map fst (counter ws))) as [Hk|Hk]; [exact Hk|].
    apply count_of_absent in Hk. rewrite Hc in Hk.
    pose proof (occurrences_in w ws Hin). lia. }
  apply in_map_iff in Hkey. destruct Hkey as ([k n] & Hk & He). cbn in Hk. subst k.
  rewrite <- Hc, (count_of_in w n _ Hnd He). exact He.
Qed.

Lemma sorted_cut {A} (R : A -> A -> Prop) n l a b :
  StronglySorted R l -> In a (take n l) -> In b l -> ~ In b (take n l) -> R a b.
Proof.
  revert n. induction l as [|x tl IH]; intros [|n] Hs Ha Hb Hnb;
    try (destruct Ha; fail).
  cbn [take firstn] in Ha, Hnb. inversion Hs as [|? ? Htl Hx]; subst.
  destruct Hb as [->|Hb]; [exfalso; apply Hnb; left; reflexivity|].
  destruct Ha as [<-|Ha].
  - rewrite Forall_forall in Hx. apply Hx, list_elem_of_In, Hb.
  - apply (IH n Htl Ha Hb). intros Hin. apply Hnb. right. exact Hin.
Qed.

Lemma take_full {A} n (l : list A) b :
  In b l -> ~ In b (take n l) -> length (take n l) = n.
Proof.
  intros Hb Hnb. rewrite length_take.
  destruct (Nat.le_gt_cases n (length l)) as [Hle|Hgt]; [lia|].
  exfalso. apply Hnb. rewrite take_ge by lia. exact Hb.
Qed.

Lemma most_common_full n counts e' :
  In e' counts -> ~ In e' (most_common n counts) ->
  length (most_common n counts) = n.
Proof.
  unfold most_common. set (sorted := fold_left _ counts []).
  assert (Hp : Permutation sorted counts) by apply (sort_perm counts []).
  intros He' Hne'. apply (take_full n sorted e'); [|exact Hne'].
  apply (Permutation_in _ (Permutation_sym Hp)), He'.
Qed.

Lemma most_common_top n counts e e' :
  In e (most_common n counts) -> In e' counts -> ~ In e' (most_common n counts) ->
  (snd e' <= snd e)%Z.
Proof.
  unfold most_common. set (sorted := fold_left _ counts []).
  assert (Hp : Permutation sorted counts) by apply (sort_perm counts []).
  intros He He' Hne'.
  assert (Hin : In e' sorted) by (apply (Permutation_in _ (Permutation_sym Hp)), He').
  apply (sorted_cut (fun a b => (snd b <= snd a)%Z) n sorted e e'); try assumption.
  apply (sort_sorted counts []). constructor.
Qed.

Lemma occurrences_le w ws : (occurrences w ws <= Z.of_nat (length ws))%Z.
Proof.
  unfold occurrences. pose proof (List.filter_length_le (String.eqb w) ws). lia.
Qed.

(** [Counter(ws).most_common(n)] *)
Lemma counter_spec_all ws n :
  (length (most_common n (counter ws)) <= n)%nat
  /\ NoDup (List.map fst (most_common n (counter ws)))
  /\ by_decreasing_count (most_common n (counter ws))
  /\ (forall e, In e (most_common n (counter ws)) ->
        In (fst e) ws /\ snd e = occurrences (fst e) ws
        /\ (1 <= snd e <= Z.of_nat (length ws))%Z)
  /\ (forall w, In w ws -> ~ In w (List.map fst (most_common n (counter ws))) ->
        length (most_common n (counter ws)) = n
        /\ forall e, In e (most_common n (counter ws)) ->
             (occurrences w ws <= snd e)%Z).
Proof.
  destruct (counter_spec ws) as (Hnd & Hc & Hpos & Hk).
  destruct (most_common_spec n (counter ws) Hnd) as (Hlen & Hnd' & Hsort & Hsub).
  split; [exact Hlen|]. split; [exact Hnd'|]. split; [exact Hsort|]. split.
  - intros [w c] He. cbn [fst snd]. specialize (Hsub _ He).
    assert (Hw : In w ws) by (apply Hk; change w with (fst (w, c)); apply in_map, Hsub).
    assert (Hcount : c = occurrences w ws)
      by (rewrite <- Hc; symmetry; apply (count_of_in w c _ Hnd Hsub)).
    split; [exact Hw|]. split; [exact Hcount|].
    pose proof (Hpos _ Hsub) as Hp. cbn in Hp.
    pose proof (occurrences_le w ws). lia.
  - intros w Hw Hout. pose proof (counter_entry w ws Hw) as Hent.
    assert (Hne : ~ In (w, occurrences w ws) (most_common n (counter ws))).
    { intros Hin. apply Hout.
      change w with (fst (w, occurrences w ws)). apply in_map, Hin. }
    split; [exact (most_common_full n _ _ Hent Hne)|].
    intros e He. exact (most_common_top n _ e _ He Hent Hne).
Qed.

End KeywordFacts.

(** X14.  The syllable estimate of a text is at least its number of
    words, since every word counts for at least one syllable, and the
    number of complex words lies between zero and the number of words. *)
Theorem syllables_and_complex_words_bounded (text : string) :
  (ContentAnalyzer._count_words text <= ContentAnalyzer._count_syllables text)%Z
  /\ (0 <= ContentAnalyzer._count_complex_words text
      <= ContentAnalyzer._count_words text)%Z
  /\ (forall word, 1 <= ContentAnalyzer._count_syllables_in_word word)%Z.
Proof.
  unfold ContentAnalyzer._count_words, ContentAnalyzer._count_syllables,
    ContentAnalyzer._count_complex_words.
  split; [|split].
  - pose proof (AnalyzerFacts.fold_sum_ge ContentAnalyzer._count_syllables_in_word
                  (ContentAnalyzer.findall_words (Str.lower text)) 0%Z
                  AnalyzerFacts.syllables_in_word_positive). lia.
  - pose proof (AnalyzerFacts.fold_count_le
                  (fun w => (ContentAnalyzer._count_syllables_in_word w >=? 3)%Z)
                  (ContentAnalyzer.findall_words (Str.lower text)) 0%Z). lia.
  - apply AnalyzerFacts.syllables_in_word_positive.
Qed.

Section AnalyzerShape.
Context `{FloatLib}.
Import ContentAnalyzer WordCounts.

(** X15.  [analyze_content] returns the fixed empty result exactly for
    the texts without a word.  A text with a word always has a sentence,
    so the second guard only ever fires on the word count; the result
    then carries the word and sentence counts, both at least one, the
    thin-content flag [word_count < 300] and at most twenty keywords. *)
Theorem analyze_content_empty_iff_no_word (text : string) :
  (analyze_content text = _get_empty_result <-> _count_words text = 0%Z)
  /\ (_count_words text <> 0%Z ->
      word_count (analyze_content text) = _count_words text
      /\ sentence_count (analyze_content text) = _count_sentences text
      /\ (1 <= word_count (analyze_content text))%Z
      /\ (1 <= sentence_count (analyze_content text))%Z
      /\ is_thin_content (analyze_content text) = (_count_words text <? 300)%Z
      /\ keywords (analyze_content text) = _extract_keywords text 20
      /\ (length (keywords (analyze_content text)) <= 20)%nat).
Proof.
  assert (Hfull : _count_words text <> 0%Z ->
            analyze_content text
            = mk_result (_count_words text) (_count_sentences text)
                (_calculate_flesch_kincaid (_count_words text)
                   (_count_sentences text) (_count_syllables text))
                (_calculate_flesch_kincaid_grade (_count_words text)
                   (_count_sentences text) (_count_syllables text))
                (_calculate_gunning_fog text (_count_words text)
                   (_count_sentences text))
                (f_ceil (ratio (_count_words text) 200))
                (_extract_keywords text 20)
                (_count_words text <? 300)%Z).
  { intros Hw. pose proof (TextFacts.words_need_sentences text Hw) as Hs.
    unfold analyze_content.
    destruct (Str.is_empty text || Str.is_empty (Str.strip text)) eqn:Hb;
      [exfalso; apply Hw, TextFacts.blank_text_has_no_word, Hb|].
    destruct (Z.eqb_spec (_count_words text) 0%Z) as [E|_]; [contradiction|].
    destruct (Z.eqb_spec (_count_sentences text) 0%Z) as [E|_]; [lia|].
    reflexivity. }
  split.
  - split.
    + intros He. destruct (Z.eq_dec (_count_words text) 0%Z) as [E|E]; [exact E|].
      rewrite (Hfull E) in He. unfold _get_empty_result in He.
      injection He as He _. exact He.
    + intros Hz. unfold analyze_content. rewrite Hz.
      destruct (Str.is_empty text || Str.is_empty (Str.strip text)); reflexivity.
  - intros Hw. rewrite (Hfull Hw). cbn [word_count sentence_count is_thin_content keywords].
    pose proof (TextFacts.words_need_sentences text Hw) as Hs.
    assert (0 <= _count_words text)%Z by (unfold _count_words; lia).
    repeat split; try lia.
    unfold _extract_keywords. destruct (_ =? 0)%Z; [cbn; lia|].
    rewrite length_map. apply SortFacts.most_common_spec.
    apply AnalyzerFacts.counter_spec.
Qed.

(** X16.  The keywords of a text are its most frequent candidate words
    (lowered words that are no stop word, longer than two characters and
    not all digits): at most [top_n] of them, each word once, by
    decreasing count, each with its number of occurrences among the
    candidates and the rounded percentage of it; a candidate that is
    left out is no more frequent than any keyword, and then the list is
    full. *)
Theorem keywords_are_most_frequent_candidates (text : string) (top_n : nat) :
  let ks := _extract_keywords text top_n in
  let total := Z.of_nat (length (candidates text)) in
  (length ks <= top_n)%nat
  /\ NoDup (List.map word ks)
  /\ StronglySorted (fun a b => (count b <= count a)%Z) ks
  /\ (forall k, In k ks ->
        In (word k) (candidates text)
        /\ count k = occurrences (word k) (candidates text)
        /\ (1 <= count k <= total)%Z
        /\ density k
           = PFloat (f_round (f_mul (ratio (count k) total) (f_of_int 100)) 2))
  /\ (forall w, In w (candidates text) -> ~ In w (List.map word ks) ->
        length ks = top_n
        /\ forall k, In k ks -> (occurrences w (candidates text) <= count k)%Z).
Proof.
  cbn zeta. unfold _extract_keywords.
  change (List.filter _ (findall_words (Str.lower text))) with (candidates text).
  set (ws := candidates text).
  destruct (KeywordFacts.counter_spec_all ws top_n) as (Hlen & Hnd & Hsort & Hin & Htop).
  destruct (Z.eqb_spec (Z.of_nat (length ws)) 0%Z) as [Hz|Hz].
  - assert (Hnil : ws = []) by (destruct ws; [reflexivity|cbn in Hz; lia]).
    rewrite Hnil. cbn. split; [lia|]. split; [apply NoDup_nil_2|].
    split; [constructor|]. split; [intros ? []|intros ? []].
  - set (mk := fun e : string * Z => _).
    assert (Hw : List.map word (List.map mk (most_common top_n (counter ws)))
                 = List.map fst (most_common top_n (counter ws))).
    { rewrite List.map_map. reflexivity. }
    split; [rewrite length_map; exact Hlen|].
    split; [rewrite Hw; exact Hnd|]. split; [|split].
    + clear -Hsort. induction Hsort as [|e l _ IH Hall]; [constructor|].
      cbn [List.map]. constructor; [exact IH|].
      rewrite Forall_forall in Hall. rewrite Forall_forall.
      intros k Hk%list_elem_of_In. apply in_map_iff in Hk. destruct Hk as (e' & <- & He').
      cbn. apply Hall, list_elem_of_In, He'.
    + intros k Hk. apply in_map_iff in Hk. destruct Hk as (e & <- & He).
      cbn [word count density]. destruct (Hin e He) as (H1 & H2 & H3).
      split; [exact H1|]. split; [exact H2|]. split; [exact H3|reflexivity].
    + intros w Hwin Hout. rewrite Hw in Hout. rewrite length_map.
      destruct (Htop w Hwin Hout) as [Hfull Hle]. split; [exact Hfull|].
      intros k Hk. apply in_map_iff in Hk. destruct Hk as (e & <- & He).
      cbn [count]. apply Hle, He.
Qed.

End AnalyzerShape.

Lemma analyze_content_empty_iff_no_word_witness :
  ContentAnalyzer._count_words "Good day." <> 0%Z
  /\ ContentAnalyzer.word_count
       (@ContentAnalyzer.analyze_content sample_floats "Good day.") = 2%Z.
Proof.
  assert (Hw : ContentAnalyzer._count_words "Good day." <> 0%Z)
    by (vm_compute; discriminate).
  split; [exact Hw|].
  destruct (proj2 (@analyze_content_empty_iff_no_word sample_floats "Good day.") Hw)
    as [Hcount _].
  rewrite Hcount. reflexivity.
Defined.

Lemma keywords_are_most_frequent_candidates_witness :
  length (@ContentAnalyzer._extract_keywords sample_floats
            "Good day, good night." 1) = 1%nat.
Proof.
  destruct (@keywords_are_most_frequent_candidates sample_floats
              "Good day, good night." 1) as (_ & _ & _ & _ & Htop).
  destruct (Htop "day") as [Hfull _].
  - vm_compute. right. left. reflexivity.
  - vm_compute. intros [E|[]]. discriminate E.
  - exact Hfull.
Defined.

(* --------------------------------------------------------------------- *)
(** ** The issue filter: composition and pattern shapes                   *)
(* --------------------------------------------------------------------- *)

Module GlobFacts.
Import IssueFilters GlobKinds.

Lemma glob_free_cons c t :
  glob_free (String c t) = true ->
  Ascii.eqb c "*" = false /\ Ascii.eqb c "?" = false /\ Ascii.eqb c "[" = false
  /\ glob_free t = true.
Proof.
  unfold glob_free.
  change (Str.contains "*" (String c t)) with (Ascii.eqb c "*" || Str.contains "*" t).
  change (Str.contains "?" (String c t)) with (Ascii.eqb c "?" || Str.contains "?" t).
  change (Str.contains "[" (String c t)) with (Ascii.eqb c "[" || Str.contains "[" t).
  destruct (Ascii.eqb c "*"), (Ascii.eqb c "?"), (Ascii.eqb c "[");
    cbn [orb negb andb]; try discriminate; try (rewrite !andb_false_r; discriminate).
  intros Ht. repeat split; exact Ht.
Qed.

Lemma translate_literal lit rest :
  glob_free lit = true ->
  Fnmatch.translate_from 0 (lit +:+ rest)
  = literal_items lit ++ Fnmatch.translate_from 0 rest.
Proof.
  induction lit as [|c t IH]; [reflexivity|].
  intros (H1 & H2 & H3 & Ht)%glob_free_cons.
  change (String c t +:+ rest) with (String c (t +:+ rest)).
  cbn [Fnmatch.translate_from literal_items]. rewrite H1, H2, H3, (IH Ht).
  reflexivity.
Qed.

Lemma translate_plain lit :
  glob_free lit = true -> Fnmatch.translate_from 0 lit = literal_items lit.
Proof.
  induction lit as [|c t IH]; [reflexivity|].
  intros (H1 & H2 & H3 & Ht)%glob_free_cons.
  cbn [Fnmatch.translate_from literal_items]. rewrite H1, H2, H3, (IH Ht).
  reflexivity.
Qed.

Lemma matches_star_all name : Fnmatch.matches [Fnmatch.GStar] name = true.
Proof.
  induction name as [|c t IH]; [reflexivity|].
  change (Fnmatch.matches [] (String c t) || Fnmatch.matches [Fnmatch.GStar] t = true).
  rewrite IH. apply orb_true_r.
Qed.

Lemma matches_literal_star lit name :
  Fnmatch.matches (literal_items lit ++ [Fnmatch.GStar]) name
  = Str.startswith name lit.
Proof.
  revert name. induction lit as [|c t IH]; intros name.
  - cbn [literal_items app]. rewrite matches_star_all. destruct name; reflexivity.
  - destruct name as [|d name]; [reflexivity|].
    cbn [literal_items app Fnmatch.matches Fnmatch.item_ok Str.startswith].
    rewrite IH. reflexivity.
Qed.

Lemma lstrip_head_solid s c t :
  Str.lstrip_by Str.isspace s = String c t -> Str.isspace c = false.
Proof.
  induction s as [|d u IH]; [discriminate|].
  cbn [Str.lstrip_by]. destruct (Str.isspace d) eqn:Hd; [exact IH|].
  intros [= <- _]. exact Hd.
Qed.

(** Whether a pattern is skipped is decided where its white space ends. *)
Lemma skipped_lstrip pattern :
  skipped pattern
  = Str.is_empty (Str.lstrip_by Str.isspace pattern)
    || Str.startswith (Str.lstrip_by Str.isspace pattern) "#".
Proof.
  unfold skipped, Str.strip.
  destruct (Str.lstrip_by Str.isspace pattern) as [|c t] eqn:E; [reflexivity|].
  apply lstrip_head_solid in E. cbn [Str.rstrip_by]. rewrite E, andb_false_r.
  reflexivity.
Qed.

Lemma lstrip_append s rest :
  Str.is_empty (Str.lstrip_by Str.isspace s) = false ->
  Str.lstrip_by Str.isspace (s +:+ rest) = Str.lstrip_by Str.isspace s +:+ rest.
Proof.
  induction s as [|c t IH]; [discriminate|].
  change (String c t +:+ rest) with (String c (t +:+ rest)).
  cbn [Str.lstrip_by]. destruct (Str.isspace c); [exact IH|reflexivity].
Qed.

Lemma skipped_append pattern rest :
  skipped pattern = false -> skipped (pattern +:+ rest) = false.
Proof.
  rewrite !skipped_lstrip. intros [He Hs]%orb_false_elim.
  rewrite (lstrip_append _ _ He).
  destruct (Str.lstrip_by Str.isspace pattern) as [|c t]; [discriminate|].
  exact (eq_trans eq_refl (f_equal (orb false) Hs)).
Qed.

Lemma skipped_star_head rest : skipped (String "*" rest) = false.
Proof. rewrite skipped_lstrip. reflexivity. Qed.

Lemma contains_append c s rest :
  Str.contains c (s +:+ rest) = Str.contains c s || Str.contains c rest.
Proof.
  induction s as [|d t IH]; [reflexivity|].
  change (String d t +:+ rest) with (String d (t +:+ rest)).
  cbn [Str.contains]. rewrite IH, orb_assoc. reflexivity.
Qed.

Lemma eqb_startswith s p : String.eqb s p = true -> Str.startswith s p = true.
Proof.
  intros ->%String.eqb_eq. induction p as [|c t IH]; [reflexivity|].
  cbn [Str.startswith]. rewrite Ascii.eqb_refl. exact IH.
Qed.

Lemma should_exclude_app path ps qs :
  should_exclude path (ps ++ qs)
  = should_exclude path ps || should_exclude path qs.
Proof.
  rewrite !FilterFacts.should_exclude_exists. apply existsb_app.
Qed.

Lemma existsb_perm {A} (f : A -> bool) l l' :
  Permutation l l' -> existsb f l = existsb f l'.
Proof.
  induction 1 as [|x l l' _ IH|x y l|l l' l'' _ IH1 _ IH2]; cbn [existsb].
  - reflexivity.
  - rewrite IH. reflexivity.
  - destruct (f x), (f y); reflexivity.
  - congruence.
Qed.

Lemma should_exclude_skipped path ps :
  forallb skipped ps = true -> should_exclude path ps = false.
Proof.
  induction ps as [|p rest IH]; [reflexivity|].
  cbn [forallb should_exclude]. intros [Hp Hr]%andb_true_iff. rewrite Hp.
  exact (IH Hr).
Qed.

Lemma filter_sublist {A} (f : A -> bool) l : sublist (List.filter f l) l.
Proof.
  induction l as [|x l IH]; [constructor|].
  cbn [List.filter]. destruct (f x); [apply sublist_skip|apply sublist_cons]; exact IH.
Qed.

Lemma filter_filter {A} (f g : A -> bool) l :
  List.filter g (List.filter f l) = List.filter (fun x => f x && g x) l.
Proof.
  induction l as [|x l IH]; [reflexivity|].
  cbn [List.filter]. destruct (f x); cbn [List.filter andb]; rewrite IH; reflexivity.
Qed.

Lemma filter_all {A} (f : A -> bool) l :
  (forall x, f x = true) -> List.filter f l = l.
Proof.
  intros Hf. induction l as [|x l IH]; [reflexivity|].
  cbn [List.filter]. rewrite Hf, IH. reflexivity.
Qed.

Section WithUrlLib.
Context `{UrlLib}.

(** The early return on an empty pattern list gives what the loops
    give. *)
Lemma filter_is_loop issues patterns :
  filter_issues_by_exclusion_patterns issues patterns
  = List.filter (fun issue => negb (should_exclude (issue_path issue) patterns))
                issues.
Proof.
  destruct patterns as [|p ps].
  - cbn [filter_issues_by_exclusion_patterns should_exclude negb].
    symmetry. apply filter_all. reflexivity.
  - apply FilterFacts.filter_loop_filter.
Qed.

End WithUrlLib.

End GlobFacts.

Section FilterComposition.
Context `{UrlLib}.
Import IssueFilters GlobKinds.

(** X17.  The filter only removes issues and keeps the others in their
    order; filtering with two pattern lists one after the other is
    filtering with their concatenation; the order of the patterns plays
    no part; and a list of blank and comment patterns removes
    nothing. *)
Theorem filter_issues_composes (issues : list Issue) (ps qs : list string) :
  sublist (filter_issues_by_exclusion_patterns issues ps) issues
  /\ filter_issues_by_exclusion_patterns issues (ps ++ qs)
     = filter_issues_by_exclusion_patterns
         (filter_issues_by_exclusion_patterns issues ps) qs
  /\ (Permutation ps qs ->
      filter_issues_by_exclusion_patterns issues ps
      = filter_issues_by_exclusion_patterns issues qs)
  /\ (forallb skipped ps = true ->
      filter_issues_by_exclusion_patterns issues ps = issues).
Proof.
  rewrite !GlobFacts.filter_is_loop. split; [apply GlobFacts.filter_sublist|].
  split; [|split].
  - rewrite GlobFacts.filter_filter. apply List.filter_ext. intros issue.
    rewrite GlobFacts.should_exclude_app, negb_orb. reflexivity.
  - intros Hp. apply List.filter_ext. intros issue.
    rewrite !FilterFacts.should_exclude_exists.
    rewrite (GlobFacts.existsb_perm _ _ _ Hp). reflexivity.
  - intros Hs. apply GlobFacts.filter_all. intros issue.
    rewrite (GlobFacts.should_exclude_skipped _ _ Hs). reflexivity.
Qed.


End FilterComposition.

Lemma filter_issues_composes_witness :
  @IssueFilters.filter_issues_by_exclusion_patterns sample_urlparse
     [json_issue; html_issue] ["# drafts"; "  "] = [json_issue; html_issue].
Proof.
  apply (proj2 (proj2 (proj2 (@filter_issues_composes sample_urlparse
                                [json_issue; html_issue] ["# drafts"; "  "] [])))).
  vm_compute. reflexivity.
Defined.


(* --------------------------------------------------------------------- *)
(** ** parse_issue_exclusion_patterns                                     *)
(* --------------------------------------------------------------------- *)

Module LineFacts.
Import CrawlerDefaults IssueFilters.

Lemma rstrip_by_idempotent drop s :
  Str.rstrip_by drop (Str.rstrip_by drop s) = Str.rstrip_by drop s.
Proof.
  induction s as [|c t IH]; [reflexivity|].
  cbn [Str.rstrip_by].
  destruct (Str.is_empty (Str.rstrip_by drop t) && drop c) eqn:E; [reflexivity|].
  cbn [Str.rstrip_by]. rewrite IH, E. reflexivity.
Qed.

Lemma strip_idempotent s : Str.strip (Str.strip s) = Str.strip s.
Proof.
  unfold Str.strip.
  destruct (Str.lstrip_by Str.isspace s) as [|c t] eqn:E; [reflexivity|].
  apply GlobFacts.lstrip_head_solid in E.
  cbn [Str.rstrip_by]. rewrite E, andb_false_r.
  cbn [Str.lstrip_by]. rewrite E.
  cbn [Str.rstrip_by]. rewrite rstrip_by_idempotent, E, andb_false_r.
  reflexivity.
Qed.

(** The test of [parse_issue_exclusion_patterns] on a line is the
    opposite of the test by which the filter skips a pattern. *)
Lemma kept_line_not_skipped line :
  negb (Str.is_empty (Str.strip line))
  && negb (Str.startswith (Str.strip line) "#")
  = negb (skipped line).
Proof. unfold skipped. rewrite negb_orb. reflexivity. Qed.

Lemma skipped_strip line : skipped (Str.strip line) = skipped line.
Proof. unfold skipped. rewrite strip_idempotent. reflexivity. Qed.

Lemma parse_patterns_active text p :
  In p (parse_issue_exclusion_patterns text) ->
  skipped p = false /\ Str.strip p = p.
Proof.
  unfold parse_issue_exclusion_patterns.
  intros (line & <- & Hline)%in_map_iff.
  apply List.filter_In in Hline. destruct Hline as [_ Hk].
  rewrite kept_line_not_skipped in Hk. apply negb_true_iff in Hk.
  rewrite skipped_strip, strip_idempotent. split; [exact Hk|reflexivity].
Qed.

Lemma splitlines_from_nil skip s :
  splitlines_from skip s = [] -> s = EmptyString \/ skip = true.
Proof.
  destruct s as [|c t]; [left; reflexivity|]. destruct skip; [right; reflexivity|].
  cbn [splitlines_from andb]. destruct (is_line_break c); [discriminate|].
  destruct (splitlines_from false t); discriminate.
Qed.

(** Lines of a text that continues after a line feed. *)
Lemma splitlines_from_append a b :
  forall skip, exists pre,
    (pre = [] \/ pre = [EmptyString])
    /\ splitlines_from skip (a +:+ (NL +:+ b))
       = splitlines_from skip a ++ pre ++ splitlines_from false b.
Proof.
  induction a as [|c t IH]; intros skip.
  - change ("" +:+ (NL +:+ b)) with (String Re.LF b).
    destruct skip.
    + exists []. split; [left; reflexivity|reflexivity].
    + exists [EmptyString]. split; [right; reflexivity|reflexivity].
  - change (String c t +:+ (NL +:+ b)) with (String c (t +:+ (NL +:+ b))).
    cbn [splitlines_from].
    destruct (skip && Ascii.eqb c Re.LF); [apply IH|].
    destruct (is_line_break c).
    + destruct (IH (Ascii.eqb c (ascii_of_N 13))) as (pre & Hpre & ->).
      exists pre. split; [exact Hpre|reflexivity].
    + destruct (splitlines_from false t) as [|h tl] eqn:Et.
      * apply splitlines_from_nil in Et. destruct Et as [->|Et]; [|discriminate].
        exists []. split; [left; reflexivity|reflexivity].
      * destruct (IH false) as (pre & Hpre & ->). rewrite Et.
        exists pre. split; [exact Hpre|reflexivity].
Qed.

Lemma splitlines_single line :
  ContentAnalyzer.all_chars (fun c => negb (is_line_break c)) line = true ->
  splitlines line = if Str.is_empty line then [] else [line].
Proof.
  unfold splitlines. induction line as [|c t IH]; [reflexivity|].
  cbn [ContentAnalyzer.all_chars]. intros [Hc Ht]%andb_true_iff.
  apply negb_true_iff in Hc. cbn [splitlines_from andb Str.is_empty].
  rewrite Hc, (IH Ht). destruct t; reflexivity.
Qed.

End LineFacts.

(** X19.  Every pattern that [parse_issue_exclusion_patterns] returns is
    one the issue filter acts on: it is neither blank nor a comment, and
    it carries no white space at its ends.  So the filter's inner loop
    over a parsed list skips nothing. *)
Theorem parsed_patterns_are_never_skipped (text : string) :
  (forall p, In p (CrawlerDefaults.parse_issue_exclusion_patterns text) ->
     IssueFilters.skipped p = false /\ Str.strip p = p)
  /\ (forall path,
        IssueFilters.should_exclude path
          (CrawlerDefaults.parse_issue_exclusion_patterns text)
        = existsb (pattern_excludes path)
            (CrawlerDefaults.parse_issue_exclusion_patterns text)).
Proof.
  split; [apply LineFacts.parse_patterns_active|].
  intros path. rewrite FilterFacts.should_exclude_exists.
  pose proof (LineFacts.parse_patterns_active text) as Hact.
  induction (CrawlerDefaults.parse_issue_exclusion_patterns text) as [|p ps IH];
    [reflexivity|].
  cbn [existsb]. rewrite (proj1 (Hact p (or_introl eq_refl))). cbn [negb andb].
  rewrite IH; [reflexivity|]. intros q Hq. apply Hact. right. exact Hq.
Qed.

(** X20.  The pattern text is read line by line: the patterns of two
    texts joined by a line feed are the patterns of the first followed by
    those of the second, and a text without a line boundary gives its
    stripped self, or nothing when it is blank or a comment. *)
Theorem patterns_are_read_line_by_line :
  (forall a b,
     CrawlerDefaults.parse_issue_exclusion_patterns (a +:+ (NL +:+ b))
     = CrawlerDefaults.parse_issue_exclusion_patterns a
       ++ CrawlerDefaults.parse_issue_exclusion_patterns b)
  /\ (forall line,
        ContentAnalyzer.all_chars
          (fun c => negb (CrawlerDefaults.is_line_break c)) line = true ->
        CrawlerDefaults.parse_issue_exclusion_patterns line
        = if IssueFilters.skipped line then [] else [Str.strip line]).
Proof.
  split.
  - intros a b. unfold CrawlerDefaults.parse_issue_exclusion_patterns,
      CrawlerDefaults.splitlines.
    destruct (LineFacts.splitlines_from_append a b false) as (pre & Hpre & ->).
    rewrite !List.filter_app, !List.map_app.
    destruct Hpre as [-> | ->]; reflexivity.
  - intros line Hline. unfold CrawlerDefaults.parse_issue_exclusion_patterns.
    rewrite (LineFacts.splitlines_single line Hline).
    destruct line as [|c t]; [reflexivity|].
    cbn [Str.is_empty List.filter]. rewrite LineFacts.kept_line_not_skipped.
    destruct (IssueFilters.skipped (String c t)); reflexivity.
Qed.

Lemma parsed_patterns_are_never_skipped_witness :
  IssueFilters.skipped "*.json" = false.
Proof.
  apply (proj1 (proj1 (parsed_patterns_are_never_skipped
                         ("# feeds" +:+ (NL +:+ "  *.json ")))
                  "*.json" (or_introl eq_refl))).
Defined.

Lemma patterns_are_read_line_by_line_witness :
  CrawlerDefaults.parse_issue_exclusion_patterns "  /admin " = ["/admin"].
Proof.
  exact (eq_trans (proj2 patterns_are_read_line_by_line "  /admin " eq_refl) eq_refl).
Defined.

(* --------------------------------------------------------------------- *)
(** ** UserAgentRules: the two path lists                                 *)
(* --------------------------------------------------------------------- *)

Module PathListFacts.
Import UserAgentRules.

Lemma blocked_nil_all_allow ds :
  RobotsDirective.path <$>
    filter (fun d => RobotsDirective.allow d = false) ds = [] ->
  forall d, In d ds -> RobotsDirective.allow d = true.
Proof.
  induction ds as [|x ds IH]; [intros _ d []|].
  rewrite filter_cons. destruct (decide (RobotsDirective.allow x = false)) as [Hx|Hx].
  - discriminate.
  - intros Hnil d [<-|Hd]; [destruct (RobotsDirective.allow x); congruence|].
    exact (IH Hnil d Hd).
Qed.

Lemma allowed_nil_all_block ds :
  RobotsDirective.path <$>
    filter (fun d => RobotsDirective.allow d = true) ds = [] ->
  forall d, In d ds -> RobotsDirective.allow d = false.
Proof.
  induction ds as [|x ds IH]; [intros _ d []|].
  rewrite filter_cons. destruct (decide (RobotsDirective.allow x = true)) as [Hx|Hx].
  - discriminate.
  - intros Hnil d [<-|Hd]; [destruct (RobotsDirective.allow x); congruence|].
    exact (IH Hnil d Hd).
Qed.

Lemma path_lists_length ds :
  (length (RobotsDirective.path <$>
             filter (fun d => RobotsDirective.allow d = false) ds)
   + length (RobotsDirective.path <$>
               filter (fun d => RobotsDirective.allow d = true) ds)
   = length ds)%nat.
Proof.
  induction ds as [|x ds IH]; [reflexivity|].
  rewrite !filter_cons.
  destruct (decide (RobotsDirective.allow x = false)) as [Hx|Hx],
           (decide (RobotsDirective.allow x = true)) as [Hy|Hy];
    cbn [fmap list_fmap length]; rewrite ?length_fmap in *; cbn [length];
    try lia; try congruence.
  destruct (RobotsDirective.allow x); congruence.
Qed.

Lemma existsb_matches_false ds p :
  existsb (fun d => RobotsDirective.matches d p) ds = false <->
  forall d, In d ds -> RobotsDirective.matches d p = false.
Proof.
  split.
  - intros He d Hd. destruct (RobotsDirective.matches d p) eqn:Hm; [|reflexivity].
    assert (existsb (fun d => RobotsDirective.matches d p) ds = true); [|congruence].
    apply existsb_exists. exists d. split; assumption.
  - intros Hall. destruct (existsb _ ds) eqn:He; [|reflexivity].
    apply existsb_exists in He. destruct He as (d & Hd & Hm).
    rewrite (Hall d Hd) in Hm. discriminate.
Qed.

End PathListFacts.

(** X21.  The two path lists of a rule set account for its decisions.  A
    path is denied only when a directive whose path is listed by
    [get_blocked_paths] matches it; a rule set without blocked paths
    allows every path; one without allowed paths allows exactly the
    paths that no directive matches; and the two lists together have one
    entry for each directive. *)
Theorem blocked_paths_explain_denials (r : UserAgentRules.t) :
  (forall p, UserAgentRules.is_allowed r p = false ->
     exists d, In d (UserAgentRules.directives r)
               /\ RobotsDirective.allow d = false
               /\ RobotsDirective.matches d p = true
               /\ In (RobotsDirective.path d) (UserAgentRules.get_blocked_paths r))
  /\ (UserAgentRules.get_blocked_paths r = [] ->
      forall p, UserAgentRules.is_allowed r p = true)
  /\ (UserAgentRules.get_allowed_paths r = [] ->
      forall p, UserAgentRules.is_allowed r p
                = negb (existsb (fun d => RobotsDirective.matches d p)
                                (UserAgentRules.directives r)))
  /\ (length (UserAgentRules.get_blocked_paths r)
      + length (UserAgentRules.get_allowed_paths r)
      = length (UserAgentRules.directives r))%nat.
Proof.
  assert (Hdeny : forall p, UserAgentRules.is_allowed r p = false ->
            exists d, In d (UserAgentRules.directives r)
                      /\ RobotsDirective.allow d = false
                      /\ RobotsDirective.matches d p = true).
  { intros p. rewrite BestMatchFacts.is_allowed_best.
    destruct (UserAgentRules.best_match (UserAgentRules.directives r) p) as [d|] eqn:Eb;
      [|discriminate].
    intros Ha. apply BestMatchFacts.best_match_some in Eb.
    destruct Eb as (Hin & Hm & _). exists d. auto. }
  split; [|split; [|split]].
  - intros p Hp. destruct (Hdeny p Hp) as (d & Hin & Ha & Hm).
    exists d. repeat split; try assumption.
    unfold UserAgentRules.get_blocked_paths. apply list_elem_of_In.
    apply list_elem_of_fmap. exists d. split; [reflexivity|].
    apply list_elem_of_filter. split; [exact Ha|apply list_elem_of_In, Hin].
  - intros Hnil p. destruct (UserAgentRules.is_allowed r p) eqn:Hp; [reflexivity|].
    destruct (Hdeny p Hp) as (d & Hin & Ha & _).
    rewrite (PathListFacts.blocked_nil_all_allow _ Hnil d Hin) in Ha. discriminate.
  - intros Hnil p. rewrite BestMatchFacts.is_allowed_best.
    destruct (UserAgentRules.best_match (UserAgentRules.directives r) p) as [d|] eqn:Eb.
    + apply BestMatchFacts.best_match_some in Eb. destruct Eb as (Hin & Hm & _).
      rewrite (PathListFacts.allowed_nil_all_block _ Hnil d Hin).
      symmetry. apply negb_false_iff, existsb_exists. exists d. auto.
    + pose proof (proj1 (BestMatchFacts.best_match_none _ _) Eb) as Hnone.
      symmetry. apply negb_true_iff, PathListFacts.existsb_matches_false, Hnone.
  - apply PathListFacts.path_lists_length.
Qed.

Lemma blocked_paths_explain_denials_witness :
  UserAgentRules.is_allowed
    (UserAgentRules.add_directive (UserAgentRules.new "*") "/open/" true)
    "/open/door"
  = true.
Proof.
  apply (proj1 (proj2 (blocked_paths_explain_denials
                         (UserAgentRules.add_directive (UserAgentRules.new "*")
                                                       "/open/" true)))).
  reflexivity.
Defined.

(* --------------------------------------------------------------------- *)
(** ** parse on rendered groups                                           *)
(* --------------------------------------------------------------------- *)

Module RenderFacts.
Import RobotsText RobotsParser.

Lemma lstrip_length drop s :
  (String.length (Str.lstrip_by drop s) <= String.length s)%nat.
Proof.
  induction s as [|c t IH]; [cbn; lia|].
  cbn [Str.lstrip_by]. destruct (drop c); cbn [String.length]; lia.
Qed.

Lemma lstrip_fixed drop s :
  String.length (Str.lstrip_by drop s) = String.length s ->
  Str.lstrip_by drop s = s.
Proof.
  destruct s as [|c t]; [reflexivity|].
  cbn [Str.lstrip_by]. destruct (drop c); [|reflexivity].
  pose proof (lstrip_length drop t). cbn [String.length]. lia.
Qed.

Lemma rstrip_length drop s :
  (String.length (Str.rstrip_by drop s) <= String.length s)%nat.
Proof.
  induction s as [|c t IH]; [cbn; lia|].
  cbn [Str.rstrip_by].
  destruct (Str.is_empty (Str.rstrip_by drop t) && drop c);
    cbn [String.length]; lia.
Qed.

Lemma strip_fixed s :
  Str.strip s = s ->
  Str.lstrip_by Str.isspace s = s /\ Str.rstrip_by Str.isspace s = s.
Proof.
  unfold Str.strip. intros Hs.
  assert (Hl : Str.lstrip_by Str.isspace s = s).
  { apply lstrip_fixed.
    pose proof (lstrip_length Str.isspace s).
    pose proof (rstrip_length Str.isspace (Str.lstrip_by Str.isspace s)) as Hr.
    rewrite Hs in Hr. lia. }
  rewrite Hl in Hs. split; assumption.
Qed.

Lemma clean_parts v :
  clean v = true ->
  Str.contains Re.LF v = false /\ Str.contains "#" v = false
  /\ Str.strip v = v.
Proof.
  unfold clean. intros [[H1 H2]%andb_true_iff H3%String.eqb_eq]%andb_true_iff.
  apply negb_true_iff in H1, H2. auto.
Qed.

Lemma split_no_sep sep s :
  Str.contains sep s = false -> Str.split sep s = [s].
Proof.
  induction s as [|c t IH]; [reflexivity|].
  cbn [Str.contains Str.split]. intros [Hc Ht]%orb_false_elim.
  rewrite Hc, (IH Ht). reflexivity.
Qed.

Lemma split_app_sep sep a b :
  Str.contains sep a = false ->
  Str.split sep (a +:+ String sep b) = a :: Str.split sep b.
Proof.
  induction a as [|c t IH].
  - intros _. change ("" +:+ String sep b) with (String sep b).
    cbn [Str.split]. rewrite Ascii.eqb_refl. reflexivity.
  - cbn [Str.contains]. intros [Hc Ht]%orb_false_elim.
    change (String c t +:+ String sep b) with (String c (t +:+ String sep b)).
    cbn [Str.split]. rewrite Hc, (IH Ht). reflexivity.
Qed.

Lemma split_join_lines l rest :
  Forall (fun x => Str.contains Re.LF x = false) (l :: rest) ->
  Str.split Re.LF (join_lines (l :: rest)) = l :: rest.
Proof.
  revert l. induction rest as [|m rest IH]; intros l Hall.
  - apply split_no_sep. exact (Forall_inv Hall).
  - change (join_lines (l :: m :: rest))
      with (l +:+ String Re.LF (join_lines (m :: rest))).
    rewrite (split_app_sep _ _ _ (Forall_inv Hall)), IH; [reflexivity|].
    exact (Forall_inv_tail Hall).
Qed.

Lemma split1_prefix sep kw rest :
  Str.contains sep kw = false ->
  Str.split1 sep (kw +:+ String sep rest) = Some (kw, rest).
Proof.
  induction kw as [|c t IH].
  - intros _. change ("" +:+ String sep rest) with (String sep rest).
    cbn [Str.split1]. rewrite Ascii.eqb_refl. reflexivity.
  - cbn [Str.contains]. intros [Hc Ht]%orb_false_elim.
    change (String c t +:+ String sep rest) with (String c (t +:+ String sep rest)).
    cbn [Str.split1]. rewrite Hc, (IH Ht). reflexivity.
Qed.

Lemma rstrip_solid_prefix kw s :
  ContentAnalyzer.all_chars (fun c => negb (Str.isspace c)) kw = true ->
  Str.rstrip_by Str.isspace (kw +:+ s) = kw +:+ Str.rstrip_by Str.isspace s.
Proof.
  induction kw as [|c t IH]; [reflexivity|].
  cbn [ContentAnalyzer.all_chars]. intros [Hc Ht]%andb_true_iff.
  apply negb_true_iff in Hc.
  change (String c t +:+ s) with (String c (t +:+ s)).
  cbn [Str.rstrip_by]. rewrite Hc, andb_false_r, (IH Ht). reflexivity.
Qed.

Lemma line_reading kw v :
  keyword kw -> clean v = true ->
  hd "" (Str.split "#" (kw +:+ ": " +:+ v)) = kw +:+ ": " +:+ v
  /\ Str.strip (kw +:+ ": " +:+ v) = kw +:+ String ":" (after_colon v)
  /\ Str.is_empty (kw +:+ String ":" (after_colon v)) = false
  /\ Str.split1 ":" (kw +:+ String ":" (after_colon v)) = Some (kw, after_colon v)
  /\ Str.strip (after_colon v) = v
  /\ Str.contains Re.LF (kw +:+ ": " +:+ v) = false.
Proof.
  intros Hkw (Hlf & Hhash & Hstrip)%clean_parts.
  destruct (strip_fixed v Hstrip) as [Hl Hr].
  assert (Hsolid : ContentAnalyzer.all_chars (fun c => negb (Str.isspace c)) kw = true
                   /\ Str.contains ":" kw = false /\ Str.contains "#" kw = false
                   /\ Str.contains Re.LF kw = false
                   /\ exists c t, kw = String c t /\ Str.isspace c = false).
  { destruct Hkw as [->|[->| ->]];
      (split; [reflexivity|]); (split; [reflexivity|]); (split; [reflexivity|]);
      (split; [reflexivity|]); eexists; eexists; split; reflexivity. }
  destruct Hsolid as (Hsp & Hcolon & Hkh & Hklf & c & t & Ekw & Hc).
  assert (Hafter : Str.rstrip_by Str.isspace (String ":" (String " " v))
                   = String ":" (after_colon v)).
  { cbn [Str.rstrip_by]. rewrite Hr. unfold after_colon.
    destruct v; reflexivity. }
  split; [|split; [|split; [|split; [|split]]]].
  - rewrite split_no_sep; [reflexivity|].
    rewrite GlobFacts.contains_append, Hkh.
    change (": " +:+ v) with (String ":" (String " " v)).
    cbn [Str.contains]. rewrite Hhash. reflexivity.
  - unfold Str.strip. rewrite Ekw.
    change (String c t +:+ ": " +:+ v) with (String c (t +:+ ": " +:+ v)).
    cbn [Str.lstrip_by]. rewrite Hc.
    change (String c (t +:+ ": " +:+ v)) with (String c t +:+ String ":" (String " " v)).
    rewrite <- Ekw, (rstrip_solid_prefix kw _ Hsp), Hafter. reflexivity.
  - rewrite Ekw. reflexivity.
  - apply split1_prefix, Hcolon.
  - unfold after_colon. destruct v as [|d u]; [reflexivity|].
    cbn [Str.is_empty]. unfold Str.strip.
    change (Str.lstrip_by Str.isspace (String " " (String d u)))
      with (Str.lstrip_by Str.isspace (String d u)).
    exact Hstrip.
  - rewrite GlobFacts.contains_append, Hklf.
    change (": " +:+ v) with (String ":" (String " " v)).
    cbn [Str.contains]. rewrite Hlf. reflexivity.
Qed.

Lemma parse_user_agent_line n ua p cur :
  clean ua = true ->
  parse_line n ("User-agent: " +:+ ua) (p, cur)
  = (set_rules p (ensure ua (user_agent_rules p)),
     if previous_block_had_directives (ensure ua (user_agent_rules p)) cur
     then [ua] else cur ++ [ua]).
Proof.
  intros Hua.
  destruct (line_reading "User-agent" ua (or_introl eq_refl) Hua)
    as (H1 & H2 & H3 & H4 & H5 & _).
  unfold parse_line. cbv zeta.
  change ("User-agent: " +:+ ua) with ("User-agent" +:+ ": " +:+ ua).
  rewrite H1, H2, H3, H4, H5. reflexivity.
Qed.

Lemma parse_directive_line n d p first rest :
  clean (snd d) = true ->
  parse_line n (directive_line d) (p, first :: rest)
  = (set_rules p (fold_left (attach_directive (snd d) (fst d)) (first :: rest)
                            (user_agent_rules p)),
     first :: rest).
Proof.
  intros Hd. destruct d as [[] path]; cbn [fst snd] in *.
  - destruct (line_reading "Allow" path (or_intror (or_intror eq_refl)) Hd)
      as (H1 & H2 & H3 & H4 & H5 & _).
    unfold parse_line, directive_line. cbv zeta. cbn [fst snd].
    change ("Allow: " +:+ path) with ("Allow" +:+ ": " +:+ path).
    rewrite H1, H2, H3, H4, H5. reflexivity.
  - destruct (line_reading "Disallow" path (or_intror (or_introl eq_refl)) Hd)
      as (H1 & H2 & H3 & H4 & H5 & _).
    unfold parse_line, directive_line. cbv zeta. cbn [fst snd].
    change ("Disallow: " +:+ path) with ("Disallow" +:+ ": " +:+ path).
    rewrite H1, H2, H3, H4, H5. reflexivity.
Qed.

Lemma attach_present v a (rules : gmap string UserAgentRules.t) ua r :
  rules !! ua = Some r ->
  attach_directive v a rules ua = <[ua := UserAgentRules.add_directive r v a]> rules.
Proof.
  intros Hr. unfold attach_directive, ensure. rewrite Hr.
  apply map_eq. intros k. destruct (decide (k = ua)) as [->|Hk].
  - rewrite lookup_alter_eq, Hr, lookup_insert_eq. reflexivity.
  - rewrite lookup_alter_ne, lookup_insert_ne by auto. reflexivity.
Qed.

Lemma set_rules_twice p a b : set_rules (set_rules p a) b = set_rules p b.
Proof. reflexivity. Qed.

Lemma set_rules_same p : set_rules p (user_agent_rules p) = p.
Proof. destruct p; reflexivity. Qed.

Lemma parse_lines_app n l1 l2 st :
  parse_lines n (l1 ++ l2) st
  = parse_lines (n + length l1) l2 (parse_lines n l1 st).
Proof.
  revert n st. induction l1 as [|l l1 IH]; intros n st.
  - cbn [app length parse_lines]. rewrite Nat.add_0_r. reflexivity.
  - cbn [app length parse_lines]. rewrite IH. f_equal. lia.
Qed.

(** The directive lines of a group, read with that group as the current
    one. *)
Lemma parse_directive_lines ds :
  forall n p ua r,
    forallb (fun d : bool * string => clean (snd d)) ds = true ->
    user_agent_rules p !! ua = Some r ->
    parse_lines n (List.map directive_line ds) (p, [ua])
    = (set_rules p
         (<[ua := fold_left (fun r d => UserAgentRules.add_directive r (snd d) (fst d))
                            ds r]> (user_agent_rules p)),
       [ua]).
Proof.
  induction ds as [|d ds IH]; intros n p ua r Hclean Hr.
  - cbn [List.map parse_lines fold_left].
    rewrite (insert_id _ _ _ Hr), set_rules_same. reflexivity.
  - cbn [forallb] in Hclean. apply andb_true_iff in Hclean as [Hd Hds].
    cbn [List.map parse_lines fold_left].
    rewrite (parse_directive_line n d p ua [] Hd). cbn [fold_left].
    rewrite (attach_present _ _ _ _ _ Hr).
    rewrite (IH (S n) _ ua (UserAgentRules.add_directive r (snd d) (fst d)) Hds);
      [|apply lookup_insert_eq].
    rewrite set_rules_twice. cbn [user_agent_rules set_rules].
    rewrite insert_insert_eq. reflexivity.
Qed.

Lemma add_directives_from ua ds dirs cd rr sm :
  fold_left (fun r d => UserAgentRules.add_directive r (snd d) (fst d)) ds
            (UserAgentRules.mk ua dirs cd rr sm)
  = UserAgentRules.mk ua
      (dirs ++ List.map (fun d => RobotsDirective.new (snd d) (fst d)) ds)
      cd rr sm.
Proof.
  revert dirs. induction ds as [|d ds IH]; intros dirs.
  - cbn. rewrite app_nil_r. reflexivity.
  - cbn [fold_left List.map]. unfold UserAgentRules.add_directive at 2.
    cbn [UserAgentRules.user_agent UserAgentRules.directives
         UserAgentRules.crawl_delay UserAgentRules.request_rate
         UserAgentRules.sitemaps].
    rewrite IH, <- app_assoc. reflexivity.
Qed.

Lemma parse_group n (g : Group) p cur :
  clean (fst g) = true ->
  forallb (fun d : bool * string => clean (snd d)) (snd g) = true ->
  user_agent_rules p !! fst g = None ->
  group_closed (user_agent_rules p) cur ->
  parse_lines n (group_lines g) (p, cur)
  = (set_rules p (<[fst g := group_rules g]> (user_agent_rules p)), [fst g]).
Proof.
  destruct g as [ua ds]. cbn [fst snd]. intros Hua Hds Hnone Hclosed.
  unfold group_lines. cbn [fst snd parse_lines].
  rewrite (parse_user_agent_line n ua p cur Hua).
  assert (Hens : ensure ua (user_agent_rules p)
                 = <[ua := UserAgentRules.new ua]> (user_agent_rules p))
    by (unfold ensure; rewrite Hnone; reflexivity).
  rewrite Hens.
  assert (Hcur : (if previous_block_had_directives
                       (<[ua := UserAgentRules.new ua]> (user_agent_rules p)) cur
                  then [ua] else cur ++ [ua]) = [ua]).
  { destruct Hclosed as [->|Hprev]; [reflexivity|].
    destruct cur as [|first rest]; [discriminate|].
    cbn [previous_block_had_directives] in *.
    destruct (user_agent_rules p !! first) as [r|] eqn:Ef; [|discriminate].
    assert (first <> ua) by congruence.
    rewrite lookup_insert_ne by auto. rewrite Ef.
    destruct (UserAgentRules.directives r); [discriminate|reflexivity]. }
  rewrite Hcur.
  rewrite (parse_directive_lines ds (S n) _ ua (UserAgentRules.new ua) Hds);
    [|apply lookup_insert_eq].
  rewrite set_rules_twice. cbn [user_agent_rules set_rules].
  rewrite insert_insert_eq. unfold UserAgentRules.new.
  rewrite add_directives_from. reflexivity.
Qed.

Lemma distinct_cons x rest :
  distinct (x :: rest) = true -> ~ In x rest /\ distinct rest = true.
Proof.
  cbn [distinct]. intros [Hx Hr]%andb_true_iff. split; [|exact Hr].
  apply negb_true_iff in Hx. intros Hin.
  assert (in_list x rest = true); [|congruence].
  apply existsb_exists. exists x. split; [exact Hin|apply String.eqb_refl].
Qed.

Lemma parse_groups groups :
  forall n p cur,
    renderable groups = true ->
    (forall g, In g groups -> user_agent_rules p !! fst g = None) ->
    group_closed (user_agent_rules p) cur ->
    exists rules cur',
      parse_lines n (concat (List.map group_lines groups)) (p, cur)
      = (set_rules p rules, cur')
      /\ (forall g, In g groups -> rules !! fst g = Some (group_rules g))
      /\ (forall ua, ~ In ua (List.map fst groups) ->
            rules !! ua = user_agent_rules p !! ua).
Proof.
  induction groups as [|g gs IH]; intros n p cur Hok Hfree Hclosed.
  - exists (user_agent_rules p), cur. cbn [List.map concat parse_lines].
    rewrite set_rules_same. split; [reflexivity|]. split; [intros g []|reflexivity].
  - unfold renderable in Hok. cbn [List.map forallb] in Hok.
    apply andb_true_iff in Hok as [Hdist Hall].
    apply distinct_cons in Hdist as [Hfresh Hdist].
    apply andb_true_iff in Hall as [Hg Hgs].
    apply andb_true_iff in Hg as [Hg Hpaths].
    apply andb_true_iff in Hg as [Hua Hne].
    cbn [List.map concat]. rewrite parse_lines_app.
    rewrite (parse_group n g p cur Hua Hpaths
               (Hfree g (or_introl eq_refl)) Hclosed).
    set (p1 := set_rules p (<[fst g := group_rules g]> (user_agent_rules p))).
    destruct (IH (n + length (group_lines g))%nat p1 [fst g]) as (rules & cur' & Hrun & Hin & Hout).
    + unfold renderable. rewrite Hdist, Hgs. reflexivity.
    + intros g' Hg'. unfold p1. cbn [user_agent_rules set_rules].
      rewrite lookup_insert_ne; [apply Hfree; right; exact Hg'|].
      intros Heq. apply Hfresh. rewrite Heq. apply in_map, Hg'.
    + right. unfold p1. cbn [user_agent_rules set_rules previous_block_had_directives].
      rewrite lookup_insert_eq. unfold group_rules.
      cbn [UserAgentRules.directives].
      destruct (snd g); [discriminate|reflexivity].
    + exists rules, cur'. rewrite Hrun. unfold p1 at 1. rewrite set_rules_twice.
      split; [reflexivity|]. split.
      * intros g' [<-|Hg']; [|apply Hin, Hg'].
        rewrite (Hout (fst g) Hfresh). unfold p1.
        cbn [user_agent_rules set_rules]. apply lookup_insert_eq.
      * intros ua Hua'. cbn [List.map In] in Hua'.
        rewrite Hout by tauto. unfold p1. cbn [user_agent_rules set_rules].
        apply lookup_insert_ne. intros Heq. apply Hua'. left. exact Heq.
Qed.

Lemma group_lines_no_lf groups :
  renderable groups = true ->
  Forall (fun x => Str.contains Re.LF x = false)
         (concat (List.map group_lines groups)).
Proof.
  unfold renderable. intros [_ Hall]%andb_true_iff.
  induction groups as [|g gs IH]; [constructor|].
  cbn [forallb] in Hall. apply andb_true_iff in Hall as [Hg Hgs].
  apply andb_true_iff in Hg as [Hg Hpaths].
  apply andb_true_iff in Hg as [Hua _].
  cbn [List.map concat]. apply Forall_app. split; [|exact (IH Hgs)].
  unfold group_lines. constructor.
  - change ("User-agent: " +:+ fst g) with ("User-agent" +:+ ": " +:+ fst g).
    apply (line_reading "User-agent" (fst g) (or_introl eq_refl) Hua).
  - clear -Hpaths. induction (snd g) as [|d ds IH]; [constructor|].
    cbn [forallb] in Hpaths. apply andb_true_iff in Hpaths as [Hd Hds].
    cbn [List.map]. constructor; [|exact (IH Hds)].
    unfold directive_line. destruct (fst d).
    + change ("Allow: " +:+ snd d) with ("Allow" +:+ ": " +:+ snd d).
      apply (line_reading "Allow" (snd d) (or_intror (or_intror eq_refl)) Hd).
    + change ("Disallow: " +:+ snd d) with ("Disallow" +:+ ": " +:+ snd d).
      apply (line_reading "Disallow" (snd d) (or_intror (or_introl eq_refl)) Hd).
Qed.

End RenderFacts.

(** X22.  Parsing reads back what was written out.  For groups with
    different user agents, at least one directive each, and values
    without line feed, [#] and white space at the ends, the text with a
    [User-agent] line followed by an [Allow] or [Disallow] line per
    directive parses without error into exactly these groups: each user
    agent gets the directives of its group, in their order, with no
    crawl delay and no request rate, and no other user agent gets a rule
    set. *)
Theorem parse_reads_back_rendered_groups
    (p : RobotsParser.t) (groups : list RobotsText.Group) :
  RobotsText.renderable groups = true ->
  (forall g, In g groups ->
     RobotsParser.user_agent_rules (RobotsParser.parse p (RobotsText.render groups))
       !! fst g = Some (RobotsText.group_rules g))
  /\ (forall ua, ~ In ua (List.map fst groups) ->
        RobotsParser.user_agent_rules
          (RobotsParser.parse p (RobotsText.render groups)) !! ua = None)
  /\ RobotsParser.parse_errors (RobotsParser.parse p (RobotsText.render groups)) = []
  /\ RobotsParser.sitemaps (RobotsParser.parse p (RobotsText.render groups)) = []
  /\ (forall g, In g groups ->
        RobotsParser.get_rules_for_user_agent
          (RobotsParser.parse p (RobotsText.render groups)) (fst g)
        = Some (RobotsText.group_rules g)).
Proof.
  intros Hok. unfold RobotsParser.parse.
  set (p0 := RobotsParser.mk _ ∅ [] _ [] _ _).
  assert (Hrun : exists rules cur',
            RobotsParser.parse_lines 1
              (Str.split Re.LF (RobotsText.render groups)) (p0, [])
            = (RobotsParser.set_rules p0 rules, cur')
            /\ (forall g, In g groups -> rules !! fst g = Some (RobotsText.group_rules g))
            /\ (forall ua, ~ In ua (List.map fst groups) -> rules !! ua = None)).
  { destruct (concat (List.map RobotsText.group_lines groups)) as [|l rest] eqn:El.
    - destruct groups as [|g gs]; [|discriminate].
      exists ∅, []. split; [reflexivity|]. split; [intros g []|reflexivity].
    - destruct (RenderFacts.parse_groups groups 1%nat p0 [] Hok)
        as (rules & cur' & Hpl & Hin & Hout).
      + intros g _. reflexivity.
      + left. reflexivity.
      + exists rules, cur'. unfold RobotsText.render. rewrite El.
        rewrite RenderFacts.split_join_lines;
          [|rewrite <- El; apply RenderFacts.group_lines_no_lf, Hok].
        rewrite <- El, Hpl. split; [reflexivity|]. split; [exact Hin|].
        intros ua Hua. rewrite (Hout ua Hua). reflexivity. }
  destruct Hrun as (rules & cur' & -> & Hin & Hout).
  cbn [fst RobotsParser.user_agent_rules RobotsParser.parse_errors
       RobotsParser.sitemaps RobotsParser.set_rules p0].
  split; [exact Hin|]. split; [exact Hout|]. split; [reflexivity|].
  split; [reflexivity|].
  intros g Hg. unfold RobotsParser.get_rules_for_user_agent.
  cbn [RobotsParser.user_agent_rules RobotsParser.set_rules].
  rewrite (Hin g Hg). reflexivity.
Qed.

Lemma parse_reads_back_rendered_groups_witness :
  RobotsParser.user_agent_rules
    (RobotsParser.parse (RobotsParser.new 10)
       (RobotsText.render
          [("*", [(false, "/private/"); (true, "/private/public.html")]);
           ("newtbot", [(false, "")])]))
    !! "newtbot"
  = Some (RobotsText.group_rules ("newtbot", [(false, "")])).
Proof.
  apply (proj1 (parse_reads_back_rendered_groups (RobotsParser.new 10)
                  [("*", [(false, "/private/"); (true, "/private/public.html")]);
                   ("newtbot", [(false, "")])] eq_refl)
           ("newtbot", [(false, "")])).
  right. left. reflexivity.
Defined.

(* --------------------------------------------------------------------- *)
(** ** UserAgentRules: adding a directive                                 *)
(* --------------------------------------------------------------------- *)

Module AddFacts.
Import UserAgentRules BestMatch.

(** The decision after one more directive, from the state of the loop
    before it. *)
Lemma is_allowed_add r path a p :
  is_allowed (add_directive r path a) p
  = if RobotsDirective.matches (RobotsDirective.new path a) p
       && (Z.of_nat (String.length path)
           >? snd (fold_left (best_step p) (directives r) (None, (-1)%Z)))%Z
    then a else is_allowed r p.
Proof.
  rewrite !BestMatchFacts.is_allowed_best. unfold best_match, add_directive.
  cbn [directives]. rewrite fold_left_app. cbn [fold_left].
  unfold best_step at 1.
  destruct (RobotsDirective.matches (RobotsDirective.new path a) p);
    [|reflexivity].
  cbn [RobotsDirective.path RobotsDirective.new andb].
  destruct (Z.of_nat (String.length path) >? _)%Z; reflexivity.
Qed.

Lemma best_length_bound ds p n :
  (forall d, In d ds -> RobotsDirective.matches d p = true -> (len d < n)%nat) ->
  (snd (fold_left (best_step p) ds (None, (-1)%Z)) < Z.of_nat n)%Z.
Proof.
  intros Hshort. pose proof (BestMatchFacts.loop_state_fold ds p) as H.
  unfold loop_state in H.
  destruct (fst (fold_left (best_step p) ds (None, (-1)%Z))) as [b|].
  - destruct H as (-> & Hin & Hm & _). specialize (Hshort b Hin Hm). lia.
  - destruct H as [-> _]. lia.
Qed.

End AddFacts.

(** X23.  One more directive changes the decision only for the paths it
    matches, and only towards its own value: after [add_directive(path,
    allow)] the decision for a path is either [allow] or what it was.  So
    a new [Disallow] never opens a path that was denied and a new [Allow]
    never closes a path that was allowed; and a directive that matches
    with a path longer than every matching directive already there
    decides. *)
Theorem add_directive_moves_towards_its_value
    (r : UserAgentRules.t) (path : string) (a : bool) (p : string) :
  (RobotsDirective.matches (RobotsDirective.new path a) p = false ->
   UserAgentRules.is_allowed (UserAgentRules.add_directive r path a) p
   = UserAgentRules.is_allowed r p)
  /\ (UserAgentRules.is_allowed (UserAgentRules.add_directive r path a) p = a
      \/ UserAgentRules.is_allowed (UserAgentRules.add_directive r path a) p
         = UserAgentRules.is_allowed r p)
  /\ (a = false ->
      UserAgentRules.is_allowed (UserAgentRules.add_directive r path a) p = true ->
      UserAgentRules.is_allowed r p = true)
  /\ (a = true ->
      UserAgentRules.is_allowed r p = true ->
      UserAgentRules.is_allowed (UserAgentRules.add_directive r path a) p = true)
  /\ (RobotsDirective.matches (RobotsDirective.new path a) p = true ->
      (forall d, In d (UserAgentRules.directives r) ->
                 RobotsDirective.matches d p = true ->
                 (BestMatch.len d < String.length path)%nat) ->
      UserAgentRules.is_allowed (UserAgentRules.add_directive r path a) p = a).
Proof.
  rewrite AddFacts.is_allowed_add.
  split; [intros ->; reflexivity|]. split; [|split; [|split]].
  - destruct (_ && _); [left|right]; reflexivity.
  - intros ->. destruct (_ && _); [discriminate|exact id].
  - intros -> Hr. destruct (_ && _); [reflexivity|exact Hr].
  - intros -> Hshort. cbn [andb].
    pose proof (AddFacts.best_length_bound _ p _ Hshort) as Hb.
    destruct (Z.gtb_spec (Z.of_nat (String.length path))
                (snd (fold_left (UserAgentRules.best_step p)
                                (UserAgentRules.directives r) (None, (-1)%Z))));
      [reflexivity|lia].
Qed.

Lemma add_directive_moves_towards_its_value_witness :
  UserAgentRules.is_allowed private_rules "/private/public.html" = true.
Proof.
  apply (proj2 (proj2 (proj2 (proj2
           (add_directive_moves_towards_its_value
              (UserAgentRules.add_directive (UserAgentRules.new "*") "/private/" false)
              "/private/public.html" true "/private/public.html"))))).
  - reflexivity.
  - intros d [<-|[]] _. vm_compute. lia.
Defined.

(* --------------------------------------------------------------------- *)
(** ** parse on a group shared by several user agents                     *)
(* --------------------------------------------------------------------- *)

Module ShareFacts.
Import RobotsText SharedGroup RobotsParser.

Lemma absent_from_list x l : in_list x l = false -> ~ In x l.
Proof. apply AnalyzerFacts.existsb_eqb_false. Qed.

Lemma in_list_true x l : in_list x l = true -> In x l.
Proof.
  intros (y & Hy & ->%String.eqb_eq)%existsb_exists. exact Hy.
Qed.

Lemma ensure_lookup_eqb ua (m : gmap string UserAgentRules.t) k :
  ensure ua m !! k
  = if String.eqb k ua then Some (default (UserAgentRules.new ua) (m !! ua))
    else m !! k.
Proof.
  unfold ensure. destruct (String.eqb_spec k ua) as [->|Hk].
  - destruct (m !! ua) eqn:E; [exact E|apply lookup_insert_eq].
  - destruct (m !! ua); [reflexivity|]. apply lookup_insert_ne. congruence.
Qed.

Lemma attach_lookup v a (m : gmap string UserAgentRules.t) ua k :
  attach_directive v a m ua !! k
  = if String.eqb k ua
    then Some (UserAgentRules.add_directive
                 (default (UserAgentRules.new ua) (m !! ua)) v a)
    else m !! k.
Proof.
  unfold attach_directive. destruct (String.eqb_spec k ua) as [->|Hk].
  - rewrite lookup_alter_eq, ensure_lookup_eqb, String.eqb_refl. reflexivity.
  - rewrite lookup_alter_ne by congruence. rewrite ensure_lookup_eqb.
    apply String.eqb_neq in Hk. rewrite Hk. reflexivity.
Qed.

(** One directive line, attached to every current agent. *)
Lemma attach_all_lookup v a cur :
  distinct cur = true ->
  forall (m : gmap string UserAgentRules.t) k,
    fold_left (attach_directive v a) cur m !! k
    = if in_list k cur
      then Some (UserAgentRules.add_directive
                   (default (UserAgentRules.new k) (m !! k)) v a)
      else m !! k.
Proof.
  induction cur as [|ua rest IH]; intros Hd m k; [reflexivity|].
  cbn [distinct] in Hd. apply andb_true_iff in Hd as [Hfresh Hd].
  apply negb_true_iff in Hfresh.
  cbn [fold_left]. rewrite (IH Hd). unfold in_list. cbn [existsb].
  fold (in_list k rest). rewrite attach_lookup.
  destruct (String.eqb_spec k ua) as [->|Hk]; [|reflexivity].
  rewrite Hfresh. reflexivity.
Qed.

Lemma shared_directives_lookup cur ds :
  distinct cur = true ->
  forall (m : gmap string UserAgentRules.t) k,
    fold_left (fun m (d : bool * string) =>
                 fold_left (attach_directive (snd d) (fst d)) cur m) ds m !! k
    = if in_list k cur
      then match m !! k with
           | Some r =>
               Some (fold_left
                       (fun r d => UserAgentRules.add_directive r (snd d) (fst d))
                       ds r)
           | None =>
               match ds with
               | [] => None
               | _ :: _ =>
                   Some (fold_left
                           (fun r d => UserAgentRules.add_directive r (snd d) (fst d))
                           ds (UserAgentRules.new k))
               end
           end
      else m !! k.
Proof.
  intros Hd. induction ds as [|d ds IH]; intros m k.
  - cbn [fold_left]. destruct (in_list k cur), (m !! k); reflexivity.
  - cbn [fold_left]. rewrite IH, (attach_all_lookup _ _ cur Hd).
    destruct (in_list k cur); [|reflexivity].
    destruct (m !! k); reflexivity.
Qed.

Lemma fresh_agents_lookup agents :
  forall (m : gmap string UserAgentRules.t) k,
    fold_left (fun m a => <[a := UserAgentRules.new a]> m) agents m !! k
    = if in_list k agents then Some (UserAgentRules.new k) else m !! k.
Proof.
  induction agents as [|a rest IH]; intros m k; [reflexivity|].
  cbn [fold_left]. rewrite IH. unfold in_list. cbn [existsb].
  fold (in_list k rest).
  destruct (String.eqb_spec k a) as [->|Hk].
  - rewrite lookup_insert_eq. destruct (in_list a rest); reflexivity.
  - rewrite lookup_insert_ne by congruence. reflexivity.
Qed.

(** A fresh agent does not close a block that is open. *)
Lemma open_block_stays_open (m : gmap string UserAgentRules.t) cur ua :
  m !! ua = None ->
  previous_block_had_directives m cur = false ->
  previous_block_had_directives (<[ua := UserAgentRules.new ua]> m) cur = false
  /\ previous_block_had_directives (<[ua := UserAgentRules.new ua]> m)
       (cur ++ [ua]) = false.
Proof.
  intros Hfresh Hopen.
  assert (Hfirst : forall first,
            match m !! first with
            | Some r => match UserAgentRules.directives r with
                        | [] => false | _ :: _ => true end
            | None => false
            end = false ->
            match <[ua := UserAgentRules.new ua]> m !! first with
            | Some r => match UserAgentRules.directives r with
                        | [] => false | _ :: _ => true end
            | None => false
            end = false).
  { intros first Hf. destruct (String.eqb_spec first ua) as [->|Hne].
    - rewrite lookup_insert_eq. reflexivity.
    - rewrite lookup_insert_ne by congruence. exact Hf. }
  destruct cur as [|first rest].
  - split; [reflexivity|]. cbn [app previous_block_had_directives].
    rewrite lookup_insert_eq. reflexivity.
  - cbn [app previous_block_had_directives] in *. split; apply Hfirst, Hopen.
Qed.

Lemma parse_agent_lines agents :
  forall n p cur,
    distinct agents = true ->
    forallb clean agents = true ->
    (forall a, In a agents -> user_agent_rules p !! a = None) ->
    previous_block_had_directives (user_agent_rules p) cur = false ->
    parse_lines n (List.map agent_line agents) (p, cur)
    = (set_rules p
         (fold_left (fun m a => <[a := UserAgentRules.new a]> m) agents
                    (user_agent_rules p)),
       cur ++ agents).
Proof.
  induction agents as [|a rest IH]; intros n p cur Hd Hclean Hfresh Hopen.
  - cbn [List.map parse_lines fold_left].
    rewrite RenderFacts.set_rules_same, app_nil_r. reflexivity.
  - cbn [distinct] in Hd. apply andb_true_iff in Hd as [Ha Hd].
    apply negb_true_iff, absent_from_list in Ha.
    cbn [forallb] in Hclean. apply andb_true_iff in Hclean as [Hca Hcrest].
    cbn [List.map parse_lines fold_left].
    change (agent_line a) with ("User-agent: " +:+ a).
    rewrite (RenderFacts.parse_user_agent_line n a p cur Hca).
    assert (Hens : ensure a (user_agent_rules p)
                   = <[a := UserAgentRules.new a]> (user_agent_rules p))
      by (unfold ensure; rewrite (Hfresh a (or_introl eq_refl)); reflexivity).
    rewrite Hens.
    destruct (open_block_stays_open _ cur a (Hfresh a (or_introl eq_refl)) Hopen)
      as [Hsame Hnext].
    rewrite Hsame.
    rewrite (IH (S n) _ (cur ++ [a]) Hd Hcrest).
    + rewrite RenderFacts.set_rules_twice. cbn [user_agent_rules set_rules].
      rewrite <- app_assoc. reflexivity.
    + intros b Hb. cbn [user_agent_rules set_rules].
      rewrite lookup_insert_ne; [apply Hfresh; right; exact Hb|].
      intros ->. exact (Ha Hb).
    + exact Hnext.
Qed.

Lemma parse_shared_directive_lines ds :
  forall n p first rest,
    forallb (fun d : bool * string => clean (snd d)) ds = true ->
    parse_lines n (List.map directive_line ds) (p, first :: rest)
    = (set_rules p
         (fold_left (fun m (d : bool * string) =>
                       fold_left (attach_directive (snd d) (fst d))
                                 (first :: rest) m)
                    ds (user_agent_rules p)),
       first :: rest).
Proof.
  induction ds as [|d ds IH]; intros n p first rest Hclean.
  - cbn [List.map parse_lines fold_left].
    rewrite RenderFacts.set_rules_same. reflexivity.
  - cbn [forallb] in Hclean. apply andb_true_iff in Hclean as [Hd Hds].
    cbn [List.map parse_lines].
    rewrite (RenderFacts.parse_directive_line n d p first rest Hd).
    rewrite (IH (S n) _ first rest Hds), RenderFacts.set_rules_twice.
    reflexivity.
Qed.

Lemma shared_lines_no_lf agents ds :
  forallb clean agents = true ->
  forallb (fun d : bool * string => clean (snd d)) ds = true ->
  Forall (fun x => Str.contains Re.LF x = false) (shared_lines agents ds).
Proof.
  intros Ha Hd. unfold shared_lines. apply Forall_app. split.
  - induction agents as [|a rest IH]; [constructor|].
    cbn [forallb] in Ha. apply andb_true_iff in Ha as [Hca Hrest].
    cbn [List.map]. constructor; [|exact (IH Hrest)].
    unfold agent_line.
    change ("User-agent: " +:+ a) with ("User-agent" +:+ ": " +:+ a).
    apply (RenderFacts.line_reading "User-agent" a (or_introl eq_refl) Hca).
  - induction ds as [|d rest IH]; [constructor|].
    cbn [forallb] in Hd. apply andb_true_iff in Hd as [Hcd Hrest].
    cbn [List.map]. constructor; [|exact (IH Hrest)].
    unfold directive_line. destruct (fst d).
    + change ("Allow: " +:+ snd d) with ("Allow" +:+ ": " +:+ snd d).
      apply (RenderFacts.line_reading "Allow" (snd d)
               (or_intror (or_intror eq_refl)) Hcd).
    + change ("Disallow: " +:+ snd d) with ("Disallow" +:+ ": " +:+ snd d).
      apply (RenderFacts.line_reading "Disallow" (snd d)
               (or_intror (or_introl eq_refl)) Hcd).
Qed.

End ShareFacts.

(** X24.  Consecutive [User-agent] lines share the directives that
    follow: for one or more different user agents and any directives, all
    with clean values, the text with one [User-agent] line per agent
    followed by one line per directive parses without error so that every
    one of these agents gets all the directives, in their order, and no
    other agent gets a rule set. *)
Theorem consecutive_agents_share_directives
    (p : RobotsParser.t) (agents : list string) (ds : list (bool * string)) :
  SharedGroup.shareable agents ds = true ->
  (forall a, In a agents ->
     RobotsParser.user_agent_rules (RobotsParser.parse p (SharedGroup.render agents ds))
       !! a = Some (RobotsText.group_rules (a, ds)))
  /\ (forall k, ~ In k agents ->
        RobotsParser.user_agent_rules
          (RobotsParser.parse p (SharedGroup.render agents ds)) !! k = None)
  /\ RobotsParser.parse_errors (RobotsParser.parse p (SharedGroup.render agents ds)) = []
  /\ RobotsParser.sitemaps (RobotsParser.parse p (SharedGroup.render agents ds)) = [].
Proof.
  unfold SharedGroup.shareable.
  intros [[[Hne Hdist]%andb_true_iff Hca]%andb_true_iff Hcd]%andb_true_iff.
  destruct agents as [|first rest]; [discriminate|]. clear Hne.
  unfold RobotsParser.parse, SharedGroup.render.
  set (p0 := RobotsParser.mk _ ∅ [] _ [] _ _).
  assert (Hsplit : Str.split Re.LF
                     (RobotsText.join_lines (SharedGroup.shared_lines (first :: rest) ds))
                   = SharedGroup.shared_lines (first :: rest) ds).
  { pose proof (ShareFacts.shared_lines_no_lf (first :: rest) ds Hca Hcd) as Hno.
    unfold SharedGroup.shared_lines in *. cbn [List.map app] in *.
    apply RenderFacts.split_join_lines, Hno. }
  rewrite Hsplit. unfold SharedGroup.shared_lines.
  rewrite RenderFacts.parse_lines_app.
  rewrite (ShareFacts.parse_agent_lines (first :: rest) 1 p0 [] Hdist Hca);
    [|intros a _; reflexivity|reflexivity].
  cbn [app].
  rewrite (ShareFacts.parse_shared_directive_lines ds _ _ first rest Hcd).
  rewrite RenderFacts.set_rules_twice.
  cbn [fst RobotsParser.user_agent_rules RobotsParser.parse_errors
       RobotsParser.sitemaps RobotsParser.set_rules p0].
  split; [|split; [|split; reflexivity]].
  - intros a Ha.
    rewrite (ShareFacts.shared_directives_lookup (first :: rest) ds Hdist).
    rewrite ShareFacts.fresh_agents_lookup.
    assert (Hin : RobotsParser.in_list a (first :: rest) = true).
    { apply existsb_exists. exists a. split; [exact Ha|apply String.eqb_refl]. }
    rewrite Hin. unfold UserAgentRules.new.
    rewrite RenderFacts.add_directives_from. reflexivity.
  - intros k Hk.
    rewrite (ShareFacts.shared_directives_lookup (first :: rest) ds Hdist).
    rewrite ShareFacts.fresh_agents_lookup.
    destruct (RobotsParser.in_list k (first :: rest)) eqn:Hin;
      [exfalso; apply Hk, ShareFacts.in_list_true, Hin|reflexivity].
Qed.

Lemma consecutive_agents_share_directives_witness :
  RobotsParser.user_agent_rules
    (RobotsParser.parse (RobotsParser.new 10)
       (SharedGroup.render ["a"; "b"] [(false, "/y")])) !! "a"
  = Some (RobotsText.group_rules ("a", [(false, "/y")])).
Proof.
  apply (proj1 (consecutive_agents_share_directives (RobotsParser.new 10)
                  ["a"; "b"] [(false, "/y")] eq_refl) "a").
  left. reflexivity.
Defined.
